(** * workers-chat-puzzle: the room coordinator, its rate limiter and the
      AI host's progress logic, as a shallow embedding.

    The development follows the source files:
    - [Utils]         lib/utils.mjs          ([safeString], [uniqueArray],
                                              [safeNumber])
    - [AIHost]        lib/ai-host.mjs        ([smoothProgress], [applyGameLogic],
                                              [processQuestion])
    - [RateLimiter]   chat.mjs               (class RateLimiter, RateLimiterClient)
    - [Room]          chat.mjs               (class ChatRoom)
    - [PuzzleManager] lib/puzzle-manager.mjs (class PuzzleManager)
    - [AIHostPuzzle], [AIHostSession]
                      lib/ai-host.mjs        ([validatePuzzle], [generateAutoHint],
                                              [checkIfSolved], [calculateEfficiency])
    - [PromptManager] lib/prompt-manager.mjs ([validateResponse],
                                              [getScoringCriteria])
    - [LLMClient]     lib/llm-client.mjs     ([makeRequestWithRetry],
                                              [generateIntelligentResponse])
    - [AIConfig]      config/ai-config.mjs   ([buildAIConfig], [validateAIConfig])
    - [Worker]        chat.mjs               (the routes of [fetch],
                                              [handleApiRequest], [ChatRoom.fetch])

    JavaScript numbers that the code only ever uses as integers are [Z] or
    [nat]; where fractions occur (the numbers parsed out of the language
    model's reply, [Date.now() / 1000], [Math.random()], the efficiency of
    a game) they are [Q], and [number] where the code tells infinities
    and what is not a number apart.  Strings are [string]; their length is
    the number of characters of the literal as Rocq sees it. *)

From Stdlib Require Import ZArith QArith Qminmax Qround Lia Lqa Ascii.
From stdpp Require Import base option list strings pretty gmap sets sorting.

Set Warnings "-register-all".
Local Open Scope Z_scope.

(* ===================================================================== *)
(** ** lib/utils.mjs *)

Module Utils.

(** [value.slice(0, maxLength)] on a string. *)
Definition slice0 (s : string) (n : nat) : string := String.substring 0 n s.

(** [safeString(value, maxLength, defaultValue = '')].  [value] is a string
    or [undefined] ([None]); the source turns a non-string into
    [String(value || defaultValue)], which for [undefined] is
    [defaultValue].  The result is cut to its first [maxLength]
    characters. *)
Definition safeString (value : option string) (maxLength : nat)
    (defaultValue : string) : string :=
  let value := match value with Some v => v | None => defaultValue end in
  if (maxLength <? String.length value)%nat then slice0 value maxLength else value.

(** [uniqueArray(array, keyFn)] with a key function: [array.filter] with
    the set [seen] of the keys met so far.  [array] is [None] when the
    argument is not an array. *)
Section UniqueArray.
Context {A K : Type} `{EqDecision K}.

Fixpoint filter_unseen (keyFn : A → K) (seen : list K) (array : list A) : list A :=
  match array with
  | [] => []
  | item :: rest =>
      let key := keyFn item in
      if bool_decide (key ∈ seen) then filter_unseen keyFn seen rest
      else item :: filter_unseen keyFn (key :: seen) rest
  end.

Definition uniqueArray (array : option (list A)) (keyFn : A → K) : list A :=
  match array with
  | None => []
  | Some array => filter_unseen keyFn [] array
  end.

End UniqueArray.

(** JavaScript numbers as far as [safeNumber] tells them apart: not a
    number, the two infinities, and the finite ones, taken as exact
    rationals. *)
Inductive number := NaN | NegInfinity | Finite (q : Q) | Infinity.

Definition isNaN (x : number) : bool :=
  match x with NaN => true | _ => false end.

Definition Math_max (a b : number) : number :=
  match a, b with
  | NaN, _ | _, NaN => NaN
  | Infinity, _ | _, Infinity => Infinity
  | NegInfinity, x | x, NegInfinity => x
  | Finite p, Finite q => Finite (Qmax p q)
  end.

Definition Math_min (a b : number) : number :=
  match a, b with
  | NaN, _ | _, NaN => NaN
  | NegInfinity, _ | _, NegInfinity => NegInfinity
  | Infinity, x | x, Infinity => x
  | Finite p, Finite q => Finite (Qmin p q)
  end.

(** [a <= b] on numbers; false when one of them is not a number. *)
Definition number_le (a b : number) : Prop :=
  match a, b with
  | NaN, _ | _, NaN => False
  | NegInfinity, _ | _, Infinity => True
  | Finite p, Finite q => (p <= q)%Q
  | _, _ => False
  end.

(** [safeNumber(value, defaultValue, min, max)]; [num] is [Number(value)].
    The defaults of [min] and [max] are [-Infinity] and [Infinity]. *)
Definition safeNumber (num defaultValue min max : number) : number :=
  if isNaN num then defaultValue
  else Math_min max (Math_max min num).

End Utils.

(* ===================================================================== *)
(** ** lib/ai-host.mjs *)

Module AIHost.

(** config/ai-config.mjs, the parts [applyGameLogic] and [validateGameState]
    read. *)
Record config := {
  maxQuestionsPerRound : Z;
  repetitionPenalty : Z;
  creativityBonus : Z;
  keywordMatchBonus : Z;
  directQuestionBonus : Z;
  wrongDirectionPenalty : Z;
  hint_trigger : Z
}.

Definition DEFAULT_AI_CONFIG : config := {|
  maxQuestionsPerRound := 50;
  repetitionPenalty := -1;
  creativityBonus := 2;
  keywordMatchBonus := 10;
  directQuestionBonus := 15;
  wrongDirectionPenalty := -5;
  hint_trigger := 70
|}.

(** The three answers [validateResponse] lets through. *)
Inductive answer := Yes | No | Unrelated.

Global Instance answer_eq_dec : EqDecision answer.
Proof. solve_decision. Defined.

(** What [parseResponse] hands to [validateResponse]: any field may be
    missing or of the wrong type ([None]); numbers are arbitrary. *)
Record parsed := {
  p_answer : option answer;
  p_score : option Q;
  p_feedback : option string;
  p_progress : option Q;
  p_hint : option string
}.

Record response := {
  r_answer : answer;
  r_score : Z;
  r_feedback : string;
  r_progress : Z;
  r_hint : option string
}.

(** [Math.round]: the nearest integer, halves upwards. *)
Definition Math_round (x : Q) : Z := Qfloor (x + (1 # 2))%Q.

Definition in_range (lo hi : Z) (x : Q) : bool :=
  Qle_bool (inject_Z lo) x && Qle_bool x (inject_Z hi).

(** llm-client.mjs, [validateResponse]. *)
Definition validateResponse (p : parsed) : response := {|
  r_answer := match p_answer p with Some a => a | None => Unrelated end;
  r_score := match p_score p with
             | Some s => if in_range 1 10 s then Math_round s else 1
             | None => 1
             end;
  r_feedback := match p_feedback p with
                | Some f => if decide (f = "") then "无效回答" else Utils.slice0 f 100
                | None => "无效回答"
                end;
  r_progress := match p_progress p with
                | Some g => if in_range 0 100 g then Math_round g else 0
                | None => 0
                end;
  r_hint := match p_hint p with
            | Some h => if decide (h = "") then None else Some (Utils.slice0 h 50)
            | None => None
            end
|}.

(** [createGameSession]: the fields the game logic reads and writes. *)
Record session := {
  questionCount : Z;
  totalScore : Z;
  progress : Z;
  hintsGiven : Z;
  isActive : bool
}.

Definition createGameSession : session := {|
  questionCount := 0; totalScore := 0; progress := 0; hintsGiven := 0;
  isActive := true
|}.

(** [smoothProgress(previousProgress, newProgress)]. *)
Definition smoothProgress (previousProgress newProgress : Z) : Z :=
  let maxChange := 15 in
  let minChange := -10 in
  let change := newProgress - previousProgress in
  let change := Z.max minChange (Z.min maxChange change) in
  Z.max 0 (Z.min 100 (previousProgress + change)).

(** What the string predicates of ai-host.mjs say about one question
    ([checkDuplicateQuestion], [isCreativeQuestion], [hasKeywordMatch],
    [isDirectQuestion], [shouldAutoHint]) and the hint [generateAutoHint]
    would give.  They are pattern searches on the question text and the
    puzzle; the progress logic only reads their boolean outcome. *)
Record facts := {
  isDuplicate : bool;
  isCreativeQuestion : bool;
  hasKeywordMatch : bool;
  isDirectQuestion : bool;
  shouldAutoHint : bool;
  generateAutoHint : string
}.

Section GameLogic.
Variable cfg : config.

(** [applyGameLogic(response, question, isDuplicate)]. *)
Definition applyGameLogic (s : session) (f : facts) (r : response) : response :=
  let score := r_score r in
  let feedback := r_feedback r in
  let '(score, feedback) :=
    if isDuplicate f
    then (Z.max 1 (score + repetitionPenalty cfg), feedback +:+ " (重复问题)")
    else (score, feedback) in
  let score :=
    if isCreativeQuestion f then Z.min 10 (score + creativityBonus cfg) else score in
  let prog := r_progress r in
  let prog :=
    if hasKeywordMatch f then Z.min 100 (prog + keywordMatchBonus cfg) else prog in
  let prog :=
    if isDirectQuestion f then Z.min 100 (prog + directQuestionBonus cfg) else prog in
  let prog :=
    if bool_decide (r_answer r = Unrelated) && (6 <? score)
    then Z.max 0 (prog + wrongDirectionPenalty cfg) else prog in
  let previousProgress := progress s in
  let prog := smoothProgress previousProgress prog in
  let hint :=
    if shouldAutoHint f
    then match r_hint r with
         | Some h => Some h
         | None => if hint_trigger cfg <? prog then Some (generateAutoHint f) else None
         end
    else r_hint r in
  {| r_answer := r_answer r; r_score := score; r_feedback := feedback;
     r_progress := prog; r_hint := hint |}.

(** [createFallbackResponse]. *)
Definition createFallbackResponse (s : session) : response := {|
  r_answer := Unrelated;
  r_score := 3;
  r_feedback := "系统处理中遇到问题，请重新提问";
  r_progress := Z.max 0 (progress s - 5);
  r_hint := None
|}.

(** The language model's part in [processAIResponse]: a reply that
    [parseResponse] turned into an object, or an exception anywhere in the
    [try] block. *)
Inductive llm := LLMReply (p : parsed) | LLMThrows.

Definition processAIResponse (s : session) (f : facts) (l : llm) : response :=
  match l with
  | LLMReply p => applyGameLogic s f (validateResponse p)
  | LLMThrows => createFallbackResponse s
  end.

(** [updateGameState]: a hint is counted when it is a non-empty string. *)
Definition updateGameState (s : session) (r : response) : session := {|
  questionCount := questionCount s + 1;
  totalScore := totalScore s + r_score r;
  progress := r_progress r;
  hintsGiven := match r_hint r with
                | Some h => if decide (h = "") then hintsGiven s else hintsGiven s + 1
                | None => hintsGiven s
                end;
  isActive := isActive s
|}.

(** One call of [processQuestion] on an existing session.  [timedOut] is
    the outcome of the clock comparison in [validateGameState], which ends
    the game.  The result is the response sent back ([None] for an error
    response) and the session afterwards. *)
Record question := {
  q_valid : bool;          (* validateQuestionInput *)
  q_timedOut : bool;
  q_facts : facts;
  q_llm : llm
}.

Definition validateGameState (s : session) (q : question) : bool * session :=
  if negb (isActive s) then (false, s)
  else if maxQuestionsPerRound cfg <=? questionCount s then (false, s)
  else if q_timedOut q
       then (false, {| questionCount := questionCount s; totalScore := totalScore s;
                       progress := progress s; hintsGiven := hintsGiven s;
                       isActive := false |})
  else (true, s).

Definition processQuestion (s : session) (q : question) : option response * session :=
  if negb (q_valid q) then (None, s)
  else
    let '(ok, s) := validateGameState s q in
    if negb ok then (None, s)
    else
      let r := processAIResponse s (q_facts q) (q_llm q) in
      (Some r, updateGameState s r).

(** The session after a whole game: [startGame], then the questions in
    order. *)
Definition play (qs : list question) : session :=
  fold_left (fun s q => snd (processQuestion s q)) qs createGameSession.

End GameLogic.

(** A first question to which the model replies with progress 90. *)
Definition eager_reply : question := {|
  q_valid := true;
  q_timedOut := false;
  q_facts := {| isDuplicate := false; isCreativeQuestion := false;
                hasKeywordMatch := true; isDirectQuestion := true;
                shouldAutoHint := false; generateAutoHint := "" |};
  q_llm := LLMReply {| p_answer := Some Yes; p_score := Some 7%Q;
                       p_feedback := Some "ok"; p_progress := Some 90%Q;
                       p_hint := None |}
|}.

End AIHost.

(* ===================================================================== *)
(** ** chat.mjs: class RateLimiter *)

Module RateLimiter.

Inductive method := GET | POST.

(** The actor's only state is [nextAllowedTime], in seconds; it starts at
    0.  [fetch] takes [Date.now()] in milliseconds and returns the new
    [nextAllowedTime] and the cooldown it replies with. *)
Definition initial : Q := 0%Q.

Definition fetch (m : method) (Date_now : Z) (nextAllowedTime : Q) : Q * Q :=
  let now := (inject_Z Date_now / 1000)%Q in
  let nextAllowedTime := Qmax now nextAllowedTime in
  let nextAllowedTime :=
    match m with
    | POST => (nextAllowedTime + 1)%Q
    | GET => nextAllowedTime
    end in
  let cooldown := Qmax 0 (nextAllowedTime - now - 30)%Q in
  (nextAllowedTime, cooldown).

(** The values [nextAllowedTime] takes over a sequence of requests, the
    starting value first. *)
Fixpoint history (calls : list (method * Z)) (nextAllowedTime : Q) : list Q :=
  match calls with
  | [] => [nextAllowedTime]
  | (m, t) :: rest => nextAllowedTime :: history rest (fst (fetch m t nextAllowedTime))
  end.

(** The cooldowns the actor replies with over a sequence of requests, in
    order. *)
Fixpoint replies (calls : list (method * Z)) (nextAllowedTime : Q) : list Q :=
  match calls with
  | [] => []
  | (m, t) :: rest =>
      snd (fetch m t nextAllowedTime) :: replies rest (fst (fetch m t nextAllowedTime))
  end.

End RateLimiter.

(* ===================================================================== *)
(** ** chat.mjs: class ChatRoom *)

Module Room.

Local Open Scope nat_scope.

(** *** Data *)

(** A server-side WebSocket.  Each accepted connection gets a new one. *)
Definition ws := nat.

(** JSON documents, for the persisted snapshot. *)
Inductive json :=
| JNull
| JBool (b : bool)
| JNum (n : Z)
| JStr (s : string)
| JArr (items : list json)
| JObj (fields : list (string * json)).

(** A puzzle as the puzzle manager hands it out: an object, kept as its
    fields. *)
Definition puzzle := list (string * json).

(** An entry of [userScores]. *)
Record score := { totalScore : Z; questionCount : Z }.

Global Instance score_eq_dec : EqDecision score.
Proof. solve_decision. Defined.

(** The messages the room sends, before [JSON.stringify]. *)
Inductive omsg :=
| OJoined (name : string)
| OQuit (name : string)
| OReady
| OError (message : string)
| OChat (name message : string) (timestamp : Z)
        (turtleSoupMessage aiHostQuestion : bool)
| OStoredGameState (state : json)
| OHostReply (message : string) (timestamp : Z)
| OTurnChange (turnIndex : nat) (nextPlayer : option string)
              (userScores : option (gmap string score))
| ORequest (initiator : string) (participants : list string)
| OConfirm (initiator : string) (confirmed : bool) (user : string)
| OStart (initiator : string) (participants : list string)
| OEnd
| OPuzzleStart (initiator : string) (participants : list string) (p : puzzle)
| OAIHostStart (initiator : string) (participants : list string)
| OAIGameSolved
| OAIResponse (questioner question formattedMessage : string)
| OAIHostEnd
| OGameStateSync (turtleSoupActive : bool) (turtleSoupParticipants : list string)
                 (turtleSoupInitiator : option string) (currentTurnIndex : nat)
                 (aiHostActive : bool) (aiHostInitiator : option string)
                 (aiHostParticipants : list string) (currentPuzzle : option puzzle).

(** A session object of [this.sessions].  [s_name] is undefined until the
    user-setup message; [s_blockedMessages] is deleted after the flush;
    [s_inCooldown] is the flag of the session's [RateLimiterClient]. *)
Record session := {
  s_name : option string;
  s_blockedMessages : option (list omsg);
  s_inCooldown : bool;
  s_quit : bool
}.

(** An entry of [pendingConfirmations]. *)
Record ticket := {
  confirmedUsers : gset string;
  originalParticipants : list string
}.

(** The fields [saveGameState] writes. *)
Record game := {
  turtleSoupActive : bool;
  turtleSoupParticipants : list string;
  turtleSoupInitiator : option string;
  currentTurnIndex : nat;
  currentPuzzle : option puzzle;
  aiHostActive : bool;
  aiHostInitiator : option string;
  aiHostParticipants : list string;
  userScores : gmap string score
}.

(** What the room does to the outside, in the order it does it. *)
Inductive effect :=
| ESend (w : ws) (m : omsg)                (* webSocket.send(...) *)
| ESendError (w : ws) (message : string)   (* sendError *)
| EClose (w : ws) (code : Z)               (* webSocket.close *)
| EAttachName (w : ws) (name : string)     (* serializeAttachment({.., name}) *)
| EPutMessage (key : Z) (m : omsg)         (* storage.put(key, messageStr) *)
| EPutGameState (state : json).            (* storage.put('gameState', ..) *)

(** Callbacks handed to [setTimeout] and not yet run. *)
Inductive timer :=
| TConfirmTimeout (initiator : string)     (* handleTurtleSoupRequest, 30 s *)
| THostReply (formatted : string)          (* scheduleAIResponse, 1 s *)
| TTurnChange                              (* scheduleAIResponse, inner 500 ms *)
| TTurnChangeAI.                           (* handleTurtleSoupAIMessage, 2 s *)

(** The room object, its storage, and its surroundings: the pending
    timers, the sockets whose [send] throws, the sockets handed out so
    far, and the effects so far (oldest first). *)
Record room := {
  sessions : list (ws * session);
  lastTimestamp : Z;
  gs : game;
  pendingConfirmations : gmap string ticket;
  aiHost : bool;
  store_messages : list (Z * omsg);
  store_gameState : option json;
  timers : list timer;
  dead : list ws;
  next_ws : ws;
  trace : list effect
}.

(** Field updates. *)
Definition set_sessions (f : list (ws * session) → list (ws * session)) (r : room) : room :=
  {| sessions := f (sessions r); lastTimestamp := lastTimestamp r; gs := gs r;
     pendingConfirmations := pendingConfirmations r; aiHost := aiHost r;
     store_messages := store_messages r; store_gameState := store_gameState r;
     timers := timers r; dead := dead r; next_ws := next_ws r; trace := trace r |}.

Definition set_lastTimestamp (t : Z) (r : room) : room :=
  {| sessions := sessions r; lastTimestamp := t; gs := gs r;
     pendingConfirmations := pendingConfirmations r; aiHost := aiHost r;
     store_messages := store_messages r; store_gameState := store_gameState r;
     timers := timers r; dead := dead r; next_ws := next_ws r; trace := trace r |}.

Definition set_gs (f : game → game) (r : room) : room :=
  {| sessions := sessions r; lastTimestamp := lastTimestamp r; gs := f (gs r);
     pendingConfirmations := pendingConfirmations r; aiHost := aiHost r;
     store_messages := store_messages r; store_gameState := store_gameState r;
     timers := timers r; dead := dead r; next_ws := next_ws r; trace := trace r |}.

Definition set_pending (f : gmap string ticket → gmap string ticket) (r : room) : room :=
  {| sessions := sessions r; lastTimestamp := lastTimestamp r; gs := gs r;
     pendingConfirmations := f (pendingConfirmations r); aiHost := aiHost r;
     store_messages := store_messages r; store_gameState := store_gameState r;
     timers := timers r; dead := dead r; next_ws := next_ws r; trace := trace r |}.

Definition set_aiHost (b : bool) (r : room) : room :=
  {| sessions := sessions r; lastTimestamp := lastTimestamp r; gs := gs r;
     pendingConfirmations := pendingConfirmations r; aiHost := b;
     store_messages := store_messages r; store_gameState := store_gameState r;
     timers := timers r; dead := dead r; next_ws := next_ws r; trace := trace r |}.

Definition set_store_messages (f : list (Z * omsg) → list (Z * omsg)) (r : room) : room :=
  {| sessions := sessions r; lastTimestamp := lastTimestamp r; gs := gs r;
     pendingConfirmations := pendingConfirmations r; aiHost := aiHost r;
     store_messages := f (store_messages r); store_gameState := store_gameState r;
     timers := timers r; dead := dead r; next_ws := next_ws r; trace := trace r |}.

Definition set_store_gameState (j : option json) (r : room) : room :=
  {| sessions := sessions r; lastTimestamp := lastTimestamp r; gs := gs r;
     pendingConfirmations := pendingConfirmations r; aiHost := aiHost r;
     store_messages := store_messages r; store_gameState := j;
     timers := timers r; dead := dead r; next_ws := next_ws r; trace := trace r |}.

Definition set_timers (f : list timer → list timer) (r : room) : room :=
  {| sessions := sessions r; lastTimestamp := lastTimestamp r; gs := gs r;
     pendingConfirmations := pendingConfirmations r; aiHost := aiHost r;
     store_messages := store_messages r; store_gameState := store_gameState r;
     timers := f (timers r); dead := dead r; next_ws := next_ws r; trace := trace r |}.

Definition set_dead (f : list ws → list ws) (r : room) : room :=
  {| sessions := sessions r; lastTimestamp := lastTimestamp r; gs := gs r;
     pendingConfirmations := pendingConfirmations r; aiHost := aiHost r;
     store_messages := store_messages r; store_gameState := store_gameState r;
     timers := timers r; dead := f (dead r); next_ws := next_ws r; trace := trace r |}.

Definition set_next_ws (w : ws) (r : room) : room :=
  {| sessions := sessions r; lastTimestamp := lastTimestamp r; gs := gs r;
     pendingConfirmations := pendingConfirmations r; aiHost := aiHost r;
     store_messages := store_messages r; store_gameState := store_gameState r;
     timers := timers r; dead := dead r; next_ws := w; trace := trace r |}.

Definition emit (es : list effect) (r : room) : room :=
  {| sessions := sessions r; lastTimestamp := lastTimestamp r; gs := gs r;
     pendingConfirmations := pendingConfirmations r; aiHost := aiHost r;
     store_messages := store_messages r; store_gameState := store_gameState r;
     timers := timers r; dead := dead r; next_ws := next_ws r;
     trace := trace r ++ es |}.

(** *** Handlers run on the room and may throw

    A handler is a function of the room that returns the room as it has
    left it and either a value or the fact that an exception escaped. *)

Inductive res (A : Type) := Ok (a : A) | Throw.
Arguments Ok {A} a.
Arguments Throw {A}.

Definition M (A : Type) : Type := room → res A * room.

Definition ret {A} (a : A) : M A := λ r, (Ok a, r).

Definition bind {A B} (m : M A) (k : A → M B) : M B := λ r,
  match m r with
  | (Ok a, r') => k a r'
  | (Throw, r') => (Throw, r')
  end.

Definition throw {A} : M A := λ r, (Throw, r).
Definition get : M room := λ r, (Ok r, r).
Definition modify (f : room → room) : M unit := λ r, (Ok tt, f r).

(** [try { m } catch (err) { h }]. *)
Definition try_catch {A} (m h : M A) : M A := λ r,
  match m r with
  | (Ok a, r') => (Ok a, r')
  | (Throw, r') => h r'
  end.

Notation "'let*' x ':=' m 'in' k" := (bind m (λ x, k))
  (at level 10, x name, m at level 100, k at level 200, only parsing).
Notation "m ';;' k" := (bind m (λ _, k))
  (at level 100, k at level 200, right associativity, only parsing).

(** [list.forEach(f)], stopping at the first exception. *)
Fixpoint forEach {A} (l : list A) (f : A → M unit) : M unit :=
  match l with
  | [] => ret tt
  | x :: l' => f x ;; forEach l' f
  end.

Definition run {A} (m : M A) (r : room) : room := snd (m r).

(** *** The session map *)

Fixpoint lookup_ws (w : ws) (l : list (ws * session)) : option session :=
  match l with
  | [] => None
  | (w', s) :: l' => if decide (w = w') then Some s else lookup_ws w l'
  end.

Fixpoint update_ws (w : ws) (f : session → session) (l : list (ws * session))
    : list (ws * session) :=
  match l with
  | [] => []
  | (w', s) :: l' =>
      if decide (w = w') then (w', f s) :: l' else (w', s) :: update_ws w f l'
  end.

Fixpoint delete_ws (w : ws) (l : list (ws * session)) : list (ws * session) :=
  match l with
  | [] => []
  | (w', s) :: l' => if decide (w = w') then l' else (w', s) :: delete_ws w l'
  end.

Definition with_name (n : string) (s : session) : session :=
  {| s_name := Some n; s_blockedMessages := s_blockedMessages s;
     s_inCooldown := s_inCooldown s; s_quit := s_quit s |}.

Definition with_blocked (q : option (list omsg)) (s : session) : session :=
  {| s_name := s_name s; s_blockedMessages := q;
     s_inCooldown := s_inCooldown s; s_quit := s_quit s |}.

Definition with_inCooldown (b : bool) (s : session) : session :=
  {| s_name := s_name s; s_blockedMessages := s_blockedMessages s;
     s_inCooldown := b; s_quit := s_quit s |}.

Definition with_quit (s : session) : session :=
  {| s_name := s_name s; s_blockedMessages := s_blockedMessages s;
     s_inCooldown := s_inCooldown s; s_quit := true |}.

(** [if (session.name)]: set and not the empty string. *)
Definition named (s : session) : bool :=
  match s_name s with
  | Some n => negb (String.eqb n "")
  | None => false
  end.

(** *** Sockets *)

Definition is_dead (w : ws) (r : room) : bool := bool_decide (w ∈ dead r).

(** [webSocket.send(m)] throws on a socket that is gone. *)
Definition send (w : ws) (m : omsg) : M unit := λ r,
  if is_dead w r then (Throw, r) else (Ok tt, emit [ESend w m] r).

(** [sendError(webSocket, message)] swallows the exception. *)
Definition sendError (w : ws) (message : string) : M unit := λ r,
  if is_dead w r then (Ok tt, r) else (Ok tt, emit [ESendError w message] r).

(** [webSocket.close(code, reason)]; later sends on it throw. *)
Definition close (w : ws) (code : Z) : M unit :=
  modify (λ r, set_dead (cons w) (emit [EClose w code] r)).

(** [sendErrorToSession(session, message)] looks the session up in the
    map, so says nothing when it is no longer there. *)
Definition sendErrorToSession (w : ws) (message : string) : M unit :=
  let* r := get in
  match lookup_ws w (sessions r) with
  | Some _ => sendError w message
  | None => ret tt
  end.

(** *** broadcast *)

(** One run of [this.sessions.forEach] in [broadcast]: whether it ran to
    the end, the session map afterwards, the quitters and the sends, in
    order.  An unnamed session whose queue is gone makes
    [session.blockedMessages.push] throw, which ends the loop. *)
Fixpoint broadcast_pass (dead : list ws) (message : omsg)
    (entries : list (ws * session))
    : bool * list (ws * session) * list session * list effect :=
  match entries with
  | [] => (true, [], [], [])
  | (w, s) :: rest =>
      if named s then
        let '(ok, kept, quitters, sent) := broadcast_pass dead message rest in
        if bool_decide (w ∈ dead)
        then (ok, kept, with_quit s :: quitters, sent)
        else (ok, (w, s) :: kept, quitters, ESend w message :: sent)
      else
        match s_blockedMessages s with
        | Some q =>
            let '(ok, kept, quitters, sent) := broadcast_pass dead message rest in
            (ok, (w, with_blocked (Some (q ++ [message])) s) :: kept, quitters, sent)
        | None => (false, entries, [], [])
        end
  end.

(** [broadcast(message)].  It calls itself for every quitter; [fuel]
    bounds the depth of these calls, and [broadcast_fuel] below shows that
    the number of sessions is enough for it. *)
Fixpoint broadcast_aux (fuel : nat) (message : omsg) : M unit := λ r,
  let '(ok, kept, quitters, sent) := broadcast_pass (dead r) message (sessions r) in
  let r := emit sent (set_sessions (λ _, kept) r) in
  if negb ok then (Throw, r)
  else
    match fuel with
    | 0 => (Ok tt, r)
    | S fuel =>
        forEach quitters (λ quitter,
          match s_name quitter with
          | Some n => if named quitter then broadcast_aux fuel (OQuit n) else ret tt
          | None => ret tt
          end) r
    end.

Definition broadcast (message : omsg) : M unit := λ r,
  broadcast_aux (length (sessions r)) message r.

(** *** Storage *)

(** [storage.put(key, value)] for a message: the log is kept in key
    order, and a key written twice keeps the later value. *)
Fixpoint put_message (key : Z) (m : omsg) (log : list (Z * omsg)) : list (Z * omsg) :=
  match log with
  | [] => [(key, m)]
  | (k, v) :: rest =>
      if (key <? k)%Z then (key, m) :: log
      else if (key =? k)%Z then (key, m) :: rest
      else (k, v) :: put_message key m rest
  end.

Definition storage_put (key : Z) (m : omsg) : M unit :=
  modify (λ r, emit [EPutMessage key m] (set_store_messages (put_message key m) r)).

(** [storage.list({reverse: true, limit: 100})], reversed back: the last
    100 values in key order.  The snapshot's key 'gameState' sorts after
    every ISO date, so it is the last entry when it exists. *)
Definition backlog (r : room) : list omsg :=
  let all := (snd <$> store_messages r) ++
             match store_gameState r with
             | Some j => [OStoredGameState j]
             | None => []
             end in
  drop (length all - 100) all.

(** *** The snapshot: saveGameState and restoreGameState *)

Definition json_of_name (o : option string) : json :=
  match o with Some n => JStr n | None => JNull end.

Definition json_of_names (l : list string) : json := JArr (JStr <$> l).

Definition json_of_puzzle (o : option puzzle) : json :=
  match o with Some p => JObj p | None => JNull end.

Definition json_of_score (sc : score) : json :=
  JObj [("totalScore", JNum (totalScore sc));
        ("questionCount", JNum (questionCount sc))].

(** [Array.from(this.userScores.entries())]. *)
Definition json_of_scores (m : gmap string score) : json :=
  JArr ((λ kv, JArr [JStr (fst kv); json_of_score (snd kv)]) <$> map_to_list m).

(** The object [saveGameState] stringifies. *)
Definition gameState_json (g : game) (Date_now : Z) : json :=
  JObj [("turtleSoupActive", JBool (turtleSoupActive g));
        ("turtleSoupParticipants", json_of_names (turtleSoupParticipants g));
        ("turtleSoupInitiator", json_of_name (turtleSoupInitiator g));
        ("currentTurnIndex", JNum (Z.of_nat (currentTurnIndex g)));
        ("currentPuzzle", json_of_puzzle (currentPuzzle g));
        ("aiHostActive", JBool (aiHostActive g));
        ("aiHostInitiator", json_of_name (aiHostInitiator g));
        ("aiHostParticipants", json_of_names (aiHostParticipants g));
        ("userScores", json_of_scores (userScores g));
        ("timestamp", JNum Date_now)].

(** [saveGameState]: storage errors are caught inside, so it never throws. *)
Definition saveGameState (Date_now : Z) : M unit :=
  modify (λ r,
    let j := gameState_json (gs r) Date_now in
    emit [EPutGameState j] (set_store_gameState (Some j) r)).

(** [state.key]: [None] is undefined. *)
Fixpoint assoc (k : string) (fields : list (string * json)) : option json :=
  match fields with
  | [] => None
  | (k', v) :: rest => if decide (k = k') then Some v else assoc k rest
  end.

Definition field (k : string) (state : json) : option json :=
  match state with
  | JObj fields => assoc k fields
  | _ => None
  end.

(** JavaScript truthiness of a JSON value. *)
Definition truthy (j : json) : bool :=
  match j with
  | JNull => false
  | JBool b => b
  | JNum n => negb (n =? 0)%Z
  | JStr s => negb (String.eqb s "")
  | JArr _ | JObj _ => true
  end.











Definition default_game : game := {|
  turtleSoupActive := false;
  turtleSoupParticipants := [];
  turtleSoupInitiator := None;
  currentTurnIndex := 0;
  currentPuzzle := None;
  aiHostActive := false;
  aiHostInitiator := None;
  aiHostParticipants := [];
  userScores := ∅
|}.




(** The room at its first activation, on an empty storage. *)
Definition fresh : room := {|
  sessions := [];
  lastTimestamp := 0;
  gs := default_game;
  pendingConfirmations := ∅;
  aiHost := false;
  store_messages := [];
  store_gameState := None;
  timers := [];
  dead := [];
  next_ws := 0;
  trace := []
|}.

(** *** Inbound messages and the answers of the surroundings *)

(** A parsed inbound message, with its fields at the types the client
    sends them at: names and texts are strings or missing, the tags and
    flags are read for their truthiness only. *)
Record inbound := {
  d_name : option string;
  d_requestGameState : bool;
  d_message : option string;
  d_turtleSoupMessage : bool;
  d_aiHostQuestion : bool;
  d_turtleSoupRequest : bool;
  d_turtleSoupConfirm : bool;
  d_turtleSoupTurnChange : bool;
  d_turtleSoupEnd : bool;
  d_turtleSoupPuzzleSelected : bool;
  d_aiHostRequest : bool;
  d_aiHostEnd : bool;
  d_initiator : string;
  d_user : string;
  d_confirmed : bool;
  d_turnIndex : nat;
  d_nextPlayer : option string;
  d_puzzleId : string
}.

(** What [this.aiHost.processQuestion], [checkIfSolved] and [endGame]
    come back with. *)
Inductive ai_result :=
| AIError (message : string)
| AISolved (endGame_ok : bool)
| AIReply (formattedMessage : string).

(** What the clock, the random generator, the puzzle manager and the AI
    host answer while one event is handled. *)
Record oracle := {
  Date_now : Z;
  random4 : nat;
  getPuzzleById : option puzzle;
  createAIHost_ok : bool;
  startGame_error : option string;
  processQuestion : ai_result
}.

(** *** The plain game's host reply, [generateAIResponse] *)

Record host_reply := { hr_answer : string; hr_score : Z; hr_quality : string }.

Definition includes (pat s : string) : bool :=
  match String.index 0 pat s with Some _ => true | None => false end.

Definition endsWith (suffix s : string) : bool :=
  (String.length suffix <=? String.length s) &&
  String.eqb (String.substring (String.length s - String.length suffix)
                               (String.length suffix) s) suffix.

(** The patterns hold no cased letters, so searching the question is
    searching its lower-case form. *)
Definition generateAIResponse (random4 : nat) (question : string) : host_reply :=
  let response := nth random4 ["是"; "不是"; "是也不是"; "没有关系"] "没有关系" in
  let '(score, quality) :=
    if includes "为什么" question || includes "怎么" question || includes "如何" question
    then (5 + 2, "很好")%Z
    else if includes "是否" question || includes "是不是" question
            || endsWith "吗？" question || endsWith "吗" question
    then (5 + 1, "不错")%Z
    else (5%Z, "一般") in
  let '(score, quality) :=
    if String.length question <? 5 then ((score - 1)%Z, "可以更详细")
    else (score, quality) in
  {| hr_answer := response;
     hr_score := Z.max 1 (Z.min 10 score);
     hr_quality := quality |}.

(** [`${response}（问题质量：${quality}，得分：${score}分）`]. *)
Definition formatted (a : host_reply) : string :=
  hr_answer a +:+ "（问题质量：" +:+ hr_quality a +:+ "，得分：" +:+
  pretty (hr_score a) +:+ "分）".

(** *** Game state updates *)

Definition with_turn (i : nat) (g : game) : game :=
  {| turtleSoupActive := turtleSoupActive g;
     turtleSoupParticipants := turtleSoupParticipants g;
     turtleSoupInitiator := turtleSoupInitiator g;
     currentTurnIndex := i;
     currentPuzzle := currentPuzzle g;
     aiHostActive := aiHostActive g;
     aiHostInitiator := aiHostInitiator g;
     aiHostParticipants := aiHostParticipants g;
     userScores := userScores g |}.

Definition with_scores (m : gmap string score) (g : game) : game :=
  {| turtleSoupActive := turtleSoupActive g;
     turtleSoupParticipants := turtleSoupParticipants g;
     turtleSoupInitiator := turtleSoupInitiator g;
     currentTurnIndex := currentTurnIndex g;
     currentPuzzle := currentPuzzle g;
     aiHostActive := aiHostActive g;
     aiHostInitiator := aiHostInitiator g;
     aiHostParticipants := aiHostParticipants g;
     userScores := m |}.

(** The assignments at the head of [startTurtleSoup] and [endTurtleSoup]. *)
Definition with_soup (active : bool) (initiator : option string)
    (participants : list string) (m : gmap string score) (g : game) : game :=
  {| turtleSoupActive := active;
     turtleSoupParticipants := participants;
     turtleSoupInitiator := initiator;
     currentTurnIndex := 0;
     currentPuzzle := currentPuzzle g;
     aiHostActive := aiHostActive g;
     aiHostInitiator := aiHostInitiator g;
     aiHostParticipants := aiHostParticipants g;
     userScores := m |}.

(** The AI host fields. *)
Definition with_aiHost (active : bool) (initiator : option string)
    (participants : list string) (g : game) : game :=
  {| turtleSoupActive := turtleSoupActive g;
     turtleSoupParticipants := turtleSoupParticipants g;
     turtleSoupInitiator := turtleSoupInitiator g;
     currentTurnIndex := currentTurnIndex g;
     currentPuzzle := currentPuzzle g;
     aiHostActive := active;
     aiHostInitiator := initiator;
     aiHostParticipants := participants;
     userScores := userScores g |}.

Definition with_puzzle (p : option puzzle) (g : game) : game :=
  {| turtleSoupActive := turtleSoupActive g;
     turtleSoupParticipants := turtleSoupParticipants g;
     turtleSoupInitiator := turtleSoupInitiator g;
     currentTurnIndex := currentTurnIndex g;
     currentPuzzle := p;
     aiHostActive := aiHostActive g;
     aiHostInitiator := aiHostInitiator g;
     aiHostParticipants := aiHostParticipants g;
     userScores := userScores g |}.

Definition zero_score : score := {| totalScore := 0; questionCount := 0 |}.

(** [updateUserScore(userName, score)]. *)
Definition updateUserScore (userName : string) (points : Z)
    (m : gmap string score) : gmap string score :=
  let m := match m !! userName with
           | Some _ => m
           | None => <[userName := zero_score]> m
           end in
  alter (λ sc, {| totalScore := (totalScore sc + points)%Z;
                  questionCount := (questionCount sc + 1)%Z |}) userName m.

(** The names of the sessions that have one, in map order. *)
Definition online_names (l : list (ws * session)) : list string :=
  omap (λ ws_s, if named (snd ws_s) then s_name (snd ws_s) else None) l.

(** [Array.from(new Set(names))]: first occurrences, in order. *)
Fixpoint dedup (seen : list string) (l : list string) : list string :=
  match l with
  | [] => []
  | x :: l' =>
      if bool_decide (x ∈ seen) then dedup seen l' else x :: dedup (x :: seen) l'
  end.

Definition push_timer (t : timer) : M unit := modify (set_timers (λ ts, ts ++ [t])).

(** *** AI host mode *)

(** [endAIHostMode].  The host object stays; its session is cleaned up. *)
Definition endAIHostMode (now : Z) : M unit :=
  modify (set_gs (with_aiHost false None [])) ;;
  saveGameState now ;;
  broadcast OAIHostEnd.

(** [processAIHostQuestion(userId, question)]. *)
Definition processAIHostQuestion (userId question : string) (o : oracle) : M unit :=
  try_catch
    (let* r := get in
     if negb (aiHost r) then throw
     else
       match processQuestion o with
       | AIError message => broadcast (OError message)
       | AISolved endGame_ok =>
           (if endGame_ok then broadcast OAIGameSolved else ret tt) ;;
           endAIHostMode (Date_now o)
       | AIReply formattedMessage =>
           broadcast (OAIResponse userId question formattedMessage)
       end)
    (broadcast (OError "处理问题时发生内部错误，请重试")).

(** [if (!this.aiHost) this.aiHost = createAIHost(this.env)]. *)
Definition ensureAIHost (o : oracle) : M unit :=
  let* r := get in
  if aiHost r then ret tt
  else if createAIHost_ok o then modify (set_aiHost true)
  else throw.

(** [handleAIHostRequest(session, data)]. *)
Definition handleAIHostRequest (w : ws) (name : string) (o : oracle) : M unit :=
  let* r := get in
  if aiHostActive (gs r) then sendErrorToSession w "AI主持模式已经在进行中"
  else if turtleSoupActive (gs r)
  then sendErrorToSession w "海龟汤模式正在进行中，请先结束"
  else
    try_catch
      (ensureAIHost o ;;
       match startGame_error o with
       | Some errorMessage =>
           sendErrorToSession w ("启动AI主持模式失败: " +:+ errorMessage)
       | None =>
           let* r := get in
           let participants := online_names (sessions r) in
           modify (set_gs (with_aiHost true (Some name) participants)) ;;
           broadcast (OAIHostStart name participants)
       end)
      (sendErrorToSession w "启动AI主持模式时发生错误").

(** [handleAIHostEnd(session, data)]. *)
Definition handleAIHostEnd (w : ws) (name : string) (o : oracle) : M unit :=
  let* r := get in
  if negb (aiHostActive (gs r)) then sendErrorToSession w "当前不在AI主持模式"
  else if bool_decide (Some name ≠ aiHostInitiator (gs r))
  then sendErrorToSession w "只有发起人可以结束游戏"
  else endAIHostMode (Date_now o).

(** *** The turtle soup game *)

(** [handleTurtleSoupRequest(session, data)]. *)
Definition handleTurtleSoupRequest (w : ws) (data : inbound) : M unit :=
  let* r := get in
  if turtleSoupActive (gs r) then sendErrorToSession w "海龟汤已经进行中"
  else
    match pendingConfirmations r !! d_initiator data with
    | Some _ => ret tt
    | None =>
        let onlineUsers := dedup [] (online_names (sessions r)) in
        let actualParticipants := onlineUsers in
        modify (set_pending (insert (d_initiator data)
                  {| confirmedUsers := ∅; originalParticipants := actualParticipants |})) ;;
        broadcast (ORequest (d_initiator data) actualParticipants) ;;
        push_timer (TConfirmTimeout (d_initiator data))
    end.

(** [startTurtleSoup(initiator, participants)]. *)
Definition startTurtleSoup (initiator : string) (participants : list string)
    (now : Z) : M unit :=
  modify (set_gs (with_soup true (Some initiator) participants
            (foldl (λ m participant, <[participant := zero_score]> m) ∅ participants))) ;;
  saveGameState now ;;
  broadcast (OStart initiator participants).

(** [handleTurtleSoupConfirmation(session, data)]. *)
Definition handleTurtleSoupConfirmation (data : inbound) (now : Z) : M unit :=
  let* r := get in
  match pendingConfirmations r !! d_initiator data with
  | None => ret tt
  | Some confirmationData =>
      let confirmed := confirmedUsers confirmationData in
      let original := originalParticipants confirmationData in
      if negb (d_confirmed data) then
        modify (set_pending (delete (d_initiator data))) ;;
        broadcast (OConfirm (d_initiator data) false (d_user data))
      else if bool_decide (d_user data ∈ confirmed) then ret tt
      else
        let confirmed := {[ d_user data ]} ∪ confirmed in
        modify (set_pending (insert (d_initiator data)
                  {| confirmedUsers := confirmed; originalParticipants := original |})) ;;
        broadcast (OConfirm (d_initiator data) true (d_user data)) ;;
        let requiredConfirmations :=
          filter (λ user, user ≠ d_initiator data) original in
        if bool_decide (size confirmed = length requiredConfirmations) then
          startTurtleSoup (d_initiator data) original now ;;
          modify (set_pending (delete (d_initiator data)))
        else ret tt
  end.

(** [handleTurtleSoupTurnChange(session, data)]. *)
Definition handleTurtleSoupTurnChange (name : string) (data : inbound) : M unit :=
  let* r := get in
  if negb (turtleSoupActive (gs r)) || bool_decide (Some name ≠ turtleSoupInitiator (gs r))
  then ret tt
  else
    modify (set_gs (with_turn (d_turnIndex data))) ;;
    broadcast (OTurnChange (d_turnIndex data) (d_nextPlayer data) None).

(** [endTurtleSoup]. *)
Definition endTurtleSoup (now : Z) : M unit :=
  modify (set_gs (with_soup false None [] ∅)) ;;
  let* r := get in
  (if aiHostActive (gs r) then endAIHostMode now else ret tt) ;;
  saveGameState now ;;
  broadcast OEnd.

(** [handleTurtleSoupEnd(session, data)]. *)
Definition handleTurtleSoupEnd (name : string) (now : Z) : M unit :=
  let* r := get in
  if negb (turtleSoupActive (gs r)) || bool_decide (Some name ≠ turtleSoupInitiator (gs r))
  then ret tt
  else endTurtleSoup now.

(** [handleTurtleSoupPuzzleSelected(session, data)]. *)
Definition handleTurtleSoupPuzzleSelected (w : ws) (name : string)
    (data : inbound) (o : oracle) : M unit :=
  let* r := get in
  if negb (turtleSoupActive (gs r)) || bool_decide (Some name ≠ turtleSoupInitiator (gs r))
  then sendErrorToSession w "只有海龟汤发起人可以选择题目"
  else
    match getPuzzleById o with
    | None => sendErrorToSession w "题目加载失败"
    | Some puzzle =>
        try_catch
          (ensureAIHost o ;;
           match startGame_error o with
           | Some errorMessage =>
               sendErrorToSession w ("启动AI主持模式失败: " +:+ errorMessage)
           | None =>
               let* r := get in
               let participants := turtleSoupParticipants (gs r) in
               modify (set_gs (λ g, with_puzzle (Some puzzle)
                         (with_aiHost true (Some (d_initiator data)) participants g))) ;;
               saveGameState (Date_now o) ;;
               broadcast (OPuzzleStart (d_initiator data) participants puzzle)
           end)
          (sendErrorToSession w "启动AI主持模式时发生错误")
    end.

(** The turn advance of [handleTurtleSoupMessage] and
    [handleTurtleSoupAIMessage]. *)
Definition advance_turn (g : game) : game :=
  with_turn ((currentTurnIndex g + 1) mod length (turtleSoupParticipants g)) g.

(** [handleTurtleSoupMessage(session, messageData)]; [scheduleAIResponse]
    is the timer it leaves behind. *)
Definition handleTurtleSoupMessage (name message : string) (o : oracle) : M unit :=
  let* r := get in
  let currentPlayer := turtleSoupParticipants (gs r) !! currentTurnIndex (gs r) in
  if bool_decide (currentPlayer ≠ Some name) then ret tt
  else
    let aiResponse := generateAIResponse (random4 o) message in
    modify (set_gs (λ g, with_scores
              (updateUserScore name (hr_score aiResponse) (userScores g)) g)) ;;
    modify (set_gs advance_turn) ;;
    push_timer (THostReply (formatted aiResponse)).

(** [handleTurtleSoupAIMessage(session, messageData)]. *)
Definition handleTurtleSoupAIMessage (name message : string) (o : oracle) : M unit :=
  let* r := get in
  let currentPlayer := turtleSoupParticipants (gs r) !! currentTurnIndex (gs r) in
  if bool_decide (currentPlayer ≠ Some name) then ret tt
  else
    processAIHostQuestion name message o ;;
    modify (set_gs advance_turn) ;;
    push_timer TTurnChangeAI.

(** The timer callbacks. *)
Definition fire (t : timer) (now : Z) : M unit :=
  match t with
  | TConfirmTimeout initiator =>
      let* r := get in
      match pendingConfirmations r !! initiator with
      | Some _ =>
          modify (set_pending (delete initiator)) ;;
          broadcast (OError "海龟汤发起超时")
      | None => ret tt
      end
  | THostReply formatted =>
      let* r := get in
      broadcast (OHostReply formatted (Z.max now (lastTimestamp r + 1))) ;;
      let* r := get in
      modify (set_lastTimestamp (Z.max now (lastTimestamp r + 1))) ;;
      push_timer TTurnChange
  | TTurnChange =>
      let* r := get in
      broadcast (OTurnChange (currentTurnIndex (gs r))
                   (turtleSoupParticipants (gs r) !! currentTurnIndex (gs r))
                   (Some (userScores (gs r))))
  | TTurnChangeAI =>
      saveGameState now ;;
      let* r := get in
      broadcast (OTurnChange (currentTurnIndex (gs r))
                   (turtleSoupParticipants (gs r) !! currentTurnIndex (gs r))
                   None)
  end.

(** *** Sessions: connect, user setup, dispatch *)

Definition new_session : session :=
  {| s_name := None; s_blockedMessages := Some []; s_inCooldown := false;
     s_quit := false |}.

(** [handleSession(webSocket, ip)] on a new socket: the session is added
    with the roster and the backlog queued. *)
Definition handleSession (r : room) : room :=
  let webSocket := next_ws r in
  let roster := OJoined <$> online_names (sessions r) in
  let session := with_blocked (Some (roster ++ backlog r)) new_session in
  set_next_ws (S webSocket) (set_sessions (λ l, l ++ [(webSocket, session)]) r).

(** [session.limiter.checkLimit()].  The call of the limiter it starts
    ends with [inCooldown = false], see [LimiterDone]. *)
Definition checkLimit (w : ws) : M bool :=
  let* r := get in
  match lookup_ws w (sessions r) with
  | Some session =>
      if s_inCooldown session then ret false
      else modify (set_sessions (update_ws w (with_inCooldown true))) ;; ret true
  | None => ret false
  end.

(** [data.name || 'anonymous']. *)
Definition name_or_anonymous (name : option string) : string :=
  match name with
  | Some n => if String.eqb n "" then "anonymous" else n
  | None => "anonymous"
  end.

(** [handleUserSetup(webSocket, session, data)]. *)
Definition handleUserSetup (w : ws) (data : inbound) : M unit :=
  let userName := Utils.safeString (Some (name_or_anonymous (d_name data))) 32 "" in
  if 32 <? String.length userName then
    sendError w "Name too long" ;;
    close w 1009
  else
    modify (set_sessions (update_ws w (with_name userName))) ;;
    modify (emit [EAttachName w userName]) ;;
    let* r := get in
    match lookup_ws w (sessions r) ≫= s_blockedMessages with
    | None => throw
    | Some queue =>
        forEach queue (send w) ;;
        modify (set_sessions (update_ws w (with_blocked None))) ;;
        broadcast (OJoined userName) ;;
        let* r := get in
        let g := gs r in
        (if d_requestGameState data && (turtleSoupActive g || aiHostActive g)
         then send w (OGameStateSync (turtleSoupActive g) (turtleSoupParticipants g)
                        (turtleSoupInitiator g) (currentTurnIndex g) (aiHostActive g)
                        (aiHostInitiator g) (aiHostParticipants g) (currentPuzzle g))
         else ret tt) ;;
        send w OReady
    end.

(** [handleSpecialMessages(session, data)]: the first handler whose tag is
    set, in the order of the table. *)
Definition handleSpecialMessages (w : ws) (name : string) (data : inbound)
    (o : oracle) : M bool :=
  if d_turtleSoupRequest data then handleTurtleSoupRequest w data ;; ret true
  else if d_turtleSoupConfirm data
  then handleTurtleSoupConfirmation data (Date_now o) ;; ret true
  else if d_turtleSoupTurnChange data then handleTurtleSoupTurnChange name data ;; ret true
  else if d_turtleSoupEnd data then handleTurtleSoupEnd name (Date_now o) ;; ret true
  else if d_turtleSoupPuzzleSelected data
  then handleTurtleSoupPuzzleSelected w name data o ;; ret true
  else if d_aiHostRequest data then handleAIHostRequest w name o ;; ret true
  else if d_aiHostEnd data then handleAIHostEnd w name o ;; ret true
  else ret false.

(** [handleChatMessage(webSocket, session, data)]. *)
Definition handleChatMessage (w : ws) (name : string) (data : inbound)
    (o : oracle) : M unit :=
  let message := Utils.safeString (d_message data) 256 "" in
  if 256 <? String.length message then sendError w "Message too long"
  else
    let* r := get in
    let timestamp := Z.max (Date_now o) (lastTimestamp r + 1) in
    let turtleSoupMessage := d_turtleSoupMessage data in
    let aiHostQuestion := d_aiHostQuestion data in
    modify (set_lastTimestamp timestamp) ;;
    let g := gs r in
    if turtleSoupMessage && aiHostQuestion && turtleSoupActive g && aiHostActive g
    then handleTurtleSoupAIMessage name message o
    else if aiHostActive g && negb turtleSoupMessage
    then processAIHostQuestion name message o
    else
      (if turtleSoupMessage && turtleSoupActive g && negb (aiHostActive g)
       then handleTurtleSoupMessage name message o
       else ret tt) ;;
      let messageData := OChat name message timestamp turtleSoupMessage aiHostQuestion in
      broadcast messageData ;;
      storage_put timestamp messageData.

(** [webSocketMessage(webSocket, msg)]; [data] is [safeJsonParse(msg)],
    [None] when it is not truthy. *)
Definition webSocketMessage (w : ws) (data : option inbound) (o : oracle) : M unit :=
  try_catch
    (let* r := get in
     match lookup_ws w (sessions r) with
     | None => close w 1011
     | Some session =>
         if s_quit session then close w 1011
         else
           let* allowed := checkLimit w in
           if negb allowed
           then sendError w "Your IP is being rate-limited, please try again later."
           else
             match data with
             | None => sendError w "Invalid message format"
             | Some data =>
                 match s_name session with
                 | Some name =>
                     if named session then
                       let* handled := handleSpecialMessages w name data o in
                       if handled then ret tt else handleChatMessage w name data o
                     else handleUserSetup w data
                 | None => handleUserSetup w data
                 end
             end
     end)
    (sendError w "Internal server error").

(** [closeOrErrorHandler(webSocket)]. *)
Definition closeOrErrorHandler (w : ws) : M unit :=
  let* r := get in
  let session := lookup_ws w (sessions r) in
  modify (set_sessions (delete_ws w)) ;;
  match session with
  | Some s =>
      match s_name s with
      | Some n => if named s then broadcast (OQuit n) else ret tt
      | None => ret tt
      end
  | None => ret tt
  end.

(** *** Events *)

Inductive event :=
| Connect                                   (* a socket is accepted *)
| Message (w : ws) (data : option inbound) (o : oracle)
| CloseOrError (w : ws)                     (* webSocketClose, webSocketError *)
| Fire (n : nat) (now : Z)                  (* the n-th pending timer runs *)
| LimiterDone (w : ws)                      (* callLimiter is done waiting *)
| Break (w : ws).                           (* the peer is gone *)

Definition step (r : room) (e : event) : room :=
  match e with
  | Connect => handleSession r
  | Message w data o => run (webSocketMessage w data o) r
  | CloseOrError w => run (closeOrErrorHandler w) r
  | Fire n now =>
      match timers r !! n with
      | Some t => run (fire t now) (set_timers (delete n) r)
      | None => r
      end
  | LimiterDone w => set_sessions (update_ws w (with_inCooldown false)) r
  | Break w => set_dead (cons w) r
  end.

Definition steps (es : list event) (r : room) : room := foldl step r es.

(** The rooms that events can lead to. *)
Definition reachable (r : room) : Prop := ∃ es, r = steps es fresh.

(** *** Predicates on rooms and handlers *)

(** [w] has had its name attached in [tr]. *)
Definition attached (w : ws) (tr : list effect) : Prop :=
  ∃ n, EAttachName w n ∈ tr.

(** Every send in [tr] goes to a socket whose name was attached earlier. *)
Definition handshake_first (tr : list effect) : Prop :=
  ∀ pre w m post, tr = pre ++ ESend w m :: post → attached w pre.

(** Sessions without a name still have their queue. *)
Definition queues_ok (l : list (ws * session)) : Prop :=
  ∀ w s, (w, s) ∈ l → named s = false → is_Some (s_blockedMessages s).

(** Sessions with a name have had it attached. *)
Definition attached_ok (r : room) : Prop :=
  ∀ w s, (w, s) ∈ sessions r → named s = true → attached w (trace r).

(** Every socket is in the map once, and was handed out by the room. *)
Definition keys_ok (r : room) : Prop :=
  NoDup (sessions r).*1 ∧ ∀ w, w ∈ (sessions r).*1 → w < next_ws r.

Definition Inv (r : room) : Prop :=
  handshake_first (trace r) ∧ attached_ok r ∧ queues_ok (sessions r) ∧ keys_ok r.

(** [Inv], and [w] has its name attached and is named if it is in the map:
    what holds in handleUserSetup once the name is in place. *)
Definition welcomed (w : ws) (r : room) : Prop :=
  Inv r ∧ attached w (trace r) ∧ ∀ s, (w, s) ∈ sessions r → named s = true.


(** A handler started in a room with [P] leaves a room with [Q], whether
    it returns or throws. *)
Definition tri {A} (P : room → Prop) (m : M A) (Q : room → Prop) : Prop :=
  ∀ r, P r → Q (snd (m r)).

(** Everything in the room but the sessions and the trace. *)
Definition backstage (r : room) :=
  (lastTimestamp r, gs r, pendingConfirmations r, aiHost r,
   store_messages r, store_gameState r, timers r, dead r, next_ws r).

(** [r'] comes from [r] by sending to named sessions, queueing for
    unnamed ones and dropping sessions, nothing else. *)
Definition evolves (r r' : room) : Prop :=
  backstage r' = backstage r ∧
  (sessions r').*1 `sublist_of` (sessions r).*1 ∧
  (∀ w s', (w, s') ∈ sessions r' →
     ∃ s, (w, s) ∈ sessions r ∧ named s' = named s ∧
          (is_Some (s_blockedMessages s) → is_Some (s_blockedMessages s'))) ∧
  ∃ es, trace r' = trace r ++ es ∧
        ∀ e, e ∈ es → ∃ w s m, e = ESend w m ∧ (w, s) ∈ sessions r ∧ named s = true.





(** *** Inbound messages as the client writes them *)

(** [{name: n}] *)
Definition say_name (n : string) : inbound := {|
  d_name := Some n; d_requestGameState := false; d_message := None;
  d_turtleSoupMessage := false; d_aiHostQuestion := false;
  d_turtleSoupRequest := false; d_turtleSoupConfirm := false;
  d_turtleSoupTurnChange := false; d_turtleSoupEnd := false;
  d_turtleSoupPuzzleSelected := false; d_aiHostRequest := false;
  d_aiHostEnd := false; d_initiator := ""; d_user := ""; d_confirmed := false;
  d_turnIndex := 0; d_nextPlayer := None; d_puzzleId := ""
|}.

(** [{turtleSoupRequest: true, initiator: i}] *)
Definition say_request (i : string) : inbound := {|
  d_name := None; d_requestGameState := false; d_message := None;
  d_turtleSoupMessage := false; d_aiHostQuestion := false;
  d_turtleSoupRequest := true; d_turtleSoupConfirm := false;
  d_turtleSoupTurnChange := false; d_turtleSoupEnd := false;
  d_turtleSoupPuzzleSelected := false; d_aiHostRequest := false;
  d_aiHostEnd := false; d_initiator := i; d_user := ""; d_confirmed := false;
  d_turnIndex := 0; d_nextPlayer := None; d_puzzleId := ""
|}.

(** [{turtleSoupConfirm: true, initiator: i, confirmed: c, user: u}] *)
Definition say_confirm (i u : string) (c : bool) : inbound := {|
  d_name := None; d_requestGameState := false; d_message := None;
  d_turtleSoupMessage := false; d_aiHostQuestion := false;
  d_turtleSoupRequest := false; d_turtleSoupConfirm := true;
  d_turtleSoupTurnChange := false; d_turtleSoupEnd := false;
  d_turtleSoupPuzzleSelected := false; d_aiHostRequest := false;
  d_aiHostEnd := false; d_initiator := i; d_user := u; d_confirmed := c;
  d_turnIndex := 0; d_nextPlayer := None; d_puzzleId := ""
|}.

(** [{message: m, turtleSoupMessage: true, turnComplete: true}] *)
Definition say_turn (m : string) : inbound := {|
  d_name := None; d_requestGameState := false; d_message := Some m;
  d_turtleSoupMessage := true; d_aiHostQuestion := false;
  d_turtleSoupRequest := false; d_turtleSoupConfirm := false;
  d_turtleSoupTurnChange := false; d_turtleSoupEnd := false;
  d_turtleSoupPuzzleSelected := false; d_aiHostRequest := false;
  d_aiHostEnd := false; d_initiator := ""; d_user := ""; d_confirmed := false;
  d_turnIndex := 0; d_nextPlayer := None; d_puzzleId := ""
|}.

(** The surroundings at time [now], with nothing else to answer. *)
Definition at_time (now : Z) : oracle := {|
  Date_now := now; random4 := 0; getPuzzleById := None;
  createAIHost_ok := true; startGame_error := None;
  processQuestion := AIError ""
|}.

(** Two users connect and give their names; the first asks for a game and
    the second accepts. *)
Definition two_players_active : list event :=
  [ Connect; Connect;
    Message 0 (Some (say_name "alice")) (at_time 1000);
    Message 1 (Some (say_name "bob")) (at_time 1001);
    LimiterDone 0; LimiterDone 1;
    Message 0 (Some (say_request "alice")) (at_time 1002);
    Message 1 (Some (say_confirm "alice" "bob" true)) (at_time 1003);
    LimiterDone 0; LimiterDone 1 ].

(** [bob] writes a turn text although it is [alice]'s turn. *)
Definition bob_out_of_turn : event :=
  Message 1 (Some (say_turn "hello")) (at_time 1004).

(** [alice], whose turn it is, writes a turn text; then the two timers of
    [scheduleAIResponse] run (the confirmation timer is still pending at
    position 0). *)
Definition alice_takes_her_turn : list event :=
  [ Message 0 (Some (say_turn "hello")) (at_time 1004);
    Fire 1 2004; Fire 1 2504 ].

(** A name of 33 characters. *)
Definition long_name : string := "aaaaaaaaaabbbbbbbbbbccccccccccddd".


(** [{turtleSoupTurnChange: true, turnIndex: n}] *)
Definition say_turn_index (n : nat) : inbound := {|
  d_name := None; d_requestGameState := false; d_message := None;
  d_turtleSoupMessage := false; d_aiHostQuestion := false;
  d_turtleSoupRequest := false; d_turtleSoupConfirm := false;
  d_turtleSoupTurnChange := true; d_turtleSoupEnd := false;
  d_turtleSoupPuzzleSelected := false; d_aiHostRequest := false;
  d_aiHostEnd := false; d_initiator := ""; d_user := ""; d_confirmed := false;
  d_turnIndex := n; d_nextPlayer := None; d_puzzleId := ""
|}.

(** [{turtleSoupPuzzleSelected: true, initiator: i, puzzleId: p}] *)
Definition say_puzzle (i p : string) : inbound := {|
  d_name := None; d_requestGameState := false; d_message := None;
  d_turtleSoupMessage := false; d_aiHostQuestion := false;
  d_turtleSoupRequest := false; d_turtleSoupConfirm := false;
  d_turtleSoupTurnChange := false; d_turtleSoupEnd := false;
  d_turtleSoupPuzzleSelected := true; d_aiHostRequest := false;
  d_aiHostEnd := false; d_initiator := i; d_user := ""; d_confirmed := false;
  d_turnIndex := 0; d_nextPlayer := None; d_puzzleId := p
|}.

(** [{message: m, turtleSoupMessage: true, aiHostQuestion: true,
      turnComplete: true}] *)
Definition say_question (m : string) : inbound := {|
  d_name := None; d_requestGameState := false; d_message := Some m;
  d_turtleSoupMessage := true; d_aiHostQuestion := true;
  d_turtleSoupRequest := false; d_turtleSoupConfirm := false;
  d_turtleSoupTurnChange := false; d_turtleSoupEnd := false;
  d_turtleSoupPuzzleSelected := false; d_aiHostRequest := false;
  d_aiHostEnd := false; d_initiator := ""; d_user := ""; d_confirmed := false;
  d_turnIndex := 0; d_nextPlayer := None; d_puzzleId := ""
|}.

(** The surroundings at time [now] when the puzzle is found and the AI
    host answers. *)
Definition puzzle_at (now : Z) : oracle := {|
  Date_now := now; random4 := 0;
  getPuzzleById := Some [("id", JStr "p1"); ("title", JStr "t")];
  createAIHost_ok := true; startGame_error := None;
  processQuestion := AIReply "no"
|}.

(** The game of [two_players_active], with a puzzle selected by its
    initiator: the AI host is attached. *)
Definition two_players_with_ai_host : list event :=
  two_players_active ++
  [ Message 0 (Some (say_puzzle "alice" "p1")) (puzzle_at 1004); LimiterDone 0 ].



(** *** Predicates of the properties *)

(** A property of every session of the map. *)
Definition every_session (P : ws → session → Prop) (r : room) : Prop :=
  ∀ w s, (w, s) ∈ sessions r → P w s.

(** A property of a part of the room. *)
Definition viewed {B} (view : room → B) (Φ : B → Prop) (r : room) : Prop :=
  Φ (view r).



(** The score table has the participants as its keys, and its entries are
    within the range of the plain game's scoring. *)
Definition scores_ok (g : game) : Prop :=
  (∀ n, is_Some (userScores g !! n) ↔ n ∈ turtleSoupParticipants g) ∧
  ∀ n sc, userScores g !! n = Some sc →
    (0 ≤ questionCount sc)%Z ∧
    (4 * questionCount sc ≤ totalScore sc ≤ 7 * questionCount sc)%Z.

(** [{turtleSoupEnd: true}] *)
Definition say_end : inbound := {|
  d_name := None; d_requestGameState := false; d_message := None;
  d_turtleSoupMessage := false; d_aiHostQuestion := false;
  d_turtleSoupRequest := false; d_turtleSoupConfirm := false;
  d_turtleSoupTurnChange := false; d_turtleSoupEnd := true;
  d_turtleSoupPuzzleSelected := false; d_aiHostRequest := false;
  d_aiHostEnd := false; d_initiator := ""; d_user := ""; d_confirmed := false;
  d_turnIndex := 0; d_nextPlayer := None; d_puzzleId := ""
|}.




(** [{aiHostRequest: true}] and [{aiHostEnd: true}] *)
Definition say_host_request : inbound := {|
  d_name := None; d_requestGameState := false; d_message := None;
  d_turtleSoupMessage := false; d_aiHostQuestion := false;
  d_turtleSoupRequest := false; d_turtleSoupConfirm := false;
  d_turtleSoupTurnChange := false; d_turtleSoupEnd := false;
  d_turtleSoupPuzzleSelected := false; d_aiHostRequest := true;
  d_aiHostEnd := false; d_initiator := ""; d_user := ""; d_confirmed := false;
  d_turnIndex := 0; d_nextPlayer := None; d_puzzleId := ""
|}.

Definition say_host_end : inbound := {|
  d_name := None; d_requestGameState := false; d_message := None;
  d_turtleSoupMessage := false; d_aiHostQuestion := false;
  d_turtleSoupRequest := false; d_turtleSoupConfirm := false;
  d_turtleSoupTurnChange := false; d_turtleSoupEnd := false;
  d_turtleSoupPuzzleSelected := false; d_aiHostRequest := false;
  d_aiHostEnd := true; d_initiator := ""; d_user := ""; d_confirmed := false;
  d_turnIndex := 0; d_nextPlayer := None; d_puzzleId := ""
|}.

(** A user connects, gives a name and starts the AI host mode. *)
Definition host_mode_on : list event :=
  [ Connect;
    Message 0 (Some (say_name "alice")) (at_time 1000);
    LimiterDone 0;
    Message 0 (Some say_host_request) (at_time 1001);
    LimiterDone 0 ].

End Room.


(* ===================================================================== *)
(** ** lib/puzzle-manager.mjs *)

Module PuzzleManager.

(** A field that should hold an array of strings: [Absent] when the
    object has no such field ([undefined]), [Items] for an array, and
    [NotAnArray] for a truthy value of another type, which has none of an
    array's methods. *)
Inductive array_field := Absent | Items (l : list string) | NotAnArray.

(** A puzzle object.  The text fields are strings; one that is missing is
    the empty string here, which is as little truthy as [undefined]. *)
Record puzzle := {
  id : string;
  title : string;
  difficulty : string;
  category : string;
  tags : array_field;
  surface : string;
  truth : string;
  keywords : array_field;
  hints : array_field
}.

(** [puzzlesData.puzzles], the puzzles a new manager starts with. *)
Definition puzzlesData : list puzzle := [
  {| id := "classic_003";
     title := "镜子碎了";
     difficulty := "简单";
     category := "经典";
     tags := Items ["职业"; "意外"; "生活"];
     surface := "一个女人在家里看到镜子碎了，然后就自杀了。为什么？";
     truth := "她是一个杂技演员，靠走钢丝为生。她在家练习时用镜子来观察自己的动作。镜子碎了意味着她看不到自己的动作，在演出中可能会失足死亡。她选择自杀而不是面对这种危险。";
     keywords := Items ["杂技"; "钢丝"; "练习"; "镜子"; "职业"; "危险"];
     hints := Items [
      "镜子对她的职业非常重要";
      "她的工作需要精确的身体控制";
      "没有镜子她无法安全工作";
      "她的职业有生命危险"] |};
  {| id := "classic_004";
     title := "电话亭";
     difficulty := "中等";
     category := "经典";
     tags := Items ["身份"; "秘密"; "恐惧"];
     surface := "一个男人在深夜使用电话亭打电话，突然看到一个人向他走来，他立刻挂掉电话逃跑了。为什么？";
     truth := "这个男人是个逃犯，他在使用电话亭时看到了警察向他走来。他意识到自己可能被发现了，所以立刻逃跑。";
     keywords := Items ["逃犯"; "警察"; "身份"; "追捕"; "恐惧"; "逃跑"];
     hints := Items [
      "男人有不可告人的秘密";
      "走来的人代表某种威胁";
      "他的身份不能被发现";
      "这是一种本能的恐惧反应"] |};
  {| id := "classic_005";
     title := "雨夜归家";
     difficulty := "困难";
     category := "经典";
     tags := Items ["家庭"; "背叛"; "发现"];
     surface := "一个男人雨夜回家，用钥匙开门进入，发现客厅的灯是亮着的，但是他立刻转身离开了。为什么？";
     truth := "男人出差回来，按约定如果妻子一个人在家，客厅应该关灯。灯亮着说明家里有其他人。他意识到妻子可能在外遇，选择离开避免尴尬的confrontation。";
     keywords := Items ["出差"; "约定"; "外遇"; "信号"; "背叛"; "发现"];
     hints := Items [
      "他和家人之间有某种约定";
      "灯的状态传达了一个信息";
      "这个信息让他意识到了什么";
      "他选择避免面对某种情况"] |};
  {| id := "modern_001";
     title := "电梯惊魂";
     difficulty := "中等";
     category := "现代";
     tags := Items ["心理"; "恐惧"; "错觉"];
     surface := "一个女人坐电梯到20楼，但在18楼突然按了紧急停止按钮冲出电梯。为什么？";
     truth := "她发现电梯里只有她一个人，但是按钮面板上20楼的按钮是亮着的，说明有人按过。她意识到可能有人躲在电梯里，或者有其他异常情况，出于恐惧选择逃离。";
     keywords := Items ["电梯"; "按钮"; "一个人"; "异常"; "恐惧"; "逃离"];
     hints := Items [
      "电梯里的某个细节很不正常";
      "她发现了矛盾的现象";
      "这让她感到恐惧";
      "她选择立即离开"] |};
  {| id := "modern_002";
     title := "网购惊魂";
     difficulty := "困难";
     category := "现代";
     tags := Items ["网络"; "隐私"; "跟踪"];
     surface := "一个男人收到一个包裹，打开后立刻报警。包裹里装的是一本普通的书。为什么？";
     truth := "这本书是他昨天在网上浏览但没有购买的，而且包裹上的地址精确到了他的具体房间号，这说明有人在跟踪他的网络行为和实际位置，这是一种威胁和警告。";
     keywords := Items ["网购"; "浏览记录"; "跟踪"; "隐私"; "威胁"; "警告"];
     hints := Items [
      "他从来没有买过这本书";
      "但这本书跟他有某种联系";
      "包裹的信息透露了什么";
      "这代表一种威胁"] |};
  {| id := "suspense_001";
     title := "午夜来电";
     difficulty := "中等";
     category := "悬疑";
     tags := Items ["时间"; "家庭"; "异常"];
     surface := "一个女人深夜接到丈夫的电话，丈夫说他在加班，但她立刻知道丈夫在撒谎。为什么？";
     truth := "电话里传来了钟声，是整点报时的钟声。但她知道丈夫的办公室里没有这样的钟，而且那个钟声她很熟悉——那是她娘家的钟声。说明丈夫在她娘家，可能和她的姐妹有不正当关系。";
     keywords := Items ["钟声"; "办公室"; "娘家"; "背景音"; "撒谎"; "外遇"];
     hints := Items [
      "电话里有特殊的背景音";
      "这个声音她很熟悉";
      "她知道丈夫办公室的情况";
      "背景音暴露了真实位置"] |}
].

(** What a call returns or that it throws a [TypeError]. *)
Inductive outcome (A : Type) := Returns (a : A) | TypeError.
Arguments Returns {A} a.
Arguments TypeError {A}.

(** [getPuzzleById(puzzleId)] on [this.puzzles]; the copy it returns has
    the fields of the puzzle found. *)
Definition getPuzzleById (puzzleId : string) (puzzles : list puzzle) : option puzzle :=
  List.find (λ p, String.eqb (id p) puzzleId) puzzles.

(** The filters of [getRandomPuzzle]: a text filter that is not set is the
    empty string and a list filter that is not set the empty list, which
    the source treats like [undefined]. *)
Record filters := {
  f_difficulty : string;
  f_category : string;
  f_tags : list string;
  f_excludeIds : list string
}.

(** [array.filter(f)] and [array.some(f)] with a callback that can
    throw ([None]). *)
Fixpoint filter_with {A} (f : A → option bool) (l : list A) : option (list A) :=
  match l with
  | [] => Some []
  | x :: l =>
      match f x with
      | None => None
      | Some b =>
          match filter_with f l with
          | None => None
          | Some l' => Some (if b then x :: l' else l')
          end
      end
  end.

Fixpoint some_with {A} (f : A → option bool) (l : list A) : option bool :=
  match l with
  | [] => Some false
  | x :: l =>
      match f x with
      | None => None
      | Some true => Some true
      | Some false => some_with f l
      end
  end.

(** [p.tags.includes(tag)]. *)
Definition includes (field : array_field) (tag : string) : option bool :=
  match field with
  | Items l => Some (bool_decide (tag ∈ l))
  | Absent | NotAnArray => None
  end.

(** [getRandomPuzzle(filters)]; [random] is what [Math.random()] returns. *)
Definition getRandomPuzzle (fs : filters) (random : Q) (puzzles : list puzzle)
    : outcome (option puzzle) :=
  let filteredPuzzles := puzzles in
  let filteredPuzzles :=
    if decide (f_difficulty fs = "") then filteredPuzzles
    else List.filter (λ p, String.eqb (difficulty p) (f_difficulty fs)) filteredPuzzles in
  let filteredPuzzles :=
    if decide (f_category fs = "") then filteredPuzzles
    else List.filter (λ p, String.eqb (category p) (f_category fs)) filteredPuzzles in
  match
    if (0 <? length (f_tags fs))%nat
    then filter_with (λ p, some_with (includes (tags p)) (f_tags fs)) filteredPuzzles
    else Some filteredPuzzles
  with
  | None => TypeError
  | Some filteredPuzzles =>
      let filteredPuzzles :=
        if (0 <? length (f_excludeIds fs))%nat
        then List.filter (λ p, negb (bool_decide (id p ∈ f_excludeIds fs))) filteredPuzzles
        else filteredPuzzles in
      if (length filteredPuzzles =? 0)%nat then Returns None
      else
        let randomIndex := Qfloor (random * inject_Z (Z.of_nat (length filteredPuzzles))) in
        match (if randomIndex <? 0 then None else filteredPuzzles !! Z.to_nat randomIndex) with
        | Some selectedPuzzle => Returns (Some selectedPuzzle)
        | None => TypeError
        end
  end.

(** [validatePuzzle(puzzle)]: the errors it collects. *)
Definition validatePuzzle (p : puzzle) : list string :=
  flat_map (λ field : string * string,
              if decide (field.2 = "") then ["Missing required field: " +:+ field.1] else [])
    [("id", id p); ("title", title p); ("surface", surface p); ("truth", truth p);
     ("difficulty", difficulty p); ("category", category p)] ++
  (match keywords p with NotAnArray => ["keywords must be an array"] | _ => [] end) ++
  (match tags p with NotAnArray => ["tags must be an array"] | _ => [] end) ++
  (match hints p with NotAnArray => ["hints must be an array"] | _ => [] end) ++
  (if decide (difficulty p = "") then []
   else if bool_decide (difficulty p ∈ ["简单"; "中等"; "困难"]) then []
   else ["Invalid difficulty: " +:+ difficulty p]).

(** [addPuzzle(puzzle)]: what it returns and [this.puzzles] afterwards. *)
Definition addPuzzle (p : puzzle) (puzzles : list puzzle) : bool * list puzzle :=
  if negb (bool_decide (validatePuzzle p = [])) then (false, puzzles)
  else
    match List.find (λ q, String.eqb (id q) (id p)) puzzles with
    | Some _ => (false, puzzles)
    | None => (true, puzzles ++ [p])
    end.

(** A puzzle passes the filters. *)
Definition passes (fs : filters) (p : puzzle) : Prop :=
  (f_difficulty fs = "" ∨ difficulty p = f_difficulty fs) ∧
  (f_category fs = "" ∨ category p = f_category fs) ∧
  (f_tags fs = [] ∨ ∃ l tag, tags p = Items l ∧ tag ∈ f_tags fs ∧ tag ∈ l) ∧
  id p ∉ f_excludeIds fs.

(** A new manager after some calls of [addPuzzle]. *)
Definition added (ps : list puzzle) : list puzzle :=
  fold_left (λ puzzles p, snd (addPuzzle p puzzles)) ps puzzlesData.

End PuzzleManager.

(* ===================================================================== *)
(** ** lib/ai-host.mjs: the check of the puzzle *)

Module AIHostPuzzle.
Import PuzzleManager.

(** The host's own [validatePuzzle(puzzle)]: the errors it collects. *)
Definition validatePuzzle (p : puzzle) : list string :=
  flat_map (λ field : string * string,
              if decide (field.2 = "") then ["缺少必需字段: " +:+ field.1] else [])
    [("id", id p); ("title", title p); ("surface", surface p); ("truth", truth p)] ++
  (match keywords p with NotAnArray => ["keywords 必须是数组"] | _ => [] end) ++
  (match hints p with NotAnArray => ["hints 必须是数组"] | _ => [] end).

End AIHostPuzzle.

(* ===================================================================== *)
(** ** lib/ai-host.mjs: hints and the solved test; lib/prompt-manager.mjs *)

Module AIHostSession.
Import AIHost.

(** [generateAutoHint()]; [hints] is [puzzle.hints], [None] when the
    puzzle has none.  The result is [None] for [undefined]. *)
Definition generateAutoHint (hints : option (list string)) (s : session)
    : option string :=
  match hints with
  | None | Some [] => Some "注意观察细节，从不同角度思考"
  | Some hints =>
      let hintIndex := Z.min (hintsGiven s) (Z.of_nat (length hints) - 1) in
      if hintIndex <? 0 then None else hints !! Z.to_nat hintIndex
  end.

(** prompt-manager.mjs, [getProgressThresholds().solution_ready]. *)
Definition solution_ready : Z := 95.

(** [checkIfSolved(response)]. *)
Definition checkIfSolved (r : response) : bool := solution_ready <=? r_progress r.

(** [calculateEfficiency()]. *)
Definition calculateEfficiency (s : session) : Q :=
  if questionCount s =? 0 then 0%Q
  else
    let progressPerQuestion := (inject_Z (progress s) / inject_Z (questionCount s))%Q in
    let scoreEfficiency := (inject_Z (totalScore s) / inject_Z (questionCount s))%Q in
    (inject_Z (Math_round ((progressPerQuestion * (6 # 10) + scoreEfficiency * 4) * 10))
     / 10)%Q.

(** What the counters of a session are like after [n] calls. *)
Definition counters_ok (cfg : config) (n : Z) (s : session) : Prop :=
  0 <= questionCount s <= Z.max 0 (maxQuestionsPerRound cfg) ∧
  questionCount s <= n ∧
  0 <= hintsGiven s <= questionCount s ∧
  0 <= progress s <= 15 * questionCount s ∧
  progress s <= 100.

End AIHostSession.

Module PromptManager.
Import AIHost.

(** A response object as [PromptManager.validateResponse] looks at it:
    [None] is a missing field or one of another type. *)
Record candidate := {
  c_answer : option string;
  c_score : option Q;
  c_feedback : option string;
  c_progress : option Q
}.

(** [validateResponse(response)]: the errors it collects. *)
Definition validateResponse (response : candidate) : list string :=
  (match c_answer response with
   | None => ["Missing answer field"]
   | Some a =>
       if decide (a = "") then ["Missing answer field"]
       else if bool_decide (a ∈ ["是"; "不是"; "没有关系"]) then []
       else ["Invalid answer: " +:+ a]
   end) ++
  (match c_score response with
   | Some s => if in_range 1 10 s then [] else ["Score must be a number between 1 and 10"]
   | None => ["Score must be a number between 1 and 10"]
   end) ++
  (match c_feedback response with
   | Some f => if decide (f = "") then ["Feedback must be a non-empty string"] else []
   | None => ["Feedback must be a non-empty string"]
   end) ++
  (match c_progress response with
   | Some g => if in_range 0 100 g then []
               else ["Progress must be a number between 0 and 100"]
   | None => ["Progress must be a number between 0 and 100"]
   end).





End PromptManager.

(* ===================================================================== *)
(** ** lib/llm-client.mjs: retries and the mock mode *)

Module LLMClient.
Import AIHost.

(** The error of a failed attempt: [HttpStatus] for a response that is not
    ok, which carries [error.status]; [NoStatus] for a request that did
    not come back, ran into the timeout or had a body that is no JSON. *)
Inductive error := HttpStatus (status : Z) | NoStatus.

(** What the request of one attempt comes to. *)
Inductive reply (A : Type) := Data (data : A) | Fails (e : error).
Arguments Data {A} data.
Arguments Fails {A} e.

(** [makeRequestWithRetry] returns the data or throws [lastError], which
    is [null] ([None]) before the first failure. *)
Inductive outcome (A : Type) := Returns (data : A) | Throws (lastError : option error).
Arguments Returns {A} data.
Arguments Throws {A} lastError.

(** What the client does meanwhile. *)
Inductive event := Fetch (attempt : Z) | Sleep (ms : Z).

(** [error.status && error.status >= 400 && error.status < 500]. *)
Definition isClientError (e : error) : bool :=
  match e with
  | HttpStatus status => negb (status =? 0) && (400 <=? status) && (status <? 500)
  | NoStatus => false
  end.

Section Retry.
Context {A : Type}.
(** The reply to the request of each attempt, and [this.maxRetries] and
    [this.retryDelay], whole numbers. *)
Variable server : Z → reply A.
Variables maxRetries retryDelay : Z.

(** The loop of [makeRequestWithRetry(url, options)] from [attempt] on,
    for the [remaining] values of [attempt] up to [maxRetries]. *)
Fixpoint attempts (remaining : nat) (attempt : Z) (lastError : option error)
    : outcome A * list event :=
  match remaining with
  | O => (Throws lastError, [])
  | S remaining =>
      match server attempt with
      | Data data => (Returns data, [Fetch attempt])
      | Fails e =>
          if isClientError e then (Throws (Some e), [Fetch attempt])
          else if attempt =? maxRetries then (Throws (Some e), [Fetch attempt])
          else
            let delay := retryDelay * 2 ^ (attempt - 1) in
            let '(result, events) := attempts remaining (attempt + 1) (Some e) in
            (result, Fetch attempt :: Sleep delay :: events)
      end
  end.

Definition makeRequestWithRetry : outcome A * list event :=
  attempts (Z.to_nat maxRetries) 1 None.

End Retry.

(** The time slept in all. *)
Definition slept (events : list event) : Z :=
  foldr (λ e total, match e with Sleep ms => ms + total | Fetch _ => total end) 0 events.

(** The requests and the sleeps of [count] failed attempts, from the
    attempt [first] on. *)
Definition back_off (retryDelay : Z) (first count : Z) : list event :=
  flat_map (λ j, [Fetch j; Sleep (retryDelay * 2 ^ (j - 1))]) (seqZ first count).

(** [s.includes(part)] and [s.endsWith(suffix)] on strings. *)
Definition includes (s part : string) : bool :=
  match String.index 0 part s with Some _ => true | None => false end.

Definition endsWith (s suffix : string) : bool :=
  (String.length suffix <=? String.length s)%nat &&
  String.eqb (String.substring (String.length s - String.length suffix)
                (String.length suffix) s) suffix.

(** What the calls of [Math.random()] in [generateIntelligentResponse]
    return, in their order. *)
Record draws := {
  answer_draw : Q;
  progress_draw : Q;
  score_draw : Q;
  hint_draw : Q;
  hint_index_draw : Q
}.

(** [array[Math.floor(x)]]. *)
Definition at_floor {A} (array : list A) (x : Q) : option A :=
  if Qfloor x <? 0 then None else array !! Z.to_nat (Qfloor x).

Section Mock.
Variable toLowerCase : string → string.

(** [generateIntelligentResponse(question)]: the object it returns, as
    [validateResponse] reads it. *)
Definition generateIntelligentResponse (d : draws) (question : string) : parsed :=
  let answers := [Yes; No; Unrelated] in
  let answer := at_floor answers (answer_draw d * 3) in
  let score := 5 in
  let feedback := "一般的问题" in
  let progress := Qfloor (progress_draw d * 30) + 10 in
  let questionLower := toLowerCase question in
  let '(score, feedback, progress) :=
    if includes questionLower "为什么" || includes questionLower "怎么"
       || includes questionLower "如何"
    then (Qfloor (score_draw d * 2) + 8, "很好的问题，直击核心！", progress + 15)
    else if includes questionLower "是否" || includes questionLower "是不是"
            || endsWith question "吗？" || endsWith question "吗"
    then (Qfloor (score_draw d * 2) + 6, "不错的尝试，方向正确", progress + 10)
    else if (String.length question <? 5)%nat
    then (Qfloor (score_draw d * 2) + 2, "问题太简单，需要更详细", progress + 5)
    else if includes questionLower "死" || includes questionLower "杀"
            || includes questionLower "凶手"
    then (Qfloor (score_draw d * 2) + 7, "接近真相了！", progress + 12)
    else (score, feedback, progress) in
  let progress := Z.min 85 (Z.max 5 progress) in
  let hint :=
    if (60 <? progress) && negb (Qle_bool (3 # 10) (hint_draw d))
    then at_floor ["注意关键人物的职业"; "思考物品的特殊用途"; "考虑时间和地点的关系";
                   "关注细节中的矛盾"; "从心理角度分析动机"] (hint_index_draw d * 5)
    else None in
  {| p_answer := answer;
     p_score := Some (inject_Z score);
     p_feedback := Some feedback;
     p_progress := Some (inject_Z progress);
     p_hint := hint |}.

End Mock.

End LLMClient.

(* ===================================================================== *)
(** ** config/ai-config.mjs *)

Module AIConfig.
Import Utils.

(** The values of the settings. *)
Inductive value := VNumber (n : number) | VBoolean (b : bool) | VString (s : string).

(** A configuration is an object of objects, [gmap string (gmap string
    value)].  A path [a.b], split at its dot, is the pair of [a] and [b]. *)
Definition path := (string * string)%type.

Definition num (q : Q) : value := VNumber (Finite q).

Definition DEFAULT_AI_CONFIG : gmap string (gmap string value) :=
  list_to_map [
    ("llm", list_to_map [
       ("apiUrl", VString ""); ("model", VString "gpt-4"); ("maxTokens", num 1000);
       ("temperature", num (7 # 10)); ("timeout", num 30000); ("maxRetries", num 3);
       ("retryDelay", num 1000)]);
    ("game", list_to_map [
       ("maxQuestionsPerRound", num 50); ("hintFrequency", num 5);
       ("autoHintThreshold", num 20); ("minScoreForHint", num 5);
       ("progressBoostOnGoodQuestion", num 5); ("maxGameDuration", num 1800)]);
    ("scoring", list_to_map [
       ("baseScore", num 1); ("maxScore", num 10); ("progressWeight", num (3 # 10));
       ("creativityBonus", num 2); ("repetitionPenalty", num (-1))]);
    ("progress", list_to_map [
       ("keywordMatchBonus", num 10); ("directQuestionBonus", num 15);
       ("logicalDeductionBonus", num 12); ("wrongDirectionPenalty", num (-5));
       ("hintUsagePenalty", num (-2))]);
    ("response", list_to_map [
       ("enableEmoji", VBoolean true); ("enableEncouragement", VBoolean true);
       ("enableProgress", VBoolean true); ("enableScoring", VBoolean true);
       ("maxFeedbackLength", num 50); ("maxHintLength", num 30)])].

Definition ENV_CONFIG_MAP : list (string * path) := [
  ("LLM_API_URL", ("llm", "apiUrl"));
  ("LLM_API_KEY", ("llm", "apiKey"));
  ("LLM_MODEL", ("llm", "model"));
  ("LLM_MAX_TOKENS", ("llm", "maxTokens"));
  ("LLM_TEMPERATURE", ("llm", "temperature"));
  ("LLM_TIMEOUT", ("llm", "timeout"));
  ("LLM_MAX_RETRIES", ("llm", "maxRetries"));
  ("GAME_MAX_QUESTIONS", ("game", "maxQuestionsPerRound"));
  ("GAME_HINT_FREQUENCY", ("game", "hintFrequency"));
  ("GAME_AUTO_HINT_THRESHOLD", ("game", "autoHintThreshold"));
  ("GAME_MAX_DURATION", ("game", "maxGameDuration"));
  ("SCORING_MAX_SCORE", ("scoring", "maxScore"));
  ("SCORING_PROGRESS_WEIGHT", ("scoring", "progressWeight"));
  ("SCORING_CREATIVITY_BONUS", ("scoring", "creativityBonus"));
  ("RESPONSE_ENABLE_EMOJI", ("response", "enableEmoji"));
  ("RESPONSE_ENABLE_ENCOURAGEMENT", ("response", "enableEncouragement"));
  ("RESPONSE_MAX_FEEDBACK_LENGTH", ("response", "maxFeedbackLength"));
  ("RESPONSE_MAX_HINT_LENGTH", ("response", "maxHintLength"))].

Inductive config_type := number_type | boolean_type | string_type.

(** [getConfigType(path)]. *)
Definition getConfigType (p : path) : config_type :=
  let numberPaths := [
    ("llm", "maxTokens"); ("llm", "temperature"); ("llm", "timeout"); ("llm", "maxRetries");
    ("game", "maxQuestionsPerRound"); ("game", "hintFrequency");
    ("game", "autoHintThreshold"); ("game", "maxGameDuration"); ("scoring", "maxScore");
    ("scoring", "progressWeight"); ("scoring", "creativityBonus");
    ("response", "maxFeedbackLength"); ("response", "maxHintLength")] in
  let booleanPaths := [
    ("response", "enableEmoji"); ("response", "enableEncouragement");
    ("response", "enableProgress"); ("response", "enableScoring")] in
  if bool_decide (p ∈ numberPaths) then number_type
  else if bool_decide (p ∈ booleanPaths) then boolean_type
  else string_type.

(** [setNestedProperty(obj, path, value)]. *)
Definition setNestedProperty (obj : gmap string (gmap string value)) (p : path)
    (v : value) : gmap string (gmap string value) :=
  let current := default ∅ (obj !! p.1) in
  <[p.1 := <[p.2 := v]> current]> obj.

(** [config.a?.b]. *)
Definition get (obj : gmap string (gmap string value)) (p : path) : option value :=
  obj !! p.1 ≫= λ current, current !! p.2.

Section Build.
(** [Number(value)] and [value.toLowerCase()] of a string. *)
Variable Number : string → number.
Variable toLowerCase : string → string.

(** [parseConfigValue(value, type)]; [None] is [undefined]. *)
Definition parseConfigValue (v : string) (type : config_type) : option value :=
  if decide (v = "") then None
  else
    match type with
    | number_type => let n := Number v in if isNaN n then None else Some (VNumber n)
    | boolean_type => Some (VBoolean (String.eqb (toLowerCase v) "true"))
    | string_type => Some (VString v)
    end.

(** The body of the loop over [ENV_CONFIG_MAP] in [buildAIConfig]. *)
Definition apply_entry (env : gmap string string)
    (config : gmap string (gmap string value)) (entry : string * path)
    : gmap string (gmap string value) :=
  let '(envKey, configPath) := entry in
  match env !! envKey with
  | None => config
  | Some envValue =>
      match parseConfigValue envValue (getConfigType configPath) with
      | Some parsedValue => setNestedProperty config configPath parsedValue
      | None => config
      end
  end.

(** [buildAIConfig(env)]; the variables of the environment are strings. *)
Definition buildAIConfig (env : gmap string string) : gmap string (gmap string value) :=
  let config := DEFAULT_AI_CONFIG in
  let config := fold_left (apply_entry env) ENV_CONFIG_MAP config in
  match env !! "LLM_API_KEY" with
  | Some key =>
      if decide (key = "") then config
      else setNestedProperty config ("llm", "apiKey") (VString key)
  | None => config
  end.

(** A value as a number, for a comparison. *)
Definition ToNumber (v : value) : number :=
  match v with
  | VNumber n => n
  | VBoolean b => Finite (if b then 1 else 0)
  | VString s => Number s
  end.

Definition truthy (v : option value) : bool :=
  match v with
  | None => false
  | Some (VNumber NaN) => false
  | Some (VNumber (Finite q)) => negb (Qeq_bool q 0)
  | Some (VNumber _) => true
  | Some (VBoolean b) => b
  | Some (VString s) => negb (String.eqb s "")
  end.

(** [a < b] on numbers. *)
Definition less (a b : number) : bool :=
  match a, b with
  | NaN, _ | _, NaN => false
  | _, NegInfinity | Infinity, _ => false
  | NegInfinity, _ | _, Infinity => true
  | Finite p, Finite q => negb (Qle_bool q p)
  end.

Definition below (v : option value) (q : Q) : bool :=
  match v with Some v => less (ToNumber v) (Finite q) | None => false end.

Definition above (v : option value) (q : Q) : bool :=
  match v with Some v => less (Finite q) (ToNumber v) | None => false end.

(** [v !== 10]. *)
Definition is_not (v : option value) (q : Q) : bool :=
  match v with
  | Some (VNumber (Finite p)) => negb (Qeq_bool p q)
  | _ => true
  end.

Record validation := { errors : list string; warnings : list string }.

(** [validateAIConfig(config)]. *)
Definition validateAIConfig (config : gmap string (gmap string value)) : validation := {|
  errors :=
    (if negb (truthy (get config ("llm", "apiUrl"))) then ["LLM API URL is required"] else [])
    ++ (if negb (truthy (get config ("llm", "model"))) then ["LLM model is required"] else []);
  warnings :=
    (if negb (truthy (get config ("llm", "apiKey"))) then ["LLM API key is not set"] else [])
    ++ (if truthy (get config ("llm", "maxTokens"))
           && (below (get config ("llm", "maxTokens")) 100
               || above (get config ("llm", "maxTokens")) 4000)
        then ["LLM max tokens should be between 100 and 4000"] else [])
    ++ (if truthy (get config ("llm", "temperature"))
           && (below (get config ("llm", "temperature")) 0
               || above (get config ("llm", "temperature")) 2)
        then ["LLM temperature should be between 0 and 2"] else [])
    ++ (if truthy (get config ("game", "maxQuestionsPerRound"))
           && below (get config ("game", "maxQuestionsPerRound")) 10
        then ["Max questions per round seems too low"] else [])
    ++ (if truthy (get config ("scoring", "maxScore"))
           && is_not (get config ("scoring", "maxScore")) 10
        then ["Max score is recommended to be 10"] else [])
|}.

(** The value of a variable of the environment as [buildAIConfig] reads
    it for the setting at [p]. *)
Definition from_env (env : gmap string string) (envKey : string) (p : path)
    : option value :=
  env !! envKey ≫= λ envValue, parseConfigValue envValue (getConfigType p).

End Build.

End AIConfig.

(* ===================================================================== *)
(** ** chat.mjs: the routes of the worker and of the room *)

Module Worker.

(** [s.split('/')] and [pieces.join('/')]. *)
Fixpoint split (s : string) : list string :=
  match s with
  | EmptyString => [EmptyString]
  | String c rest =>
      if Ascii.eqb c "/"%char then EmptyString :: split rest
      else
        match split rest with
        | piece :: pieces => String c piece :: pieces
        | [] => [String c EmptyString]
        end
  end.

Fixpoint join (pieces : list string) : string :=
  match pieces with
  | [] => EmptyString
  | [piece] => piece
  | piece :: pieces => piece +:+ String "/"%char (join pieces)
  end.

(** [s.slice(1)]. *)
Definition slice1 (s : string) : string :=
  match s with EmptyString => EmptyString | String _ rest => rest end.

(** [name.match(/^[0-9a-f]{64}$/)]. *)
Definition is_hex_digit (c : ascii) : bool :=
  let n := nat_of_ascii c in
  ((48 <=? n) && (n <=? 57) || (97 <=? n) && (n <=? 102))%nat.

Fixpoint all_hex (s : string) : bool :=
  match s with
  | EmptyString => true
  | String c rest => is_hex_digit c && all_hex rest
  end.

Definition is_id (name : string) : bool :=
  (String.length name =? 64)%nat && all_hex name.

(** The parts of a request the routes look at. *)
Record request := {
  method : string;
  pathname : string;
  Upgrade : option string;
  CF_Connecting_IP : option string
}.

(** The id of a room: [idFromString(name)] or [idFromName(name)]. *)
Inductive room_id := idFromString (name : string) | idFromName (name : string).

(** What comes back: a response with its status and body; the page; the
    new id of a private room; the response to a failed call, which is a
    socket that sends the error and closes for a WebSocket request and
    the status 500 otherwise; and the socket of a session that the room
    [id] has accepted. *)
Inductive response :=
  | Response (status : Z) (body : string)
  | Page
  | NewUniqueId
  | Failed (inSocket : bool)
  | Session (id : room_id) (ip : option string).

(** [handleErrors(request, func)] for a [func] that has thrown. *)
Definition handleErrors (r : request) : response :=
  Failed (bool_decide (Upgrade r = Some "websocket")).

(** [ChatRoom.fetch(request)] of the room [id], for the path it is called
    with. *)
Definition ChatRoom_fetch (id : room_id) (newPathname : string) (r : request)
    : response :=
  if String.eqb newPathname "/websocket" then
    if negb (bool_decide (Upgrade r = Some "websocket"))
    then Response 400 "expected websocket"
    else Session id (CF_Connecting_IP r)
  else Response 404 "Not found".

Section Routes.
(** Whether [env.rooms.idFromString] takes the name, which it does not
    when this is no id of the namespace; it throws then. *)
Variable valid_id : string → bool.

(** [handleApiRequest(path, request, env)]. *)
Definition handleApiRequest (path : list string) (r : request) : response :=
  match path with
  | "room" :: path1 =>
      match path1 with
      | [] | EmptyString :: _ =>
          if String.eqb (method r) "POST" then NewUniqueId
          else Response 405 "Method not allowed"
      | name :: path2 =>
          match
            if is_id name then Some (idFromString name)
            else if (String.length name <=? 32)%nat then Some (idFromName name)
            else None
          with
          | None => Response 404 "Name too long"
          | Some id =>
              if is_id name && negb (valid_id name) then handleErrors r
              else ChatRoom_fetch id (String "/"%char (join path2)) r
          end
      end
  | _ => Response 404 "Not found"
  end.

(** The worker's [fetch(request, env)]. *)
Definition fetch (r : request) : response :=
  let path := split (slice1 (pathname r)) in
  match path with
  | [] | EmptyString :: _ => Page
  | "api" :: path => handleApiRequest path r
  | _ => Response 404 "Not found"
  end.

End Routes.

(** No slash in a string. *)
Fixpoint no_slash (s : string) : bool :=
  match s with
  | EmptyString => true
  | String c rest => negb (Ascii.eqb c "/"%char) && no_slash rest
  end.

End Worker.

(* ===================================================================== *)
(** * Properties *)

(** ** The AI host's progress *)

Module AIHostFacts.
Import AIHost.
Local Open Scope Z_scope.

Lemma smoothProgress_range p n : 0 <= smoothProgress p n <= 100.
Proof. unfold smoothProgress. lia. Qed.

Lemma smoothProgress_step p n :
  0 <= p <= 100 -> -10 <= smoothProgress p n - p <= 15.
Proof. unfold smoothProgress. lia. Qed.

Lemma applyGameLogic_progress cfg s f r :
  ∃ n, r_progress (applyGameLogic cfg s f r) = smoothProgress (progress s) n.
Proof.
  unfold applyGameLogic.
  destruct (isDuplicate f); simpl; eexists; reflexivity.
Qed.

(** Whatever the model answered, the response's progress is within reach
    of the session's. *)
Lemma processAIResponse_progress cfg s f l :
  0 <= progress s <= 100 ->
  0 <= r_progress (processAIResponse cfg s f l) <= 100 ∧
  -10 <= r_progress (processAIResponse cfg s f l) - progress s <= 15.
Proof.
  intros Hs. destruct l as [p|]; simpl.
  - destruct (applyGameLogic_progress cfg s f (validateResponse p)) as [n ->].
    split; [apply smoothProgress_range | by apply smoothProgress_step].
  - lia.
Qed.

Lemma validateGameState_progress cfg s q :
  progress (snd (validateGameState cfg s q)) = progress s.
Proof.
  unfold validateGameState.
  repeat case_match; reflexivity.
Qed.

Lemma processQuestion_progress cfg s q :
  0 <= progress s <= 100 ->
  0 <= progress (snd (processQuestion cfg s q)) <= 100 ∧
  -10 <= progress (snd (processQuestion cfg s q)) - progress s <= 15.
Proof.
  intros Hs. unfold processQuestion.
  destruct (q_valid q); simpl; [|lia].
  pose proof (validateGameState_progress cfg s q) as Hv.
  destruct (validateGameState cfg s q) as [ok s1]; simpl in Hv.
  destruct ok; simpl; [|lia].
  rewrite <- Hv in *.
  apply processAIResponse_progress. lia.
Qed.

Lemma fold_progress_range cfg qs s :
  0 <= progress s <= 100 ->
  0 <= progress (fold_left (λ s q, snd (processQuestion cfg s q)) qs s) <= 100.
Proof.
  revert s. induction qs as [|q qs IH]; intros s Hs; simpl; [done|].
  apply IH. by apply processQuestion_progress.
Qed.

Lemma play_progress_range cfg qs : 0 <= progress (play cfg qs) <= 100.
Proof. apply fold_progress_range. simpl. lia. Qed.

(** C10.  In a game of the AI host, after any questions already asked, one
    more call of processQuestion leaves the session's progress between 0
    and 100 and moves it by at most 15 up and at most 10 down, whatever
    the language model replied (or if it failed); the progress in the
    response that is sent to the clients is the progress stored. *)
Theorem progress_moves_within_bounds (cfg : config) (qs : list question) (q : question) :
  let before := play cfg qs in
  let after := snd (processQuestion cfg before q) in
  0 <= progress after <= 100 ∧
  -10 <= progress after - progress before <= 15 ∧
  (∀ r, fst (processQuestion cfg before q) = Some r → r_progress r = progress after).
Proof.
  intros before after.
  pose proof (play_progress_range cfg qs) as Hb.
  destruct (processQuestion_progress cfg before q Hb) as [H1 H2].
  split; [exact H1|]. split; [exact H2|].
  intros r. subst after. unfold processQuestion.
  destruct (q_valid q); simpl; [|done].
  destruct (validateGameState cfg before q) as [ok s1].
  destruct ok; simpl; [|done].
  intros [= <-]. reflexivity.
Qed.

Lemma progress_moves_within_bounds_witness :
  r_progress (processAIResponse DEFAULT_AI_CONFIG createGameSession
                (q_facts eager_reply) (q_llm eager_reply)) =
  progress (snd (processQuestion DEFAULT_AI_CONFIG (play DEFAULT_AI_CONFIG [])
                   eager_reply)).
Proof.
  refine (proj2 (proj2 (progress_moves_within_bounds DEFAULT_AI_CONFIG [] eager_reply))
            _ _).
  reflexivity.
Defined.

(** The model says 90, the first question moves the progress to 15. *)
Example eager_reply_is_smoothed :
  progress (snd (processQuestion DEFAULT_AI_CONFIG (play DEFAULT_AI_CONFIG [])
                   eager_reply)) = 15.
Proof. reflexivity. Qed.

End AIHostFacts.

(** ** The rate limiter *)

Module RateLimiterFacts.
Import RateLimiter.
Local Open Scope Q_scope.

Lemma fetch_raises m t n : n <= fst (fetch m t n).
Proof.
  unfold fetch. simpl.
  pose proof (Q.le_max_r (inject_Z t / 1000) n) as H.
  destruct m; simpl; [exact H|].
  eapply Qle_trans; [exact H|].
  rewrite <- (Qplus_0_r (Qmax _ _)) at 1.
  apply Qplus_le_r. discriminate.
Qed.

Lemma history_lower_bound calls n x : x ∈ history calls n → n <= x.
Proof.
  revert n. induction calls as [|[m t] calls IH]; intros n; simpl.
  - intros ->%list_elem_of_singleton. apply Qle_refl.
  - intros [->|Hx]%elem_of_cons; [apply Qle_refl|].
    eapply Qle_trans; [apply (fetch_raises m t)|]. by apply IH.
Qed.

Lemma history_monotone calls n (i j : nat) a b :
  (i <= j)%nat → history calls n !! i = Some a → history calls n !! j = Some b →
  a <= b.
Proof.
  revert n i j. induction calls as [|[m t] calls IH]; intros n i j Hij Hi Hj.
  - destruct i, j; simpl in *; try done.
    injection Hi as <-. injection Hj as <-. apply Qle_refl.
  - destruct i as [|i]; simpl in Hi.
    + injection Hi as <-. apply (history_lower_bound ((m, t) :: calls)).
      eapply list_elem_of_lookup_2. exact Hj.
    + destruct j as [|j]; [lia|]. simpl in Hj.
      eapply (IH _ i j); [lia|exact Hi|exact Hj].
Qed.

(** C6.  A POST to the rate limiter at time now (Date.now() / 1000) first
    raises nextAllowedTime to at least now, then adds exactly 1 to it, and
    replies max(0, nextAllowedTime - now - 30) computed from the new
    value; and over any sequence of requests, whatever their times and
    methods, nextAllowedTime never decreases. *)
Theorem consume_advances_and_never_decreases
    (Date_now : Z) (nextAllowedTime : Q) (calls : list (method * Z)) :
  let now := inject_Z Date_now / 1000 in
  let raised := Qmax now nextAllowedTime in
  now <= raised ∧ nextAllowedTime <= raised ∧
  fst (fetch POST Date_now nextAllowedTime) = raised + 1 ∧
  snd (fetch POST Date_now nextAllowedTime) =
    Qmax 0 (fst (fetch POST Date_now nextAllowedTime) - now - 30) ∧
  0 <= snd (fetch POST Date_now nextAllowedTime) ∧
  (∀ (i j : nat) a b, (i <= j)%nat →
     history calls nextAllowedTime !! i = Some a →
     history calls nextAllowedTime !! j = Some b → a <= b).
Proof.
  intros now raised.
  split; [apply Q.le_max_l|].
  split; [apply Q.le_max_r|].
  split; [reflexivity|].
  split; [reflexivity|].
  split; [apply Q.le_max_l|].
  intros i j a b. apply history_monotone.
Qed.

Lemma consume_advances_and_never_decreases_witness :
  0 <= Qmax (inject_Z 5000 / 1000) 0 + 1.
Proof.
  refine (proj2 (proj2 (proj2 (proj2 (proj2
    (consume_advances_and_never_decreases 5000 0 [(POST, 5000%Z)])))))
    0%nat 1%nat _ _ (le_S _ _ (le_n _)) eq_refl eq_refl).
Defined.




Lemma fetch_steady m (t : Z) (n : Q) :
  n <= inject_Z t / 1000 + 29 →
  snd (fetch m t n) == 0 ∧ fst (fetch m t n) <= inject_Z t / 1000 + 30.
Proof.
  intros Hn. unfold fetch. set (now := inject_Z t / 1000) in *. cbn [fst snd].
  assert (Qmax now n <= now + 29) as Hmax.
  { apply Q.max_lub; [|done]. rewrite <- (Qplus_0_r now) at 1.
    apply Qplus_le_r. discriminate. }
  assert (match m with POST => Qmax now n + 1 | GET => Qmax now n end <= now + 30) as H.
  { destruct m; lra. }
  split; [|done]. apply Q.max_l. lra.
Qed.

(** A steady sender is never limited: when the requests to a limiter come
    at least a second after one another, and the first one finds a next
    allowed time at most 29 seconds ahead (as on a new limiter), every
    reply is the cooldown 0, whatever the methods are. *)
Theorem steady_sender_is_never_limited
    (calls : list (method * Z)) (nextAllowedTime : Q) :
  (∀ t, head calls.*2 = Some t → nextAllowedTime <= inject_Z t / 1000 + 29) →
  (∀ i t t', calls.*2 !! i = Some t → calls.*2 !! S i = Some t' → (t + 1000 <= t')%Z) →
  Forall (λ cooldown, cooldown == 0) (replies calls nextAllowedTime).
Proof.
  revert nextAllowedTime. induction calls as [|[m t] calls IH]; intros n Hn Hgap; cbn [replies].
  - constructor.
  - destruct (fetch_steady m t n (Hn t eq_refl)) as [H0 Hnext].
    constructor; [done|]. apply IH.
    + intros t' Ht'. destruct calls as [|[m' t''] calls]; [done|].
      injection Ht' as ->.
      assert (t + 1000 <= t')%Z as Hle by (by apply (Hgap 0%nat t t')).
      eapply Qle_trans; [exact Hnext|].
      assert (inject_Z t + 1000 <= inject_Z t') as Hq.
      { change 1000 with (inject_Z 1000). rewrite <- inject_Z_plus. by rewrite <- Zle_Qle. }
      unfold Qdiv. change (/ 1000) with (1 # 1000). lra.
    + intros i t1 t2 H1 H2. by apply (Hgap (S i) t1 t2).
Qed.

Lemma steady_sender_is_never_limited_witness :
  Forall (λ cooldown, cooldown == 0)
    (replies [(POST, 5000%Z); (POST, 6000%Z); (GET, 7500%Z)] initial).
Proof.
  apply (steady_sender_is_never_limited
           [(POST, 5000%Z); (POST, 6000%Z); (GET, 7500%Z)] initial).
  - intros t [= <-]. vm_compute. discriminate.
  - intros [|[|[|i]]] t t'; simpl; intros [= <-] [= <-]; lia.
Defined.

End RateLimiterFacts.

(** ** The room *)

Module RoomFacts.
Import Room.
Local Open Scope nat_scope.

(** *** Names and their length *)

Lemma substring_length n s :
  String.length (String.substring 0 n s) = n `min` String.length s.
Proof.
  revert n. induction s as [|c s IH]; intros [|n]; simpl; try done.
  by rewrite IH.
Qed.

Lemma safeString_length v n d : String.length (Utils.safeString v n d) ≤ n.
Proof.
  unfold Utils.safeString, Utils.slice0.
  case_match eqn:E.
  - rewrite substring_length. lia.
  - apply Nat.ltb_ge in E. exact E.
Qed.

Lemma safeString_short v n d :
  String.length v ≤ n → Utils.safeString (Some v) n d = v.
Proof.
  intros H. unfold Utils.safeString.
  case_match eqn:E; [|done]. apply Nat.ltb_lt in E. lia.
Qed.

Lemma name_or_anonymous_nonempty o : name_or_anonymous o ≠ "".
Proof.
  destruct o as [n|]; simpl; [|done].
  destruct (String.eqb_spec n ""); done.
Qed.

Lemma safeString_nonempty v n d :
  v ≠ "" → 0 < n → Utils.safeString (Some v) n d ≠ "".
Proof.
  intros Hv Hn. unfold Utils.safeString, Utils.slice0.
  case_match; [|done].
  destruct v as [|c v]; [done|]. destruct n; [lia|]. done.
Qed.

(** The test [userName.length > 32] of handleUserSetup is never true. *)
Lemma userName_fits (data : inbound) :
  (32 <? String.length
     (Utils.safeString (Some (name_or_anonymous (d_name data))) 32 "")) = false.
Proof. apply Nat.ltb_ge, safeString_length. Qed.

(** C8.  The code at a name of 33 characters: handleUserSetup does not
    reject it and closes nothing; the session is registered under the
    first 32 characters and gets its join notice and the ready message. *)
Theorem long_name_is_cut_and_registered :
  let r := steps [Connect; Message 0 (Some (say_name long_name)) (at_time 1000)] fresh in
  String.length long_name = 33 ∧
  sessions r =
    [(0, {| s_name := Some "aaaaaaaaaabbbbbbbbbbccccccccccdd";
            s_blockedMessages := None; s_inCooldown := true; s_quit := false |})] ∧
  trace r =
    [EAttachName 0 "aaaaaaaaaabbbbbbbbbbccccccccccdd";
     ESend 0 (OJoined "aaaaaaaaaabbbbbbbbbbccccccccccdd");
     ESend 0 OReady].
Proof. vm_compute. done. Qed.

(** *** Turn texts in the plain game *)

(** C1.  The code at a turn text from the player whose turn it is not, in
    a game without the AI host: the turn index and the scores stay as they
    are, but the text is sent to every session and written to the log. *)
Theorem out_of_turn_text_is_broadcast_and_stored :
  let before := steps two_players_active fresh in
  let after := step before bob_out_of_turn in
  let text := OChat "bob" "hello" 1004 true false in
  turtleSoupActive (gs before) = true ∧
  aiHostActive (gs before) = false ∧
  turtleSoupParticipants (gs before) !! currentTurnIndex (gs before) = Some "alice" ∧
  gs after = gs before ∧
  trace after = trace before ++ [ESend 0 text; ESend 1 text; EPutMessage 1004 text] ∧
  store_messages after = [(1004%Z, text)].
Proof. vm_compute. done. Qed.

(** C4.  The code at an accepted turn of the plain game: the turn index
    goes from 0 to 1 and the turn change is sent to the sessions, while
    the last snapshot written is the one of the game's start, with turn
    index 0; nothing is written to storage but the text itself. *)
Theorem plain_turn_change_is_sent_but_not_saved :
  let before := steps two_players_active fresh in
  let after := steps alice_takes_her_turn before in
  let text := OChat "alice" "hello" 1004 true false in
  let change := OTurnChange 1 (Some "bob") (Some (userScores (gs after))) in
  currentTurnIndex (gs before) = 0 ∧
  currentTurnIndex (gs after) = 1 ∧
  store_gameState after = store_gameState before ∧
  (store_gameState after ≫= field "currentTurnIndex") = Some (JNum 0) ∧
  trace after = trace before ++
    [ESend 0 text; ESend 1 text; EPutMessage 1004 text;
     ESend 0 (OHostReply "是（问题质量：一般，得分：5分）" 2004);
     ESend 1 (OHostReply "是（问题质量：一般，得分：5分）" 2004);
     ESend 0 change; ESend 1 change].
Proof. vm_compute. done. Qed.

(** What handleTurtleSoupMessage does: nothing for another sender; for the
    player whose turn it is, the turn index moves on by one, around the
    participant list, which stays. *)
Lemma turn_text_outcome name message o r :
  let r' := run (handleTurtleSoupMessage name message o) r in
  if bool_decide (turtleSoupParticipants (gs r) !! currentTurnIndex (gs r) = Some name)
  then currentTurnIndex (gs r') =
         (currentTurnIndex (gs r) + 1) mod length (turtleSoupParticipants (gs r)) ∧
       turtleSoupParticipants (gs r') = turtleSoupParticipants (gs r)
  else r' = r.
Proof.
  unfold run, handleTurtleSoupMessage, bind, get, modify, push_timer.
  destruct (decide (turtleSoupParticipants (gs r) !! currentTurnIndex (gs r) =
                    Some name)) as [E|E].
  - rewrite (bool_decide_eq_true_2 _ E).
    rewrite !bool_decide_eq_false_2 by (intros H; by apply H). done.
  - rewrite (bool_decide_eq_false_2 _ E). by rewrite !bool_decide_eq_true_2.
Qed.

(** With the AI host attached, the same text from the same player is
    dropped: nothing is sent and nothing is stored. *)
Example out_of_turn_question_is_dropped_with_ai_host :
  let before := steps two_players_with_ai_host fresh in
  let after := step before (Message 1 (Some (say_question "hello")) (at_time 1005)) in
  turtleSoupActive (gs before) = true ∧
  aiHostActive (gs before) = true ∧
  turtleSoupParticipants (gs before) !! currentTurnIndex (gs before) = Some "alice" ∧
  gs after = gs before ∧
  trace after = trace before ∧
  store_messages after = store_messages before.
Proof. vm_compute. done. Qed.

(** With the AI host attached, an accepted turn is saved before the turn
    change is sent. *)
Example ai_turn_change_is_saved_first :
  let before := steps two_players_with_ai_host fresh in
  let after := steps [Message 0 (Some (say_question "hello")) (puzzle_at 1005);
                      Fire 1 3005] before in
  currentTurnIndex (gs after) = 1 ∧
  (store_gameState after ≫= field "currentTurnIndex") = Some (JNum 1) ∧
  trace after = trace before ++
    [ESend 0 (OAIResponse "alice" "hello" "no");
     ESend 1 (OAIResponse "alice" "hello" "no");
     EPutGameState (gameState_json (gs after) 3005);
     ESend 0 (OTurnChange 1 (Some "bob") None);
     ESend 1 (OTurnChange 1 (Some "bob") None)].
Proof. vm_compute. done. Qed.

(** *** The snapshot *)









(** *** Rules for handlers *)

Lemma tri_ret {A} (a : A) (P : room → Prop) : tri P (ret a) P.
Proof. intros r H. exact H. Qed.

Lemma tri_throw {A} (P : room → Prop) : tri P (@throw A) P.
Proof. intros r H. exact H. Qed.

Lemma tri_modify (P Q : room → Prop) f :
  (∀ r, P r → Q (f r)) → tri P (modify f) Q.
Proof. intros H r Hr. by apply H. Qed.

Lemma tri_weaken {A} (P P' Q Q' : room → Prop) (m : M A) :
  tri P' m Q' → (∀ r, P r → P' r) → (∀ r, Q' r → Q r) → tri P m Q.
Proof. intros H HP HQ r Hr. apply HQ, H, HP, Hr. Qed.

Lemma tri_bind {A B} (P Q R : room → Prop) (m : M A) (k : A → M B) :
  tri P m Q → (∀ r, Q r → R r) → (∀ a, tri Q (k a) R) → tri P (bind m k) R.
Proof.
  intros Hm HQR Hk r Hr. unfold bind.
  specialize (Hm r Hr). destruct (m r) as [[a|] r']; simpl in *.
  - by apply Hk.
  - by apply HQR.
Qed.

Lemma tri_seq {A B} (I : room → Prop) (m : M A) (k : A → M B) :
  tri I m I → (∀ a, tri I (k a) I) → tri I (bind m k) I.
Proof. intros Hm Hk. by eapply tri_bind. Qed.

(** After [get] the value read is the room. *)
Lemma tri_get {B} (P R : room → Prop) (k : room → M B) :
  (∀ r0, P r0 → tri (λ r, r = r0) (k r0) R) → tri P (bind get k) R.
Proof. intros H r Hr. unfold bind, get. by apply (H r Hr). Qed.

Lemma tri_get_any {B} (P R : room → Prop) (k : room → M B) :
  (∀ r0, tri P (k r0) R) → tri P (bind get k) R.
Proof. intros H r Hr. unfold bind, get. by apply H. Qed.

Lemma tri_try {A} (P Q R : room → Prop) (m h : M A) :
  tri P m Q → (∀ r, Q r → R r) → tri Q h R → tri P (try_catch m h) R.
Proof.
  intros Hm HQR Hh r Hr. unfold try_catch.
  specialize (Hm r Hr). destruct (m r) as [[a|] r']; simpl in *.
  - by apply HQR.
  - by apply Hh.
Qed.

Lemma tri_try_seq {A} (I : room → Prop) (m h : M A) :
  tri I m I → tri I h I → tri I (try_catch m h) I.
Proof. intros Hm Hh. by eapply tri_try. Qed.

Lemma tri_forEach {A} (I : room → Prop) (l : list A) (f : A → M unit) :
  (∀ x, tri I (f x) I) → tri I (forEach l f) I.
Proof.
  intros Hf. induction l as [|x l IH]; simpl.
  - apply tri_ret.
  - apply tri_seq; [apply Hf | intros _; exact IH].
Qed.

(** *** Traces *)

Lemma attached_app w tr es : attached w tr → attached w (tr ++ es).
Proof. intros [n Hn]. exists n. set_solver. Qed.

Lemma handshake_first_nil : handshake_first [].
Proof. intros [|? pre] w m post H; discriminate. Qed.

Lemma handshake_first_snoc tr e :
  handshake_first tr →
  (∀ w m, e = ESend w m → attached w tr) →
  handshake_first (tr ++ [e]).
Proof.
  intros Htr He pre w m post E.
  destruct post as [|e' post _] using rev_ind.
  - apply (app_inj_tail tr pre e (ESend w m)) in E as [-> ->]. by eapply He.
  - rewrite app_comm_cons, app_assoc in E.
    apply app_inj_tail in E as [-> _]. by eapply Htr.
Qed.

Lemma handshake_first_app tr es :
  handshake_first tr →
  (∀ e w m, e ∈ es → e = ESend w m → attached w tr) →
  handshake_first (tr ++ es).
Proof.
  revert tr. induction es as [|e es IH]; intros tr Htr Hes.
  - by rewrite app_nil_r.
  - rewrite (cons_middle e), app_assoc. apply IH.
    + apply handshake_first_snoc; [done|]. intros w m ->. eapply Hes; [left|done].
    + intros e' w m Hin ->. apply attached_app. eapply Hes; [by right|done].
Qed.

(** *** One pass of broadcast *)

Lemma named_with_blocked q s : named (with_blocked q s) = named s.
Proof. done. Qed.


(** The sends of a pass go to named sessions of the map. *)
Lemma pass_sent dead m l e :
  e ∈ (broadcast_pass dead m l).2 →
  ∃ w s, e = ESend w m ∧ (w, s) ∈ l ∧ named s = true.
Proof.
  induction l as [|[w s] l IH]; simpl; [by intros ?%elem_of_nil|].
  destruct (broadcast_pass dead m l) as [[[ok kept] quitters] sent]; simpl in IH.
  destruct (named s) eqn:Hs.
  - case_bool_decide as Hd; simpl.
    + intros (w' & s' & ? & ? & ?)%IH. exists w', s'. split_and!; [done|by right|done].
    + intros [->|(w' & s' & ? & ? & ?)%IH]%elem_of_cons.
      * exists w, s. split_and!; [done|by left|done].
      * exists w', s'. split_and!; [done|by right|done].
  - destruct (s_blockedMessages s) as [q|]; simpl.
    + intros (w' & s' & ? & ? & ?)%IH. exists w', s'. split_and!; [done|by right|done].
    + by intros ?%elem_of_nil.
Qed.

(** A session kept by a pass is as before, or has the message queued. *)
Lemma pass_kept dead m l w s' :
  (w, s') ∈ (broadcast_pass dead m l).1.1.2 →
  (w, s') ∈ l ∨
  ∃ s q, (w, s) ∈ l ∧ named s = false ∧ s_blockedMessages s = Some q ∧
         s' = with_blocked (Some (q ++ [m])) s.
Proof.
  induction l as [|[w0 s0] l IH]; simpl; [by intros ?%elem_of_nil|].
  destruct (broadcast_pass dead m l) as [[[ok kept] quitters] sent]; simpl in IH.
  assert ((w, s') ∈ kept →
          (w, s') ∈ (w0, s0) :: l ∨
          ∃ s q, (w, s) ∈ (w0, s0) :: l ∧ named s = false ∧
                 s_blockedMessages s = Some q ∧
                 s' = with_blocked (Some (q ++ [m])) s) as IH'.
  { intros [H'|(s & q & H' & ?)]%IH; [left; by right|].
    right. exists s, q. split; [by right|done]. }
  destruct (named s0) eqn:Hs.
  - case_bool_decide as Hd; simpl; [exact IH'|].
    intros [[= -> ->]|H]%elem_of_cons; [left; by left|by apply IH'].
  - destruct (s_blockedMessages s0) as [q|] eqn:Hq; simpl.
    + intros [[= -> ->]|H]%elem_of_cons; [|by apply IH'].
      right. exists s0, q. split; [by left|done].
    + intros H. by left.
Qed.





Lemma pass_keys dead m l :
  (broadcast_pass dead m l).1.1.2.*1 `sublist_of` l.*1.
Proof.
  induction l as [|[w0 s0] l IH]; simpl; [done|].
  destruct (broadcast_pass dead m l) as [[[ok kept] quitters] sent]; simpl in IH.
  destruct (named s0) eqn:Hs.
  - case_bool_decide as Hd; simpl; [by apply sublist_cons|by apply sublist_skip].
  - destruct (s_blockedMessages s0) as [q|] eqn:Hq; simpl; [by apply sublist_skip|done].
Qed.

(** *** broadcast *)

Lemma evolves_refl r : evolves r r.
Proof.
  split; [done|]. split; [done|]. split.
  - intros w s H. by exists s.
  - exists []. split; [by rewrite app_nil_r|]. by intros e ?%elem_of_nil.
Qed.

Lemma evolves_trans r1 r2 r3 : evolves r1 r2 → evolves r2 r3 → evolves r1 r3.
Proof.
  intros (B1 & K1 & S1 & es1 & T1 & E1) (B2 & K2 & S2 & es2 & T2 & E2).
  split; [congruence|]. split; [by etrans|]. split.
  - intros w s3 H3. destruct (S2 w s3 H3) as (s2 & H2 & N2 & Q2).
    destruct (S1 w s2 H2) as (s1 & H1 & N1 & Q1).
    exists s1. split_and!; [done|congruence|auto].
  - exists (es1 ++ es2). split; [by rewrite T2, T1, app_assoc|].
    intros e [H|H]%elem_of_app; [by apply E1|].
    destruct (E2 e H) as (w & s2 & m & -> & H2 & N2).
    destruct (S1 w s2 H2) as (s1 & H1 & N1 & _).
    exists w, s1, m. split_and!; [done|done|congruence].
Qed.

(** One pass, as a step of the room. *)
Lemma pass_evolves m r :
  evolves r (emit (broadcast_pass (dead r) m (sessions r)).2
               (set_sessions (λ _, (broadcast_pass (dead r) m (sessions r)).1.1.2) r)).
Proof.
  split; [done|]. split; [apply pass_keys|]. split; simpl.
  - intros w s' [H|(s & q & H & Hs & Hq & ->)]%pass_kept.
    + by exists s'.
    + exists s. split_and!; [done|done|]. by eexists.
  - eexists. split; [done|].
    intros e (w & s & -> & H & Hn)%pass_sent. by exists w, s, m.
Qed.

Lemma forEach_evolves {A} (l : list A) (f : A → M unit) r :
  (∀ x r, evolves r (snd (f x r))) → evolves r (snd (forEach l f r)).
Proof.
  intros Hf. revert r. induction l as [|x l IH]; intros r; simpl.
  - apply evolves_refl.
  - unfold bind. specialize (Hf x r).
    destruct (f x r) as [[[]|] r']; simpl in *; [|done].
    eapply evolves_trans; [exact Hf|apply IH].
Qed.

Lemma broadcast_aux_evolves n m r : evolves r (snd (broadcast_aux n m r)).
Proof.
  revert m r. induction n as [|n IH]; intros m r; simpl;
    pose proof (pass_evolves m r) as Hp;
    destruct (broadcast_pass (dead r) m (sessions r)) as [[[ok kept] quitters] sent];
    simpl in Hp; destruct ok; simpl; try done.
  eapply evolves_trans; [exact Hp|].
  apply forEach_evolves. intros q r'.
  destruct (s_name q); [|apply evolves_refl].
  destruct (named q); [apply IH|apply evolves_refl].
Qed.

Lemma broadcast_evolves m r : evolves r (snd (broadcast m r)).
Proof. apply broadcast_aux_evolves. Qed.

Lemma evolves_queues_ok r r' :
  evolves r r' → queues_ok (sessions r) → queues_ok (sessions r').
Proof.
  intros (_ & _ & S & _) Hq w s' H Hn.
  destruct (S w s' H) as (s & Hs & N & Q). apply Q. apply (Hq w s); congruence.
Qed.

Lemma evolves_Inv r r' : evolves r r' → Inv r → Inv r'.
Proof.
  intros Hev (Hf & Ha & Hq & Hnd & Hk).
  pose proof Hev as (B & K & S & es & T & E).
  split_and!.
  - rewrite T. apply handshake_first_app; [done|].
    intros e w m He ->. destruct (E _ He) as (w' & s & m' & [= <- <-] & Hs & Hn).
    by eapply Ha.
  - intros w s' H Hn. destruct (S w s' H) as (s & Hs & N & _).
    rewrite T. apply attached_app. eapply Ha; [done|congruence].
  - by eapply evolves_queues_ok.
  - split; [by eapply sublist_NoDup|].
    intros w Hw. replace (next_ws r') with (next_ws r) by (by injection B).
    apply Hk. by eapply elem_of_sublist.
Qed.







(** *** The handshake invariant, handler by handler *)

Lemma elem_of_update_ws w f l w' s' :
  (w', s') ∈ update_ws w f l →
  (w', s') ∈ l ∨ (w' = w ∧ ∃ s, (w, s) ∈ l ∧ s' = f s).
Proof.
  induction l as [|[w0 s0] l IH]; simpl; [by intros ?%elem_of_nil|].
  case_decide as E.
  - subst w0. intros [[= -> ->]|H]%elem_of_cons.
    + right. split; [done|]. exists s0. split; [by left|done].
    + left. by right.
  - intros [[= -> ->]|H]%elem_of_cons; [left; by left|].
    destruct (IH H) as [?|(-> & s & ? & ->)]; [left; by right|].
    right. split; [done|]. exists s. split; [by right|done].
Qed.

Lemma elem_of_delete_ws w l w' s' : (w', s') ∈ delete_ws w l → (w', s') ∈ l.
Proof.
  induction l as [|[w0 s0] l IH]; simpl; [done|].
  case_decide as E.
  - intros H. by right.
  - intros [[= -> ->]|H]%elem_of_cons; [by left|]. right. by apply IH.
Qed.

Lemma update_ws_keys w f l : (update_ws w f l).*1 = l.*1.
Proof.
  induction l as [|[w0 s0] l IH]; simpl; [done|].
  case_decide; [done|]. rewrite !fmap_cons. by rewrite IH.
Qed.

Lemma delete_ws_keys w l : (delete_ws w l).*1 `sublist_of` l.*1.
Proof.
  induction l as [|[w0 s0] l IH]; simpl; [done|].
  case_decide; rewrite ?fmap_cons; [by apply sublist_cons|by apply sublist_skip].
Qed.

Lemma elem_of_lookup_ws w l s : lookup_ws w l = Some s → (w, s) ∈ l.
Proof.
  induction l as [|[w0 s0] l IH]; simpl; [done|].
  case_decide as E.
  - intros [= ->]. subst. by left.
  - intros H. right. by apply IH.
Qed.

Lemma Inv_emit es r :
  (∀ e w m, e ∈ es → e = ESend w m → attached w (trace r)) →
  Inv r → Inv (emit es r).
Proof.
  intros Hes (Hf & Ha & Hq & Hk). split_and!; simpl.
  - by apply handshake_first_app.
  - intros w s H Hn. apply attached_app. by eapply Ha.
  - done.
  - done.
Qed.

Lemma Inv_sessions f r :
  (f (sessions r)).*1 `sublist_of` (sessions r).*1 →
  (∀ w s', (w, s') ∈ f (sessions r) →
     ∃ s, (w, s) ∈ sessions r ∧ named s' = named s ∧
          (is_Some (s_blockedMessages s) → is_Some (s_blockedMessages s'))) →
  Inv r → Inv (set_sessions f r).
Proof.
  intros Hk Hf. apply evolves_Inv. split; [done|]. split; [exact Hk|]. split; [exact Hf|].
  exists []. split; [simpl; by rewrite app_nil_r|]. by intros e ?%elem_of_nil.
Qed.

Lemma Inv_update w f r :
  (∀ s, named (f s) = named s) →
  (∀ s, is_Some (s_blockedMessages s) → is_Some (s_blockedMessages (f s))) →
  Inv r → Inv (set_sessions (update_ws w f) r).
Proof.
  intros Hn Hq. apply Inv_sessions; [by rewrite (update_ws_keys w f (sessions r))|].
  intros w' s' [H|(-> & s & H & ->)]%elem_of_update_ws.
  - by exists s'.
  - exists s. split_and!; [done|apply Hn|apply Hq].
Qed.

Lemma Inv_delete w r : Inv r → Inv (set_sessions (delete_ws w) r).
Proof.
  apply Inv_sessions; [apply delete_ws_keys|].
  intros w' s' H%elem_of_delete_ws. by exists s'.
Qed.

Lemma broadcast_Inv m : tri Inv (broadcast m) Inv.
Proof. intros r. apply evolves_Inv, broadcast_evolves. Qed.

Lemma sendError_Inv w t : tri Inv (sendError w t) Inv.
Proof.
  intros r H. unfold sendError. case_match; simpl; [done|].
  apply Inv_emit; [|done]. by intros e w' m ->%list_elem_of_singleton.
Qed.

Lemma sendErrorToSession_Inv w t : tri Inv (sendErrorToSession w t) Inv.
Proof.
  apply tri_get_any. intros r0. case_match; [apply sendError_Inv|apply tri_ret].
Qed.

Lemma close_Inv w c : tri Inv (close w c) Inv.
Proof.
  apply tri_modify. intros r H.
  apply (Inv_emit [EClose w c]) in H; [exact H|].
  by intros e w' m ->%list_elem_of_singleton.
Qed.

Lemma storage_put_Inv k m : tri Inv (storage_put k m) Inv.
Proof.
  apply tri_modify. intros r H.
  apply (Inv_emit [EPutMessage k m] (set_store_messages (put_message k m) r));
    [|exact H].
  by intros e w' m' ->%list_elem_of_singleton.
Qed.

Lemma saveGameState_Inv now : tri Inv (saveGameState now) Inv.
Proof.
  apply tri_modify. intros r H.
  apply (Inv_emit [EPutGameState (gameState_json (gs r) now)]
           (set_store_gameState (Some (gameState_json (gs r) now)) r)); [|exact H].
  by intros e w' m' ->%list_elem_of_singleton.
Qed.

Lemma checkLimit_Inv w : tri Inv (checkLimit w) Inv.
Proof.
  apply tri_get_any. intros r0.
  case_match; [|apply tri_ret].
  case_match; [apply tri_ret|].
  apply tri_seq; [|intros; apply tri_ret].
  apply tri_modify. intros r. by apply Inv_update.
Qed.

(** Changes behind the scenes do not touch the invariant. *)
Lemma backstage_Inv f :
  (∀ r, sessions (f r) = sessions r ∧ trace (f r) = trace r ∧
        next_ws (f r) = next_ws r) →
  tri Inv (modify f) Inv.
Proof.
  intros Hf. apply tri_modify. intros r H.
  destruct (Hf r) as (Es & Et & En). unfold Inv, attached_ok, keys_ok.
  by rewrite Es, Et, En.
Qed.

Ltac backstage := apply backstage_Inv; intros ?; split_and!; reflexivity.

Ltac inv_step :=
  lazymatch goal with
  | |- tri _ (ret _) _ => apply tri_ret
  | |- tri _ throw _ => apply tri_throw
  | |- tri _ (bind get _) _ => apply tri_get_any; intros ?
  | |- tri _ (bind _ _) _ => apply tri_seq; [|intros ?]
  | |- tri _ (try_catch _ _) _ => apply tri_try_seq
  | |- tri _ (broadcast _) _ => apply broadcast_Inv
  | |- tri _ (sendErrorToSession _ _) _ => apply sendErrorToSession_Inv
  | |- tri _ (sendError _ _) _ => apply sendError_Inv
  | |- tri _ (close _ _) _ => apply close_Inv
  | |- tri _ (storage_put _ _) _ => apply storage_put_Inv
  | |- tri _ (saveGameState _) _ => apply saveGameState_Inv
  | |- tri _ (checkLimit _) _ => apply checkLimit_Inv
  | |- tri _ (modify _) _ => backstage
  | |- tri _ (match _ with _ => _ end) _ => case_match
  end.

Ltac by_steps := repeat inv_step.

Lemma push_timer_Inv t : tri Inv (push_timer t) Inv.
Proof. unfold push_timer. by_steps. Qed.

Lemma endAIHostMode_Inv now : tri Inv (endAIHostMode now) Inv.
Proof. unfold endAIHostMode. by_steps. Qed.

Lemma processAIHostQuestion_Inv u q o : tri Inv (processAIHostQuestion u q o) Inv.
Proof. unfold processAIHostQuestion. by_steps; apply endAIHostMode_Inv. Qed.

Lemma ensureAIHost_Inv o : tri Inv (ensureAIHost o) Inv.
Proof. unfold ensureAIHost. by_steps. Qed.

Lemma handleAIHostRequest_Inv w n o : tri Inv (handleAIHostRequest w n o) Inv.
Proof. unfold handleAIHostRequest. by_steps; apply ensureAIHost_Inv. Qed.

Lemma handleAIHostEnd_Inv w n o : tri Inv (handleAIHostEnd w n o) Inv.
Proof. unfold handleAIHostEnd. by_steps; apply endAIHostMode_Inv. Qed.

Lemma handleTurtleSoupRequest_Inv w d : tri Inv (handleTurtleSoupRequest w d) Inv.
Proof. unfold handleTurtleSoupRequest. by_steps; apply push_timer_Inv. Qed.

Lemma startTurtleSoup_Inv i ps now : tri Inv (startTurtleSoup i ps now) Inv.
Proof. unfold startTurtleSoup. by_steps. Qed.

Lemma handleTurtleSoupConfirmation_Inv d now :
  tri Inv (handleTurtleSoupConfirmation d now) Inv.
Proof. unfold handleTurtleSoupConfirmation. by_steps; apply startTurtleSoup_Inv. Qed.

Lemma handleTurtleSoupTurnChange_Inv n d : tri Inv (handleTurtleSoupTurnChange n d) Inv.
Proof. unfold handleTurtleSoupTurnChange. by_steps. Qed.

Lemma endTurtleSoup_Inv now : tri Inv (endTurtleSoup now) Inv.
Proof. unfold endTurtleSoup. by_steps; apply endAIHostMode_Inv. Qed.

Lemma handleTurtleSoupEnd_Inv n now : tri Inv (handleTurtleSoupEnd n now) Inv.
Proof. unfold handleTurtleSoupEnd. by_steps; apply endTurtleSoup_Inv. Qed.

Lemma handleTurtleSoupPuzzleSelected_Inv w n d o :
  tri Inv (handleTurtleSoupPuzzleSelected w n d o) Inv.
Proof. unfold handleTurtleSoupPuzzleSelected. by_steps; apply ensureAIHost_Inv. Qed.

Lemma handleTurtleSoupMessage_Inv n m o : tri Inv (handleTurtleSoupMessage n m o) Inv.
Proof. unfold handleTurtleSoupMessage. by_steps; apply push_timer_Inv. Qed.

Lemma handleTurtleSoupAIMessage_Inv n m o :
  tri Inv (handleTurtleSoupAIMessage n m o) Inv.
Proof.
  unfold handleTurtleSoupAIMessage.
  by_steps; first [apply processAIHostQuestion_Inv | apply push_timer_Inv].
Qed.

Lemma fire_Inv t now : tri Inv (fire t now) Inv.
Proof. destruct t; simpl; by_steps; apply push_timer_Inv. Qed.

Lemma handleSpecialMessages_Inv w n d o : tri Inv (handleSpecialMessages w n d o) Inv.
Proof.
  unfold handleSpecialMessages.
  by_steps; first
    [ apply handleTurtleSoupRequest_Inv | apply handleTurtleSoupConfirmation_Inv
    | apply handleTurtleSoupTurnChange_Inv | apply handleTurtleSoupEnd_Inv
    | apply handleTurtleSoupPuzzleSelected_Inv | apply handleAIHostRequest_Inv
    | apply handleAIHostEnd_Inv ].
Qed.

Lemma handleChatMessage_Inv w n d o : tri Inv (handleChatMessage w n d o) Inv.
Proof.
  unfold handleChatMessage.
  by_steps; first
    [ apply handleTurtleSoupAIMessage_Inv | apply processAIHostQuestion_Inv
    | apply handleTurtleSoupMessage_Inv ].
Qed.

(** *** handleUserSetup and the dispatcher *)

Lemma tri_modify_seq {B} (P R : room → Prop) f (k : M B) :
  tri (λ r', ∃ r, P r ∧ r' = f r) k R → tri P (bind (modify f) (λ _, k)) R.
Proof. intros H r Hr. unfold bind, modify. apply H. by exists r. Qed.

Lemma elem_of_keys (w : ws) (s : session) (l : list (ws * session)) :
  (w, s) ∈ l → w ∈ l.*1.
Proof. intros H. apply list_elem_of_fmap. by exists (w, s). Qed.

Lemma elem_of_update_ws_NoDup w f (l : list (ws * session)) w' s' :
  NoDup l.*1 → (w', s') ∈ update_ws w f l →
  (w' ≠ w ∧ (w', s') ∈ l) ∨ (w' = w ∧ ∃ s, (w, s) ∈ l ∧ s' = f s).
Proof.
  induction l as [|[w0 s0] l IH]; [by intros _ ?%elem_of_nil|].
  rewrite fmap_cons. intros [Hw0 Hl]%NoDup_cons. simpl. case_decide as E.
  - subst w0. intros [[= -> ->]|H]%elem_of_cons.
    + right. split; [done|]. exists s0. split; [by left|done].
    + left. split; [|by right]. intros ->. by apply Hw0, (elem_of_keys _ s').
  - intros [[= -> ->]|H]%elem_of_cons; [left; split; [done|by left]|].
    destruct (IH Hl H) as [[? ?]|(-> & s & ? & ->)]; [left; split; [done|by right]|].
    right. split; [done|]. exists s. split; [by right|done].
Qed.

Lemma evolves_welcomed w r r' : evolves r r' → welcomed w r → welcomed w r'.
Proof.
  intros Hev (HI & Ha & Hn). split_and!.
  - by eapply evolves_Inv.
  - destruct Hev as (_ & _ & _ & es & -> & _). by apply attached_app.
  - intros s' H. destruct Hev as (_ & _ & S & _).
    destruct (S w s' H) as (s & Hs & N & _). rewrite N. by apply Hn.
Qed.

Lemma broadcast_welcomed w m : tri (welcomed w) (broadcast m) (welcomed w).
Proof. intros r. apply evolves_welcomed, broadcast_evolves. Qed.

Lemma send_welcomed w m : tri (welcomed w) (send w m) (welcomed w).
Proof.
  intros r (HI & Ha & Hn). unfold send. case_match; simpl; [done|].
  split_and!.
  - apply Inv_emit; [|done]. by intros e w' m' ->%list_elem_of_singleton [= -> _].
  - by apply attached_app.
  - done.
Qed.

Lemma named_with_name n s : n ≠ "" → named (with_name n s) = true.
Proof. intros Hn. unfold named; simpl. by destruct (String.eqb_spec n ""). Qed.

(** Naming the session and attaching the name, together. *)
Lemma name_and_attach w n r :
  n ≠ "" → Inv r →
  welcomed w (emit [EAttachName w n] (set_sessions (update_ws w (with_name n)) r)).
Proof.
  intros Hn (Hf & Ha & Hq & Hnd & Hk).
  assert (attached w (trace r ++ [EAttachName w n])) as Hw.
  { exists n. set_solver. }
  split_and!; [split_and!|..]; simpl.
  - apply handshake_first_snoc; [done|]. by intros w' m [=].
  - intros w' s' [H|(-> & s & H & ->)]%elem_of_update_ws Hs'; [|done].
    apply attached_app. by eapply Ha.
  - intros w' s' [H|(-> & s & H & ->)]%elem_of_update_ws Hs'; [by eapply Hq|].
    by rewrite named_with_name in Hs'.
  - split; simpl; by rewrite update_ws_keys.
  - done.
  - intros s' [[? _]|(_ & s & H & ->)]%elem_of_update_ws_NoDup; [done| |done].
    by apply named_with_name.
Qed.

(** Dropping the queue of a named session. *)
Lemma drop_queue_welcomed w :
  tri (welcomed w) (modify (set_sessions (update_ws w (with_blocked None))))
      (welcomed w).
Proof.
  apply tri_modify. intros r ((Hf & Ha & Hq & Hnd & Hk) & Hw & Hn).
  split_and!; [split_and!|..]; simpl.
  - done.
  - intros w' s' [H|(-> & s & H & ->)]%elem_of_update_ws Hs'; by eapply Ha.
  - intros w' s' [H|(-> & s & H & ->)]%elem_of_update_ws Hs'; [by eapply Hq|].
    rewrite named_with_blocked, (Hn s H) in Hs'. done.
  - split; simpl; by rewrite update_ws_keys.
  - done.
  - intros s' [H|(_ & s & H & ->)]%elem_of_update_ws; [by apply Hn|].
    rewrite named_with_blocked. by apply Hn.
Qed.

Lemma handleUserSetup_Inv w d : tri Inv (handleUserSetup w d) Inv.
Proof.
  unfold handleUserSetup. rewrite userName_fits.
  set (userName := Utils.safeString _ 32 "").
  assert (userName ≠ "") as Hn.
  { apply safeString_nonempty; [apply name_or_anonymous_nonempty|lia]. }
  apply tri_modify_seq, tri_modify_seq.
  apply (tri_weaken _ (welcomed w) _ (welcomed w)); [| |by intros r [? _]].
  2:{ intros r (r1 & (r0 & H0 & ->) & ->). by apply name_and_attach. }
  apply tri_get_any. intros r0.
  destruct (lookup_ws w (sessions r0) ≫= s_blockedMessages) as [queue|];
    [|apply tri_throw].
  apply tri_seq; [apply tri_forEach; intros m; apply send_welcomed|intros _].
  apply tri_seq; [apply drop_queue_welcomed|intros _].
  apply tri_seq; [apply broadcast_welcomed|intros _].
  apply tri_get_any. intros r1.
  apply tri_seq; [|intros _; apply send_welcomed].
  case_match; [apply send_welcomed|apply tri_ret].
Qed.

Lemma webSocketMessage_Inv w d o : tri Inv (webSocketMessage w d o) Inv.
Proof.
  unfold webSocketMessage.
  by_steps; first
    [ apply handleUserSetup_Inv | apply handleSpecialMessages_Inv
    | apply handleChatMessage_Inv ].
Qed.

Lemma closeOrErrorHandler_Inv w : tri Inv (closeOrErrorHandler w) Inv.
Proof.
  unfold closeOrErrorHandler. apply tri_get_any. intros r0.
  apply tri_seq; [apply tri_modify; intros r; apply Inv_delete|intros _].
  by_steps.
Qed.

Lemma online_names_named l n :
  n ∈ online_names l → ∃ w s, (w, s) ∈ l ∧ named s = true ∧ s_name s = Some n.
Proof.
  unfold online_names. intros ([w s] & H & E)%list_elem_of_omap. simpl in E.
  destruct (named s) eqn:Hs; [|done]. by exists w, s.
Qed.

Lemma handleSession_Inv r : Inv r → Inv (handleSession r).
Proof.
  intros (Hf & Ha & Hq & Hnd & Hk). unfold handleSession.
  split_and!; simpl.
  - done.
  - intros w s [H|H%list_elem_of_singleton]%elem_of_app Hn; [by eapply Ha|].
    by injection H as -> ->.
  - intros w s [H|H%list_elem_of_singleton]%elem_of_app Hn; [by eapply Hq|].
    injection H as -> ->. by eexists.
  - split; simpl.
    + rewrite fmap_app. apply NoDup_app. split_and!; [done| |apply NoDup_singleton].
      intros w Hw ->%list_elem_of_singleton. specialize (Hk _ Hw).
      exact (Nat.lt_irrefl _ Hk).
    + intros w. rewrite fmap_app.
      intros [Hw| ->%list_elem_of_singleton]%elem_of_app; [|apply Nat.lt_succ_diag_r].
      specialize (Hk _ Hw). by apply Nat.lt_lt_succ_r.
Qed.

Lemma fresh_Inv : Inv fresh.
Proof.
  split_and!; simpl.
  - apply handshake_first_nil.
  - by intros w s ?%elem_of_nil.
  - by intros w s ?%elem_of_nil.
  - split; simpl; [apply NoDup_nil_2|by intros w ?%elem_of_nil].
Qed.

Lemma step_Inv r e : Inv r → Inv (step r e).
Proof.
  intros H. destruct e as [|w d o|w|n now|w|w]; simpl.
  - by apply handleSession_Inv.
  - by apply webSocketMessage_Inv.
  - by apply closeOrErrorHandler_Inv.
  - destruct (timers r !! n) as [t|]; [|done]. by apply fire_Inv.
  - by apply Inv_update.
  - exact H.
Qed.

Lemma steps_Inv es r : Inv r → Inv (steps es r).
Proof.
  revert r. induction es as [|e es IH]; intros r H; simpl; [done|].
  by apply IH, step_Inv.
Qed.

Lemma reachable_Inv r : reachable r → Inv r.
Proof. intros [es ->]. apply steps_Inv, fresh_Inv. Qed.

(** *** Queues and the flush *)





Lemma sendError_grows tr w t : tri (λ r, tr `prefix_of` trace r) (sendError w t)
                                   (λ r, tr `prefix_of` trace r).
Proof.
  intros r H. unfold sendError. case_match; simpl; [done|]. by apply prefix_app_r.
Qed.







(** *** The confirmation handshake *)





Lemma initial_scores (ps : list string) (m : gmap string score) p :
  foldl (λ m participant, <[participant := zero_score]> m) m ps !! p =
  if bool_decide (p ∈ ps) then Some zero_score else m !! p.
Proof.
  revert m. induction ps as [|x ps IH]; intros m; simpl; [done|].
  rewrite IH. case_bool_decide as Hp.
  - rewrite bool_decide_eq_true_2; [done|by right].
  - case_bool_decide as Hp'; [|by rewrite lookup_insert_ne by set_solver].
    apply elem_of_cons in Hp' as [->|?]; [|done]. by rewrite lookup_insert_eq.
Qed.




(** *** The game behind the handlers *)

Section OnGame.
Context (Φ : game → gmap string ticket → Prop).







End OnGame.

(** One step of a proof that a handler keeps a property of the game: the
    changes that leave the property as it is are dealt with, the others
    are left over. *)
Ltac kept := let H := fresh in intros ? H; exact H.



(** Properties of the turtle soup fields other than the scores: nothing
    but the start, the end, the turn advance and the turn override touch
    them. *)
Section Soup.
Context (Ψ : bool → list string → option string → nat → Prop).











End Soup.

(** The changes of the turtle soup fields, for a property [Ψ] before and a
    property [Ψ'] after the handler. *)
Section SoupChanges.
Context (Ψ Ψ' : bool → list string → option string → nat → Prop).
Context (pending0 : gmap string ticket).
Hypothesis keep : ∀ a l i t, Ψ a l i t → Ψ' a l i t.
Hypothesis started :
  ∀ i t, pending0 !! i = Some t → Ψ' true (originalParticipants t) (Some i) 0.
Hypothesis ended : Ψ' false [] None 0.
Hypothesis advanced :
  ∀ a l i t, Ψ a l i t → t < length l → Ψ a l i ((t + 1) mod length l).














End SoupChanges.

(** *** The turn index and the participant list *)






(** The manual turn change puts any index in place: with two participants,
    the initiator sets the turn index to 7. *)
Example turn_override_out_of_range :
  let r := step (steps two_players_active fresh)
             (Message 0 (Some (say_turn_index 7)) (at_time 1005)) in
  currentTurnIndex (gs r) = 7 ∧ length (turtleSoupParticipants (gs r)) = 2.
Proof. vm_compute. done. Qed.

(** *** The frozen lists have no duplicates *)










(** *** Properties of every session *)

Lemma pass_every (P : ws → session → Prop) dead m l :
  (∀ w s q, P w s → P w (with_blocked q s)) →
  (∀ w s, (w, s) ∈ l → P w s) →
  ∀ w s, (w, s) ∈ (broadcast_pass dead m l).1.1.2 → P w s.
Proof.
  intros Hb Hl w s' [H|(s & q & H & _ & _ & ->)]%pass_kept; [by apply Hl|].
  by apply Hb, Hl.
Qed.

Lemma broadcast_aux_every (P : ws → session → Prop) n m :
  (∀ w s q, P w s → P w (with_blocked q s)) →
  tri (every_session P) (broadcast_aux n m) (every_session P).
Proof.
  intros Hb. revert m. induction n as [|n IH]; intros m r Hr; simpl;
    pose proof (pass_every P (dead r) m (sessions r) Hb Hr) as Hp;
    destruct (broadcast_pass (dead r) m (sessions r)) as [[[ok kept] quitters] sent];
    simpl in Hp; destruct ok; simpl; try exact Hp.
  apply (tri_forEach (every_session P)); [|exact Hp].
  intros q. destruct (s_name q); [|apply tri_ret].
  destruct (named q); [apply IH|apply tri_ret].
Qed.

Lemma broadcast_every (P : ws → session → Prop) m :
  (∀ w s q, P w s → P w (with_blocked q s)) →
  tri (every_session P) (broadcast m) (every_session P).
Proof. intros Hb r. by apply broadcast_aux_every. Qed.

Lemma update_every (P : ws → session → Prop) w f :
  (∀ s, P w s → P w (f s)) →
  tri (every_session P) (modify (set_sessions (update_ws w f))) (every_session P).
Proof.
  intros Hf. apply tri_modify. intros r Hr w' s' [H|(-> & s & H & ->)]%elem_of_update_ws.
  - by apply Hr.
  - by apply Hf, Hr.
Qed.

Lemma delete_every P w :
  tri (every_session P) (modify (set_sessions (delete_ws w))) (every_session P).
Proof. apply tri_modify. intros r Hr w' s' H%elem_of_delete_ws. by apply Hr. Qed.

Lemma send_every P w m : tri (every_session P) (send w m) (every_session P).
Proof. intros r H. unfold send. by case_match. Qed.

Lemma sendError_every P w t : tri (every_session P) (sendError w t) (every_session P).
Proof. intros r H. unfold sendError. by case_match. Qed.

Lemma sendErrorToSession_every P w t :
  tri (every_session P) (sendErrorToSession w t) (every_session P).
Proof.
  apply tri_get_any. intros r0. case_match; [apply sendError_every|apply tri_ret].
Qed.

Lemma checkLimit_every (P : ws → session → Prop) w :
  (∀ s, P w s → P w (with_inCooldown true s)) →
  tri (every_session P) (checkLimit w) (every_session P).
Proof.
  intros Hc. apply tri_get_any. intros r0.
  case_match; [|apply tri_ret]. case_match; [apply tri_ret|].
  apply tri_seq; [|intros; apply tri_ret]. by apply update_every.
Qed.

(** One step of a proof that a handler keeps a property of every session;
    [tac] shows that the property survives the change of one session. *)
Ltac every_step tac :=
  lazymatch goal with
  | |- tri _ (ret _) _ => apply tri_ret
  | |- tri _ throw _ => apply tri_throw
  | |- tri _ (bind get _) _ => apply tri_get_any; intros ?
  | |- tri _ (bind _ _) _ => apply tri_seq; [|intros ?]
  | |- tri _ (try_catch _ _) _ => apply tri_try_seq
  | |- tri _ (forEach _ _) _ => apply tri_forEach; intros ?
  | |- tri _ (broadcast _) _ => apply broadcast_every; tac
  | |- tri _ (send _ _) _ => apply send_every
  | |- tri _ (sendErrorToSession _ _) _ => apply sendErrorToSession_every
  | |- tri _ (sendError _ _) _ => apply sendError_every
  | |- tri _ (checkLimit _) _ => apply checkLimit_every; tac
  | |- tri _ (close _ _) _ => apply tri_modify; kept
  | |- tri _ (storage_put _ _) _ => apply tri_modify; kept
  | |- tri _ (saveGameState _) _ => apply tri_modify; kept
  | |- tri _ (push_timer _) _ => apply tri_modify; kept
  | |- tri _ (modify (set_sessions (update_ws _ _))) _ => apply update_every; tac
  | |- tri _ (modify (set_sessions (delete_ws _))) _ => apply delete_every
  | |- tri _ (modify _) _ => apply tri_modify; kept
  | |- tri _ (match _ with _ => _ end) _ => case_match
  end.

Ltac every_steps tac := repeat every_step tac.

Section EverySession.
Context (P : ws → session → Prop).
Hypothesis blocked : ∀ w s q, P w s → P w (with_blocked q s).
Hypothesis cooling : ∀ w s, P w s → P w (with_inCooldown true s).
Hypothesis naming :
  ∀ w s n, n ≠ "" → String.length n ≤ 32 → P w s → P w (with_name n s).

Lemma handleSpecialMessages_every w n d o :
  tri (every_session P) (handleSpecialMessages w n d o) (every_session P).
Proof.
  unfold handleSpecialMessages, handleTurtleSoupRequest,
    handleTurtleSoupConfirmation, startTurtleSoup, handleTurtleSoupTurnChange,
    handleTurtleSoupEnd, endTurtleSoup, handleTurtleSoupPuzzleSelected,
    handleAIHostRequest, handleAIHostEnd, endAIHostMode, ensureAIHost.
  every_steps ltac:(by auto).
Qed.

Lemma handleChatMessage_every w n d o :
  tri (every_session P) (handleChatMessage w n d o) (every_session P).
Proof.
  unfold handleChatMessage, handleTurtleSoupAIMessage, handleTurtleSoupMessage,
    processAIHostQuestion, endAIHostMode.
  every_steps ltac:(by auto).
Qed.

Lemma handleUserSetup_every w d :
  tri (every_session P) (handleUserSetup w d) (every_session P).
Proof.
  unfold handleUserSetup. rewrite userName_fits.
  set (userName := Utils.safeString _ 32 "").
  assert (userName ≠ "") as Hn.
  { apply safeString_nonempty; [apply name_or_anonymous_nonempty|lia]. }
  assert (String.length userName ≤ 32) as Hl by apply safeString_length.
  every_steps ltac:(by auto).
Qed.

Lemma webSocketMessage_every w d o :
  tri (every_session P) (webSocketMessage w d o) (every_session P).
Proof.
  unfold webSocketMessage.
  every_steps ltac:(by auto);
    first [ apply handleSpecialMessages_every | apply handleChatMessage_every
          | apply handleUserSetup_every ].
Qed.

Lemma closeOrErrorHandler_every w :
  tri (every_session P) (closeOrErrorHandler w) (every_session P).
Proof. unfold closeOrErrorHandler. every_steps ltac:(by auto). Qed.

Lemma fire_every t now : tri (every_session P) (fire t now) (every_session P).
Proof. destruct t; simpl; every_steps ltac:(by auto). Qed.

Hypothesis rested : ∀ w s, P w s → P w (with_inCooldown false s).
Hypothesis arriving : ∀ w q, P w (with_blocked q new_session).

Lemma step_every r e : every_session P r → every_session P (step r e).
Proof.
  intros Hr. destruct e as [|w d o|w|n now|w|w]; simpl.
  - intros w s [H|[= -> ->]%list_elem_of_singleton]%elem_of_app; [by apply Hr|].
    apply arriving.
  - by apply webSocketMessage_every.
  - by apply closeOrErrorHandler_every.
  - destruct (timers r !! n) as [t|]; [|done]. by apply fire_every.
  - revert Hr. generalize r.
    change (tri (every_session P)
              (modify (set_sessions (update_ws w (with_inCooldown false))))
              (every_session P)).
    apply update_every. intros s. apply rested.
  - exact Hr.
Qed.

Lemma reachable_every es : every_session P (steps es fresh).
Proof.
  assert (∀ r, every_session P r → every_session P (steps es r)) as H.
  { induction es as [|e es IH]; intros r Hr; simpl; [done|]. by apply IH, step_every. }
  apply H. by intros w s ?%elem_of_nil.
Qed.

End EverySession.

Lemma reachable_sessions (es : list event) :
  every_session (λ _ s, s_quit s = false ∧
                        ∀ n, s_name s = Some n → n ≠ "" ∧ String.length n ≤ 32)
    (steps es fresh).
Proof.
  apply reachable_every; try done.
  intros w s n Hn Hl [Hq _]. split; [done|]. by intros n' [= <-].
Qed.



(** *** The rate limiter's flag *)

Lemma lookup_ws_unique w s s' (l : list (ws * session)) :
  NoDup l.*1 → lookup_ws w l = Some s → (w, s') ∈ l → s' = s.
Proof.
  induction l as [|[w0 s0] l IH]; [by intros _ _ ?%elem_of_nil|].
  rewrite fmap_cons. intros [Hw0 Hl]%NoDup_cons. simpl. case_decide as E.
  - subst w0. intros [= ->] [[= ->]|H]%elem_of_cons; [done|].
    destruct Hw0. by apply (elem_of_keys _ s').
  - intros Hs [[= -> ->]|H]%elem_of_cons; [done|]. by apply IH.
Qed.

Lemma lookup_ws_None w s (l : list (ws * session)) :
  lookup_ws w l = None → (w, s) ∉ l.
Proof.
  induction l as [|[w0 s0] l IH]; simpl; [intros _; apply not_elem_of_nil|].
  case_decide as E; [done|]. intros H [[= -> ->]|Hin]%elem_of_cons; [done|].
  by apply IH.
Qed.

(** A message of [w] leaves the session of [w], where it is still in the
    map, with its limiter in cooldown. *)
Lemma webSocketMessage_cools w d o :
  tri (λ r, NoDup (sessions r).*1 ∧
            every_session (λ w' s, w' = w → s_quit s = false) r)
      (webSocketMessage w d o)
      (every_session (λ w' s, w' = w → s_inCooldown s = true)).
Proof.
  set (P := λ (w' : ws) (s : session), w' = w → s_inCooldown s = true).
  unfold webSocketMessage.
  apply (tri_try _ (every_session P)); [|done|apply sendError_every].
  apply tri_get. intros r0 [Hnd Hq].
  destruct (lookup_ws w (sessions r0)) as [s|] eqn:Hl.
  2:{ intros r -> w' s' Hin ->. simpl in Hin. by apply lookup_ws_None in Hin. }
  destruct (s_quit s) eqn:Hqs.
  { rewrite (Hq w s) in Hqs; [done|by apply elem_of_lookup_ws|done]. }
  apply (tri_bind _ (every_session P)); [|done|intros allowed].
  - intros r ->. unfold checkLimit, bind, get. rewrite Hl.
    destruct (s_inCooldown s) eqn:Hc; simpl.
    + intros w' s' Hin ->. by rewrite (lookup_ws_unique _ _ _ _ Hnd Hl Hin).
    + intros w' s' Hin ->.
      apply elem_of_update_ws_NoDup in Hin as [[? _]|(_ & s0 & _ & ->)]; done.
  - every_steps ltac:(by auto); first
      [ by apply handleSpecialMessages_every | by apply handleChatMessage_every
      | by apply handleUserSetup_every ].
Qed.

(** After a message of a socket, whatever it was, the next message of the
    same socket is turned down with the rate-limit notice and changes
    nothing else, until the limiter call of the first message is done. *)
Theorem next_message_is_rate_limited
    (es : list event) (w : ws) (d d' : option inbound) (o o' : oracle) :
  let r := step (steps es fresh) (Message w d o) in
  is_Some (lookup_ws w (sessions r)) →
  step r (Message w d' o') =
    if is_dead w r then r
    else emit [ESendError w "Your IP is being rate-limited, please try again later."] r.
Proof.
  intros r [s Hs].
  assert (s_inCooldown s = true) as Hc.
  { refine (webSocketMessage_cools w d o (steps es fresh) _ w s _ eq_refl);
      [|by apply elem_of_lookup_ws].
    split; [apply (reachable_Inv (steps es fresh)); by exists es|].
    intros w' s' Hin _. by apply (reachable_sessions es w' s'). }
  assert (s_quit s = false) as Hq.
  { apply (reachable_sessions (es ++ [Message w d o]) w s).
    unfold steps. rewrite foldl_app. by apply elem_of_lookup_ws. }
  simpl. unfold run, webSocketMessage, try_catch, bind at 1, get at 1.
  rewrite Hs, Hq. unfold bind at 1, checkLimit, bind at 1, get at 1.
  rewrite Hs, Hc. unfold ret, sendError. cbn [negb].
  by destruct (is_dead w r).
Qed.

Lemma next_message_is_rate_limited_witness :
  let r := step (steps [Connect] fresh)
             (Message 0 (Some (say_name "alice")) (at_time 1000)) in
  step r (Message 0 (Some (say_turn "hello")) (at_time 1001)) =
    if is_dead 0 r then r
    else emit [ESendError 0 "Your IP is being rate-limited, please try again later."] r.
Proof.
  apply (next_message_is_rate_limited [Connect] 0).
  vm_compute. by eexists.
Defined.

(** *** Closing a socket *)







(** *** Sessions on dead sockets *)







(** *** Views of the room behind the sessions *)

Section View.
Context {B : Type} (view : room → B) (Φ : B → Prop).
Hypothesis offstage : ∀ r r', backstage r' = backstage r → view r' = view r.

Lemma evolves_viewed r r' : evolves r r' → viewed view Φ r → viewed view Φ r'.
Proof. intros [E _]. unfold viewed. by rewrite (offstage r r' E). Qed.

Lemma broadcast_viewed m : tri (viewed view Φ) (broadcast m) (viewed view Φ).
Proof. intros r. apply evolves_viewed, broadcast_evolves. Qed.

Lemma send_viewed w m : tri (viewed view Φ) (send w m) (viewed view Φ).
Proof.
  intros r H. unfold send. case_match; simpl; [done|].
  unfold viewed. by rewrite (offstage r (emit [ESend w m] r)).
Qed.

Lemma sendError_viewed w t : tri (viewed view Φ) (sendError w t) (viewed view Φ).
Proof.
  intros r H. unfold sendError. case_match; simpl; [done|].
  unfold viewed. by rewrite (offstage r (emit [ESendError w t] r)).
Qed.

Lemma sendErrorToSession_viewed w t :
  tri (viewed view Φ) (sendErrorToSession w t) (viewed view Φ).
Proof.
  apply tri_get_any. intros r0. case_match; [apply sendError_viewed|apply tri_ret].
Qed.

Lemma sessions_viewed f : tri (viewed view Φ) (modify (set_sessions f)) (viewed view Φ).
Proof.
  apply tri_modify. intros r H. unfold viewed.
  by rewrite (offstage r (set_sessions f r)).
Qed.

Lemma checkLimit_viewed w : tri (viewed view Φ) (checkLimit w) (viewed view Φ).
Proof.
  apply tri_get_any. intros r0.
  case_match; [|apply tri_ret]. case_match; [apply tri_ret|].
  apply tri_seq; [|intros; apply tri_ret]. apply sessions_viewed.
Qed.

End View.

(** The view is of fields behind the sessions and the trace. *)
Ltac offstage :=
  let H := fresh in
  intros ? ? H; unfold backstage in H; injection H; intros;
  first [ congruence
        | lazymatch goal with |- ?view _ = _ => unfold view; congruence end ].

Ltac view_step_with leaf :=
  lazymatch goal with
  | |- tri _ (ret _) _ => apply tri_ret
  | |- tri _ throw _ => apply tri_throw
  | |- tri _ (bind get _) _ => apply tri_get_any; intros ?
  | |- tri _ (bind _ _) _ => apply tri_seq; [|intros ?]
  | |- tri _ (try_catch _ _) _ => apply tri_try_seq
  | |- tri _ (forEach _ _) _ => apply tri_forEach; intros ?
  | |- tri _ (broadcast _) _ => apply broadcast_viewed; offstage
  | |- tri _ (send _ _) _ => apply send_viewed; offstage
  | |- tri _ (sendErrorToSession _ _) _ => apply sendErrorToSession_viewed; offstage
  | |- tri _ (sendError _ _) _ => apply sendError_viewed; offstage
  | |- tri _ (checkLimit _) _ => apply checkLimit_viewed; offstage
  | |- tri _ (close _ _) _ => apply tri_modify; leaf
  | |- tri _ (storage_put _ _) _ => apply tri_modify; leaf
  | |- tri _ (saveGameState _) _ => apply tri_modify; leaf
  | |- tri _ (push_timer _) _ => apply tri_modify; leaf
  | |- tri _ (modify _) _ => apply tri_modify; leaf
  | |- tri _ (match _ with _ => _ end) _ => case_match
  end.

Ltac view_step := view_step_with kept.

Ltac view_steps := repeat view_step.

(** *** Timestamps and the message log *)



Section Log.
Context (Φ : Z * list (Z * omsg) → Prop).






End Log.







(** *** The score table *)

Lemma generateAIResponse_score random4 question :
  (4 ≤ hr_score (generateAIResponse random4 question) ≤ 7)%Z.
Proof.
  unfold generateAIResponse.
  destruct (includes "为什么" question || includes "怎么" question
            || includes "如何" question);
    [|destruct (includes "是否" question || includes "是不是" question
                || endsWith "吗？" question || endsWith "吗" question)];
    destruct (String.length question <? 5); simpl; lia.
Qed.

Lemma scores_ok_frame g g' :
  userScores g' = userScores g →
  turtleSoupParticipants g' = turtleSoupParticipants g →
  scores_ok g → scores_ok g'.
Proof. unfold scores_ok. by intros -> ->. Qed.

Ltac same_scores :=
  let H := fresh in
  intros ? H; unfold viewed in *; exact (scores_ok_frame _ _ eq_refl eq_refl H).

Ltac score_steps := repeat view_step_with same_scores.

Lemma startTurtleSoup_scores i ps now :
  tri (λ _, True) (startTurtleSoup i ps now) (viewed gs scores_ok).
Proof.
  unfold startTurtleSoup.
  apply (tri_bind _ (viewed gs scores_ok)); [|done|intros _; score_steps].
  apply tri_modify. intros r _. split; simpl.
  - intros n. rewrite initial_scores. case_bool_decide; [|rewrite lookup_empty].
    + split; [done|by eexists].
    + split; [by intros [? ?]|done].
  - intros n sc. rewrite initial_scores. case_bool_decide; [|by rewrite lookup_empty].
    intros [= <-]. simpl. lia.
Qed.

Lemma endAIHostMode_scores now :
  tri (viewed gs scores_ok) (endAIHostMode now) (viewed gs scores_ok).
Proof. unfold endAIHostMode. score_steps. Qed.

Lemma endTurtleSoup_scores now :
  tri (λ _, True) (endTurtleSoup now) (viewed gs scores_ok).
Proof.
  unfold endTurtleSoup.
  apply (tri_bind _ (viewed gs scores_ok)); [|done|intros _].
  - apply tri_modify. intros r _. split; simpl.
    + intros n. rewrite lookup_empty. split; [by intros [? ?]|by intros ?%elem_of_nil].
    + intros n sc. by rewrite lookup_empty.
  - score_steps. apply endAIHostMode_scores.
Qed.

Lemma handleSpecialMessages_scores w n d o :
  tri (viewed gs scores_ok) (handleSpecialMessages w n d o) (viewed gs scores_ok).
Proof.
  assert (∀ {A} (m : M A), tri (λ _, True) m (viewed gs scores_ok) →
            tri (viewed gs scores_ok) m (viewed gs scores_ok)) as Hany.
  { intros A m Hm. by eapply tri_weaken. }
  unfold handleSpecialMessages, handleTurtleSoupRequest,
    handleTurtleSoupConfirmation, handleTurtleSoupTurnChange,
    handleTurtleSoupEnd, handleTurtleSoupPuzzleSelected,
    handleAIHostRequest, handleAIHostEnd, ensureAIHost.
  score_steps;
    lazymatch goal with
    | |- tri _ (startTurtleSoup _ _ _) _ => apply Hany, startTurtleSoup_scores
    | |- tri _ (endTurtleSoup _) _ => apply Hany, endTurtleSoup_scores
    | |- tri _ (endAIHostMode _) _ => apply endAIHostMode_scores
    end.
Qed.

Lemma processAIHostQuestion_scores u q o :
  tri (viewed gs scores_ok) (processAIHostQuestion u q o) (viewed gs scores_ok).
Proof. unfold processAIHostQuestion. score_steps; apply endAIHostMode_scores. Qed.

Lemma updateUserScore_lookup name points (m : gmap string score) n :
  updateUserScore name points m !! n =
  if decide (n = name)
  then Some {| totalScore := (totalScore (default zero_score (m !! name)) + points)%Z;
               questionCount := (questionCount (default zero_score (m !! name)) + 1)%Z |}
  else m !! n.
Proof.
  unfold updateUserScore. case_decide as E.
  - subst n. destruct (m !! name) as [sc|] eqn:Hm.
    + by rewrite lookup_alter_eq, Hm.
    + by rewrite lookup_alter_eq, lookup_insert_eq.
  - destruct (m !! name) as [sc|] eqn:Hm.
    + by rewrite lookup_alter_ne.
    + by rewrite lookup_alter_ne, lookup_insert_ne.
Qed.

Lemma handleTurtleSoupMessage_scores n m o :
  tri (viewed gs scores_ok) (handleTurtleSoupMessage n m o) (viewed gs scores_ok).
Proof.
  intros r [Hdom Hval]. unfold handleTurtleSoupMessage, bind at 1, get at 1.
  case_bool_decide as Hp; [by split|].
  assert (turtleSoupParticipants (gs r) !! currentTurnIndex (gs r) = Some n) as Hn.
  { by destruct (decide (turtleSoupParticipants (gs r) !! currentTurnIndex (gs r)
                         = Some n)). }
  apply list_elem_of_lookup_2 in Hn.
  pose proof (generateAIResponse_score (random4 o) m) as Hscore.
  split; simpl.
  - intros k. rewrite updateUserScore_lookup. case_decide as E; [|apply Hdom].
    subst k. split; [done|by eexists].
  - intros k sc. rewrite updateUserScore_lookup. case_decide as E; [|apply Hval].
    intros [= <-]. simpl.
    destruct (userScores (gs r) !! n) as [sc0|] eqn:H0; simpl.
    + destruct (Hval n sc0 H0). lia.
    + lia.
Qed.

Lemma handleChatMessage_scores w n d o :
  tri (viewed gs scores_ok) (handleChatMessage w n d o) (viewed gs scores_ok).
Proof.
  unfold handleChatMessage, handleTurtleSoupAIMessage.
  score_steps; first
    [ apply processAIHostQuestion_scores | apply handleTurtleSoupMessage_scores ].
Qed.

Lemma step_scores r e : viewed gs scores_ok r → viewed gs scores_ok (step r e).
Proof.
  intros Hr. destruct e as [|w d o|w|n now|w|w]; simpl; try exact Hr.
  - revert Hr. generalize r.
    change (tri (viewed gs scores_ok) (webSocketMessage w d o) (viewed gs scores_ok)).
    unfold webSocketMessage, handleUserSetup.
    score_steps; first
      [ apply handleSpecialMessages_scores | apply handleChatMessage_scores ].
  - revert Hr. generalize r.
    change (tri (viewed gs scores_ok) (closeOrErrorHandler w) (viewed gs scores_ok)).
    unfold closeOrErrorHandler. score_steps.
  - destruct (timers r !! n) as [t|]; [|exact Hr].
    assert (tri (viewed gs scores_ok) (fire t now) (viewed gs scores_ok)) as Hfire.
    { destruct t; simpl; score_steps. }
    by apply Hfire.
Qed.

(** In every room that events have led to, the score table has an entry
    for exactly the participants of the game (none when no game runs), and
    every entry counts between 4 and 7 points for each of its questions:
    the range of the plain game's scoring, whose limits 1 and 10 are never
    reached. *)
Theorem scores_follow_participants (es : list event) :
  let g := gs (steps es fresh) in
  (∀ n, is_Some (userScores g !! n) ↔ n ∈ turtleSoupParticipants g) ∧
  ∀ n sc, userScores g !! n = Some sc →
    (0 ≤ questionCount sc)%Z ∧
    (4 * questionCount sc ≤ totalScore sc ≤ 7 * questionCount sc)%Z.
Proof.
  intros g. subst g.
  assert (∀ r, viewed gs scores_ok r → viewed gs scores_ok (steps es r)) as H.
  { induction es as [|e es IH]; intros r Hr; simpl; [done|]. by apply IH, step_scores. }
  apply (H fresh). split; simpl.
  - intros n. rewrite lookup_empty. split; [by intros [? ?]|by intros ?%elem_of_nil].
  - intros n sc. by rewrite lookup_empty.
Qed.

(** *** The turn order *)


(** *** The end of a game *)

Lemma active_kept_by_start i ps now :
  tri (viewed gs (λ g, turtleSoupActive g = true)) (startTurtleSoup i ps now)
      (viewed gs (λ g, turtleSoupActive g = true)).
Proof.
  unfold startTurtleSoup.
  apply tri_seq; [by apply tri_modify|intros _]. view_steps.
Qed.

Lemma active_kept_by_chat w n d o :
  tri (viewed gs (λ g, turtleSoupActive g = true)) (handleChatMessage w n d o)
      (viewed gs (λ g, turtleSoupActive g = true)).
Proof.
  unfold handleChatMessage, handleTurtleSoupAIMessage, handleTurtleSoupMessage,
    processAIHostQuestion, endAIHostMode.
  view_steps.
Qed.

Lemma active_kept_by_setup w d :
  tri (viewed gs (λ g, turtleSoupActive g = true)) (handleUserSetup w d)
      (viewed gs (λ g, turtleSoupActive g = true)).
Proof. unfold handleUserSetup. view_steps. Qed.

(** The special messages other than the end of the game. *)
Lemma active_kept_by_others w n d o :
  d_turtleSoupEnd d = false →
  tri (viewed gs (λ g, turtleSoupActive g = true)) (handleSpecialMessages w n d o)
      (viewed gs (λ g, turtleSoupActive g = true)).
Proof.
  intros Hd.
  unfold handleSpecialMessages, handleTurtleSoupRequest,
    handleTurtleSoupConfirmation, handleTurtleSoupTurnChange,
    handleTurtleSoupPuzzleSelected,
    handleAIHostRequest, handleAIHostEnd, endAIHostMode, ensureAIHost.
  rewrite Hd.
  view_steps; apply active_kept_by_start.
Qed.

Lemma active_kept_by_stranger w n d o r :
  turtleSoupActive (gs r) = true →
  Some n ≠ turtleSoupInitiator (gs r) →
  turtleSoupActive (gs (snd (handleSpecialMessages w n d o r))) = true.
Proof.
  intros Ha Hn.
  destruct (d_turtleSoupEnd d) eqn:Hd; [|by apply (active_kept_by_others w n d o Hd r)].
  assert (tri (viewed gs (λ g, turtleSoupActive g = true))
              (handleTurtleSoupRequest w d ;; ret true)
              (viewed gs (λ g, turtleSoupActive g = true))) as H1.
  { unfold handleTurtleSoupRequest. view_steps. }
  assert (tri (viewed gs (λ g, turtleSoupActive g = true))
              (handleTurtleSoupConfirmation d (Date_now o) ;; ret true)
              (viewed gs (λ g, turtleSoupActive g = true))) as H2.
  { unfold handleTurtleSoupConfirmation. view_steps. apply active_kept_by_start. }
  assert (tri (viewed gs (λ g, turtleSoupActive g = true))
              (handleTurtleSoupTurnChange n d ;; ret true)
              (viewed gs (λ g, turtleSoupActive g = true))) as H3.
  { unfold handleTurtleSoupTurnChange. view_steps. }
  unfold handleSpecialMessages. rewrite Hd.
  destruct (d_turtleSoupRequest d); [by apply H1|].
  destruct (d_turtleSoupConfirm d); [by apply H2|].
  destruct (d_turtleSoupTurnChange d); [by apply H3|].
  unfold bind at 1, handleTurtleSoupEnd, bind at 1, get at 1.
  rewrite Ha, (bool_decide_eq_true_2 _ Hn). done.
Qed.

(** A running game is not ended by any event other than a message tagged
    as the end of the game and sent from a session that has the name of
    the game's initiator. *)
Theorem only_the_initiator_ends_the_game (r : room) (e : event) :
  turtleSoupActive (gs r) = true →
  turtleSoupActive (gs (step r e)) = false →
  ∃ w data o s,
    e = Message w (Some data) o ∧ lookup_ws w (sessions r) = Some s ∧
    named s = true ∧ s_name s = turtleSoupInitiator (gs r) ∧
    d_turtleSoupEnd data = true.
Proof.
  set (Φ := λ g : game, turtleSoupActive g = true).
  intros Ha He.
  destruct e as [|w d o|w|n now|w|w]; simpl in He; try congruence.
  - destruct d as [data|].
    2:{ assert (tri (viewed gs Φ) (webSocketMessage w None o) (viewed gs Φ)) as H.
        { unfold webSocketMessage. view_steps. }
        rewrite (H r Ha) in He. done. }
    destruct (lookup_ws w (sessions r)) as [s|] eqn:Hs.
    2:{ unfold run, webSocketMessage, try_catch, bind, get in He.
        rewrite Hs in He. simpl in He. congruence. }
    destruct (named s) eqn:Hn.
    2:{ assert (tri (λ r', r' = r) (webSocketMessage w (Some data) o) (viewed gs Φ))
          as H.
        { unfold webSocketMessage.
          apply (tri_try _ (viewed gs Φ)); [|done|apply sendError_viewed; offstage].
          apply tri_get. intros r0 ->. rewrite Hs, Hn.
          apply (tri_weaken _ (viewed gs Φ) _ (viewed gs Φ)); [|by intros ? ->|done].
          view_steps; apply active_kept_by_setup. }
        rewrite (H r eq_refl) in He. done. }
    destruct (s_name s) as [name|] eqn:Hname; [|by unfold named in Hn; rewrite Hname in Hn].
    destruct (decide (Some name = turtleSoupInitiator (gs r))) as [Hi|Hi];
      [destruct (d_turtleSoupEnd data) eqn:Hd|].
    + exists w, data, o, s. split_and!; [done..|congruence|done].
    + assert (tri (viewed gs Φ) (webSocketMessage w (Some data) o) (viewed gs Φ)) as H.
      { unfold webSocketMessage.
        view_steps;
          lazymatch goal with
          | |- tri _ (handleSpecialMessages _ _ _ _) _ => by apply active_kept_by_others
          | |- tri _ (handleChatMessage _ _ _ _) _ => apply active_kept_by_chat
          | |- tri _ (handleUserSetup _ _) _ => apply active_kept_by_setup
          end. }
      rewrite (H r Ha) in He. done.
    + assert (tri (λ r', r' = r) (webSocketMessage w (Some data) o) (viewed gs Φ))
        as H.
      { unfold webSocketMessage.
        apply (tri_try _ (viewed gs Φ)); [|done|apply sendError_viewed; offstage].
        apply tri_get. intros r0 ->. rewrite Hs, Hname, Hn.
        destruct (s_quit s); [intros ? ->; exact Ha|].
        apply (tri_bind _ (λ r', gs r' = gs r)); [|intros r' E; unfold viewed, Φ; by rewrite E|].
        { intros r' ->. unfold checkLimit, bind, get. rewrite Hs.
          by destruct (s_inCooldown s). }
        intros allowed. destruct (negb allowed).
        { apply (tri_weaken _ (viewed gs Φ) _ (viewed gs Φ));
            [|intros r' E; unfold viewed, Φ; by rewrite E|done].
          apply sendError_viewed. offstage. }
        apply (tri_bind _ (viewed gs Φ)); [|done|].
        { intros r' E. apply active_kept_by_stranger; by rewrite E. }
        intros []; [apply tri_ret|apply active_kept_by_chat]. }
      rewrite (H r eq_refl) in He. done.
  - assert (tri (viewed gs Φ) (closeOrErrorHandler w) (viewed gs Φ)) as H.
    { unfold closeOrErrorHandler. view_steps. }
    unfold run in He. rewrite (H r Ha) in He. done.
  - destruct (timers r !! n) as [t|]; [|congruence].
    assert (tri (viewed gs Φ) (fire t now) (viewed gs Φ)) as H.
    { destruct t; simpl; view_steps. }
    unfold run in He. rewrite (H (set_timers (delete n) r) Ha) in He. done.
Qed.

Lemma only_the_initiator_ends_the_game_witness :
  ∃ w data o s,
    Message 0 (Some say_end) (at_time 1005) = Message w (Some data) o ∧
    lookup_ws w (sessions (steps two_players_active fresh)) = Some s ∧
    named s = true ∧
    s_name s = turtleSoupInitiator (gs (steps two_players_active fresh)) ∧
    d_turtleSoupEnd data = true.
Proof.
  apply (only_the_initiator_ends_the_game (steps two_players_active fresh)
           (Message 0 (Some say_end) (at_time 1005)));
    vm_compute; reflexivity.
Defined.




(** *** What the log holds *)





(** *** Tickets and their timeouts *)














(** *** The end of the AI host mode *)

(** Changes of the game that leave the AI host mode on or switch it on. *)
Ltac mode_on :=
  first [ kept | intros ? ?; reflexivity ].

Ltac mode_steps := repeat view_step_with mode_on.

Lemma mode_kept_by_question u q o :
  (∀ ok, processQuestion o ≠ AISolved ok) →
  tri (viewed gs (λ g, aiHostActive g = true)) (processAIHostQuestion u q o)
      (viewed gs (λ g, aiHostActive g = true)).
Proof.
  intros Hns. unfold processAIHostQuestion.
  destruct (processQuestion o) as [message|ok|formatted] eqn:E;
    [|by destruct (Hns ok)|]; mode_steps.
Qed.

Lemma mode_kept_by_chat w n d o :
  (∀ ok, processQuestion o ≠ AISolved ok) →
  tri (viewed gs (λ g, aiHostActive g = true)) (handleChatMessage w n d o)
      (viewed gs (λ g, aiHostActive g = true)).
Proof.
  intros Hns.
  unfold handleChatMessage, handleTurtleSoupAIMessage, handleTurtleSoupMessage.
  mode_steps; by apply mode_kept_by_question.
Qed.

Lemma mode_kept_by_setup w d :
  tri (viewed gs (λ g, aiHostActive g = true)) (handleUserSetup w d)
      (viewed gs (λ g, aiHostActive g = true)).
Proof. unfold handleUserSetup. mode_steps. Qed.

Lemma mode_kept_by_special w n d o r :
  aiHostActive (gs r) = true →
  ¬ (d_aiHostEnd d = true ∧ aiHostInitiator (gs r) = Some n) →
  ¬ (d_turtleSoupEnd d = true ∧ turtleSoupActive (gs r) = true ∧
     turtleSoupInitiator (gs r) = Some n) →
  tri (λ r', gs r' = gs r) (handleSpecialMessages w n d o)
      (viewed gs (λ g, aiHostActive g = true)).
Proof.
  intros Ha Hend Hsoup.
  set (Φ := λ g : game, aiHostActive g = true).
  assert (∀ m : M bool, tri (viewed gs Φ) m (viewed gs Φ) →
                        tri (λ r', gs r' = gs r) m (viewed gs Φ)) as Hany.
  { intros m Hm. eapply tri_weaken; [exact Hm| |done].
    intros r' E. unfold viewed, Φ. by rewrite E. }
  unfold handleSpecialMessages.
  destruct (d_turtleSoupRequest d).
  { apply Hany. unfold handleTurtleSoupRequest. mode_steps. }
  destruct (d_turtleSoupConfirm d).
  { apply Hany. unfold handleTurtleSoupConfirmation, startTurtleSoup. mode_steps. }
  destruct (d_turtleSoupTurnChange d).
  { apply Hany. unfold handleTurtleSoupTurnChange. mode_steps. }
  destruct (d_turtleSoupEnd d).
  { intros r' E. unfold bind at 1, handleTurtleSoupEnd, bind at 1, get at 1.
    rewrite E.
    destruct (turtleSoupActive (gs r)) eqn:Hact; simpl; [|by unfold viewed, Φ; rewrite E].
    rewrite bool_decide_eq_true_2; [by unfold viewed, Φ; simpl; rewrite E|].
    intros Hn. apply Hsoup. by split_and!. }
  destruct (d_turtleSoupPuzzleSelected d).
  { apply Hany. unfold handleTurtleSoupPuzzleSelected, ensureAIHost. mode_steps. }
  destruct (d_aiHostRequest d).
  { apply Hany. unfold handleAIHostRequest, ensureAIHost. mode_steps. }
  destruct (d_aiHostEnd d).
  { intros r' E. unfold bind at 1, handleAIHostEnd, bind at 1, get at 1.
    rewrite E, Ha. simpl.
    rewrite bool_decide_eq_true_2 by (intros Hn; by apply Hend).
    assert (tri (viewed gs Φ) (sendErrorToSession w "只有发起人可以结束游戏")
                (viewed gs Φ)) as H by (apply sendErrorToSession_viewed; offstage).
    unfold bind. specialize (H r'). destruct (sendErrorToSession _ _ r') as [[[]|] r''];
      apply H; unfold viewed, Φ; by rewrite E. }
  intros r' E. simpl. unfold viewed, Φ. by rewrite E.
Qed.

(** The AI host mode, once it is on, is switched off by a message of a
    named session only, and in one of three ways: the message asks for
    the end of the AI host mode and the session has the name of its
    initiator; or it asks for the end of the game while a game runs and
    the session has the name of the game's initiator; or the host finds
    the game solved.  No other event ends the mode. *)
Theorem ai_host_mode_ends_in_three_ways (r : room) (e : event) :
  aiHostActive (gs r) = true →
  aiHostActive (gs (step r e)) = false →
  ∃ w data o s name,
    e = Message w (Some data) o ∧ lookup_ws w (sessions r) = Some s ∧
    named s = true ∧ s_name s = Some name ∧
    ((d_aiHostEnd data = true ∧ aiHostInitiator (gs r) = Some name) ∨
     (d_turtleSoupEnd data = true ∧ turtleSoupActive (gs r) = true ∧
      turtleSoupInitiator (gs r) = Some name) ∨
     (∃ ok, processQuestion o = AISolved ok)).
Proof.
  set (Φ := λ g : game, aiHostActive g = true).
  intros Ha He.
  destruct e as [|w d o|w|n now|w|w]; simpl in He; try congruence.
  - destruct d as [data|].
    2:{ assert (tri (viewed gs Φ) (webSocketMessage w None o) (viewed gs Φ)) as H.
        { unfold webSocketMessage. mode_steps. }
        unfold run in He. rewrite (H r Ha) in He. done. }
    destruct (lookup_ws w (sessions r)) as [s|] eqn:Hs.
    2:{ unfold run, webSocketMessage, try_catch, bind, get in He.
        rewrite Hs in He. simpl in He. congruence. }
    destruct (named s) eqn:Hn.
    2:{ assert (tri (λ r', r' = r) (webSocketMessage w (Some data) o) (viewed gs Φ))
          as H.
        { unfold webSocketMessage.
          apply (tri_try _ (viewed gs Φ)); [|done|apply sendError_viewed; offstage].
          apply tri_get. intros r0 ->. rewrite Hs, Hn.
          apply (tri_weaken _ (viewed gs Φ) _ (viewed gs Φ)); [|by intros ? ->|done].
          mode_steps; apply mode_kept_by_setup. }
        unfold run in He. rewrite (H r eq_refl) in He. done. }
    destruct (s_name s) as [name|] eqn:Hname; [|by unfold named in Hn; rewrite Hname in Hn].
    exists w, data, o, s, name. split_and!; [done..|].
    destruct (decide (d_aiHostEnd data = true ∧ aiHostInitiator (gs r) = Some name))
      as [|Hend]; [by left|].
    destruct (decide (d_turtleSoupEnd data = true ∧ turtleSoupActive (gs r) = true ∧
                      turtleSoupInitiator (gs r) = Some name)) as [|Hsoup];
      [by right; left|].
    destruct (processQuestion o) as [message|ok|formatted] eqn:Hq;
      [|by right; right; exists ok|]; exfalso.
    all: assert (∀ ok, processQuestion o ≠ AISolved ok) as Hns by (by rewrite Hq).
    all: assert (tri (λ r', r' = r) (webSocketMessage w (Some data) o) (viewed gs Φ))
           as H;
      [ unfold webSocketMessage;
        apply (tri_try _ (viewed gs Φ)); [|done|apply sendError_viewed; offstage];
        apply tri_get; intros r0 ->; rewrite Hs, Hname, Hn;
        destruct (s_quit s); [intros ? ->; exact Ha|];
        apply (tri_bind _ (λ r', gs r' = gs r));
          [ intros r' ->; unfold checkLimit, bind, get; rewrite Hs;
            by destruct (s_inCooldown s)
          | intros r' E; unfold viewed, Φ; by rewrite E
          | ];
        intros allowed; destruct (negb allowed);
          [ apply (tri_weaken _ (viewed gs Φ) _ (viewed gs Φ));
              [|intros r' E; unfold viewed, Φ; by rewrite E|done];
            apply sendError_viewed; offstage
          | ];
        apply (tri_bind _ (viewed gs Φ)); [by apply mode_kept_by_special|done|];
        intros []; [apply tri_ret|by apply mode_kept_by_chat]
      | unfold run in He; rewrite (H r eq_refl) in He; done ].
  - assert (tri (viewed gs Φ) (closeOrErrorHandler w) (viewed gs Φ)) as H.
    { unfold closeOrErrorHandler. mode_steps. }
    unfold run in He. rewrite (H r Ha) in He. done.
  - destruct (timers r !! n) as [t|]; [|congruence].
    assert (tri (viewed gs Φ) (fire t now) (viewed gs Φ)) as H.
    { destruct t; simpl; mode_steps. }
    unfold run in He. rewrite (H (set_timers (delete n) r) Ha) in He. done.
Qed.

Lemma ai_host_mode_ends_in_three_ways_witness :
  ∃ w data o s name,
    Message 0 (Some say_host_end) (at_time 1002) = Message w (Some data) o ∧
    lookup_ws w (sessions (steps host_mode_on fresh)) = Some s ∧
    named s = true ∧ s_name s = Some name ∧
    ((d_aiHostEnd data = true ∧
      aiHostInitiator (gs (steps host_mode_on fresh)) = Some name) ∨
     (d_turtleSoupEnd data = true ∧
      turtleSoupActive (gs (steps host_mode_on fresh)) = true ∧
      turtleSoupInitiator (gs (steps host_mode_on fresh)) = Some name) ∨
     (∃ ok, processQuestion o = AISolved ok)).
Proof.
  apply (ai_host_mode_ends_in_three_ways (steps host_mode_on fresh)
           (Message 0 (Some say_host_end) (at_time 1002)));
    vm_compute; reflexivity.
Defined.

End RoomFacts.

(** ** lib/utils.mjs *)

Module UtilsFacts.
Import Utils.

Section UniqueArray.
Context {A K : Type} `{EqDecision K} (keyFn : A → K).

Lemma filter_unseen_spec seen l :
  NoDup (keyFn <$> filter_unseen keyFn seen l) ∧
  filter_unseen keyFn seen l `sublist_of` l ∧
  (∀ k, k ∈ keyFn <$> filter_unseen keyFn seen l → k ∉ seen) ∧
  (∀ x, x ∈ l → keyFn x ∈ seen ∨ keyFn x ∈ keyFn <$> filter_unseen keyFn seen l).
Proof.
  revert seen. induction l as [|x l IH]; intros seen; simpl.
  - split_and!; [apply NoDup_nil_2|done|by intros k ?%elem_of_nil
                |by intros x ?%elem_of_nil].
  - case_bool_decide as Hx.
    + destruct (IH seen) as (Hn & Hs & Hk & Hc). split_and!; [done| |done|].
      * by apply sublist_cons.
      * intros y [->|Hy]%elem_of_cons; [by left|by apply Hc].
    + destruct (IH (keyFn x :: seen)) as (Hn & Hs & Hk & Hc).
      rewrite fmap_cons. split_and!.
      * apply NoDup_cons. split; [|done]. intros Hin.
        apply (Hk _ Hin). by left.
      * by apply sublist_skip.
      * intros k [->|Hin]%elem_of_cons; [done|].
        intros ?. apply (Hk _ Hin). by right.
      * intros y [->|Hy]%elem_of_cons; [right; by left|].
        destruct (Hc y Hy) as [[->|?]%elem_of_cons|?];
          [right; by left|by left|right; by right].
Qed.

Lemma filter_unseen_again seen l :
  filter_unseen keyFn seen (filter_unseen keyFn seen l) = filter_unseen keyFn seen l.
Proof.
  revert seen. induction l as [|x l IH]; intros seen; simpl; [done|].
  case_bool_decide as Hx; [apply IH|].
  simpl. rewrite bool_decide_eq_false_2 by done. by rewrite IH.
Qed.

(** uniqueArray with a key function keeps the items in their order and
    drops an item exactly when its key was met before: the keys of the
    result are pairwise distinct, every key of the array is the key of a
    kept item, and a second pass changes nothing.  What is not an array
    gives the empty array. *)
Theorem uniqueArray_one_item_per_key (l : list A) :
  let result := uniqueArray (Some l) keyFn in
  NoDup (keyFn <$> result) ∧
  result `sublist_of` l ∧
  (∀ x, x ∈ l → keyFn x ∈ keyFn <$> result) ∧
  (∀ pre x post, l = pre ++ x :: post → (keyFn x ∉ keyFn <$> pre) →
     x ∈ result) ∧
  uniqueArray (Some result) keyFn = result ∧
  uniqueArray None keyFn = [].
Proof.
  simpl. destruct (filter_unseen_spec [] l) as (Hn & Hs & _ & Hc).
  split_and!; [done|done| | |apply filter_unseen_again|done].
  - intros x Hx. destruct (Hc x Hx) as [?%elem_of_nil|?]; done.
  - intros pre x post -> Hpre.
    assert (∀ seen, keyFn x ∉ seen →
              x ∈ filter_unseen keyFn seen (pre ++ x :: post)) as H.
    { clear Hn Hs Hc. induction pre as [|y pre IH]; intros seen Hseen; simpl.
      - rewrite bool_decide_eq_false_2 by done. by left.
      - rewrite fmap_cons in Hpre. apply not_elem_of_cons in Hpre as [Hy Hpre].
        case_bool_decide; [by apply IH|]. right. apply IH; [done|].
        by apply not_elem_of_cons. }
    apply H, not_elem_of_nil.
Qed.

End UniqueArray.

Lemma Math_max_l a b :
  isNaN a = false → isNaN b = false → number_le a (Math_max a b).
Proof.
  destruct a, b; simpl; intros; try done; try apply Qle_refl. apply Q.le_max_l.
Qed.

Lemma Math_max_number a b :
  isNaN a = false → isNaN b = false → isNaN (Math_max a b) = false.
Proof. by destruct a, b. Qed.

Lemma Math_min_l a b :
  isNaN a = false → isNaN b = false → number_le (Math_min a b) a.
Proof.
  destruct a, b; simpl; intros; try done; try apply Qle_refl. apply Q.le_min_l.
Qed.

Lemma Math_min_glb a b c :
  number_le c a → number_le c b → number_le c (Math_min a b).
Proof.
  destruct a, b, c; simpl; intros; try done. by apply Q.min_glb.
Qed.

Lemma number_le_number a b : number_le a b → isNaN a = false ∧ isNaN b = false.
Proof. by destruct a, b. Qed.

(** safeNumber gives the default for what is not a number, without
    clamping it; a number comes back within [min] and [max] when these are
    numbers in this order, unchanged when it is already between them; and
    when [min] is above [max], the result is [max]. *)
Theorem safeNumber_clamps (num defaultValue min max : number) :
  (isNaN num = true → safeNumber num defaultValue min max = defaultValue) ∧
  (isNaN num = false → number_le min max →
     number_le min (safeNumber num defaultValue min max) ∧
     number_le (safeNumber num defaultValue min max) max) ∧
  (number_le min num → number_le num max →
     match num, safeNumber num defaultValue min max with
     | Finite p, Finite q => (p == q)%Q
     | a, b => a = b
     end) ∧
  (isNaN num = false → number_le max min →
     match max, safeNumber num defaultValue min max with
     | Finite p, Finite q => (p == q)%Q
     | a, b => a = b
     end).
Proof.
  unfold safeNumber. split_and!.
  - by intros ->.
  - intros Hn Hle. rewrite Hn. destruct (number_le_number _ _ Hle) as [Hlo Hhi].
    split.
    + apply Math_min_glb; [done|by apply Math_max_l].
    + apply Math_min_l; [done|by apply Math_max_number].
  - intros Hlo Hhi.
    destruct num as [| |x|], min as [| |lo|], max as [| |hi|]; simpl in *;
      try done; try reflexivity.
    + symmetry. by apply Q.min_r.
    + rewrite Q.max_r by done. symmetry. by apply Q.min_r.
    + symmetry. by apply Q.max_r.
  - intros Hn Hle. rewrite Hn.
    destruct num as [| |x|], min as [| |lo|], max as [| |hi|]; simpl in *;
      try done; try reflexivity.
    + symmetry. by apply Q.min_l.
    + symmetry. apply Q.min_l. eapply Qle_trans; [exact Hle|apply Q.le_max_l].
Qed.

Lemma safeNumber_clamps_witness :
  number_le (Finite 0) (safeNumber (Finite 150) (Finite 0) (Finite 0) (Finite 100)) ∧
  number_le (safeNumber (Finite 150) (Finite 0) (Finite 0) (Finite 100)) (Finite 100).
Proof.
  apply (proj1 (proj2 (safeNumber_clamps (Finite 150) (Finite 0) (Finite 0)
                         (Finite 100)))); [reflexivity|].
  simpl. discriminate.
Defined.

End UtilsFacts.

(** ** The AI host's session *)

Module AIHostSessionFacts.
Import AIHost AIHostFacts AIHostSession.
Local Open Scope Z_scope.

Lemma Math_round_range lo hi x :
  in_range lo hi x = true → lo <= Math_round x <= hi.
Proof.
  unfold in_range, Math_round.
  intros [Hlo Hhi]%andb_prop. apply Qle_bool_iff in Hlo, Hhi. split.
  - rewrite <- (Qfloor_Z lo). apply Qfloor_resp_le.
    eapply Qle_trans; [exact Hlo|].
    rewrite <- (Qplus_0_r x) at 1. apply Qplus_le_r. discriminate.
  - pose proof (Qfloor_le (x + (1 # 2))) as Hf.
    destruct (Z_le_gt_dec (Qfloor (x + (1 # 2))) hi) as [|Hgt]; [done|exfalso].
    assert (inject_Z (hi + 1) <= inject_Z (Qfloor (x + (1 # 2))))%Q as Hz.
    { rewrite <- Zle_Qle. lia. }
    rewrite inject_Z_plus in Hz.
    assert (inject_Z hi + 1 <= inject_Z hi + (1 # 2))%Q as Habs.
    { eapply Qle_trans; [exact Hz|]. eapply Qle_trans; [exact Hf|].
      by apply Qplus_le_l. }
    apply Qplus_le_r in Habs. apply Habs. reflexivity.
Qed.

Lemma validateResponse_score p : 1 <= r_score (validateResponse p) <= 10.
Proof.
  unfold validateResponse; simpl. destruct (p_score p) as [s|]; [|lia].
  destruct (in_range 1 10 s) eqn:E; [|lia]. by apply Math_round_range.
Qed.


Section Scores.
Variable cfg : config.
Hypothesis penalty : repetitionPenalty cfg <= 0.
Hypothesis bonus : 0 <= creativityBonus cfg.

Lemma applyGameLogic_score s f r :
  1 <= r_score r <= 10 → 1 <= r_score (applyGameLogic cfg s f r) <= 10.
Proof.
  intros Hr. unfold applyGameLogic.
  destruct (isDuplicate f), (isCreativeQuestion f); simpl; lia.
Qed.

Lemma processAIResponse_score s f l :
  1 <= r_score (processAIResponse cfg s f l) <= 10.
Proof.
  destruct l as [p|]; simpl; [|lia].
  apply applyGameLogic_score, validateResponse_score.
Qed.

End Scores.

Section Counters.
Variable cfg : config.

Lemma validateGameState_counters n s q :
  counters_ok cfg n s →
  counters_ok cfg n (snd (validateGameState cfg s q)) ∧
  (fst (validateGameState cfg s q) = true →
     questionCount s < maxQuestionsPerRound cfg ∧
     snd (validateGameState cfg s q) = s).
Proof.
  intros Hs. unfold validateGameState.
  destruct (negb (isActive s)); [done|].
  destruct (maxQuestionsPerRound cfg <=? questionCount s) eqn:E; [done|].
  apply Z.leb_gt in E.
  destruct (q_timedOut q); simpl; [done|]. split; [done|]. by intros _.
Qed.

Lemma processQuestion_counters n s q :
  counters_ok cfg n s → counters_ok cfg (n + 1) (snd (processQuestion cfg s q)).
Proof.
  intros Hs.
  assert (counters_ok cfg (n + 1) s) as Hs'.
  { destruct Hs as (? & ? & ? & ? & ?). unfold counters_ok. lia. }
  unfold processQuestion. destruct (q_valid q); simpl; [|done].
  destruct (validateGameState_counters n s q Hs) as [Hv Hok].
  destruct (validateGameState cfg s q) as [ok s1]; simpl in *.
  destruct ok; simpl.
  2:{ destruct Hv as (? & ? & ? & ? & ?). unfold counters_ok. lia. }
  destruct (Hok eq_refl) as [Hlt ->].
  destruct Hs as (Hc & Hn & Hh & Hp & Hp100).
  assert (0 <= progress s <= 100) as Hp' by lia.
  pose proof (processAIResponse_progress cfg s (q_facts q) (q_llm q) Hp')
    as [Hr1 Hr2].
  unfold counters_ok, updateGameState; simpl. split_and!; try lia.
  - destruct (r_hint _) as [h|]; [destruct (decide (h = ""))|]; lia.
  - destruct (r_hint _) as [h|]; [destruct (decide (h = ""))|]; lia.
Qed.

Lemma play_counters qs : counters_ok cfg (Z.of_nat (length qs)) (play cfg qs).
Proof.
  unfold play. rewrite <- fold_left_rev_right.
  rewrite <- (length_rev qs). induction (rev qs) as [|q l IH]; simpl.
  - unfold counters_ok; simpl. lia.
  - replace (Z.of_nat (S (length l))) with (Z.of_nat (length l) + 1) by lia.
    by apply processQuestion_counters.
Qed.

End Counters.

Section Totals.
Variable cfg : config.
Hypothesis penalty : repetitionPenalty cfg <= 0.
Hypothesis bonus : 0 <= creativityBonus cfg.

Lemma processQuestion_total s q :
  questionCount s <= totalScore s <= 10 * questionCount s →
  questionCount (snd (processQuestion cfg s q))
    <= totalScore (snd (processQuestion cfg s q))
    <= 10 * questionCount (snd (processQuestion cfg s q)).
Proof.
  intros Hs. unfold processQuestion. destruct (q_valid q); simpl; [|done].
  unfold validateGameState.
  destruct (negb (isActive s)); simpl; [done|].
  destruct (maxQuestionsPerRound cfg <=? questionCount s); simpl; [done|].
  destruct (q_timedOut q); simpl; [done|].
  pose proof (processAIResponse_score cfg penalty bonus s (q_facts q) (q_llm q)).
  lia.
Qed.

Lemma play_total qs :
  questionCount (play cfg qs) <= totalScore (play cfg qs)
    <= 10 * questionCount (play cfg qs).
Proof.
  unfold play. rewrite <- fold_left_rev_right.
  induction (rev qs) as [|q l IH]; simpl; [lia|]. by apply processQuestion_total.
Qed.

End Totals.



(** The progress can rise by 15 with each answered question at most, and
    the game counts as solved from 95 on: the question that solves a game
    comes after six answered questions at least. *)
Theorem no_solution_before_the_seventh_question
    (cfg : config) (qs : list question) (q : question) (r : response) :
  fst (processQuestion cfg (play cfg qs) q) = Some r →
  checkIfSolved r = true →
  6 <= questionCount (play cfg qs).
Proof.
  intros Hr Hsolved.
  destruct (play_counters cfg qs) as (_ & _ & _ & Hp & Hp100).
  unfold checkIfSolved, solution_ready in Hsolved. apply Z.leb_le in Hsolved.
  revert Hr. unfold processQuestion. destruct (q_valid q); simpl; [|done].
  unfold validateGameState.
  destruct (negb (isActive _)); simpl; [done|].
  destruct (_ <=? _); simpl; [done|].
  destruct (q_timedOut q); simpl; [done|].
  intros [= <-].
  assert (0 <= progress (play cfg qs) <= 100) as Hp' by lia.
  pose proof (processAIResponse_progress cfg (play cfg qs) (q_facts q) (q_llm q) Hp').
  lia.
Qed.

Lemma no_solution_before_the_seventh_question_witness :
  6 <= questionCount (play DEFAULT_AI_CONFIG (replicate 6 eager_reply)).
Proof.
  refine (no_solution_before_the_seventh_question DEFAULT_AI_CONFIG
            (replicate 6 eager_reply) eager_reply _ eq_refl _).
  vm_compute; reflexivity.
Defined.

Lemma ratio_range (a b lo hi : Z) :
  0 < b → lo * b <= a <= hi * b →
  (inject_Z lo <= inject_Z a / inject_Z b <= inject_Z hi)%Q.
Proof.
  intros Hb [Hlo Hhi].
  assert (0 < inject_Z b)%Q as Hb' by (by rewrite <- (Zlt_Qlt 0)).
  split.
  - apply Qle_shift_div_l; [done|]. rewrite <- inject_Z_mult. by rewrite <- Zle_Qle.
  - apply Qle_shift_div_r; [done|]. rewrite <- inject_Z_mult. by rewrite <- Zle_Qle.
Qed.

(** The efficiency that the statistics of a game report, after any
    questions, when the repetition penalty is not positive and the
    creativity bonus not negative: it is 0 as long as no question has been
    answered and lies between 4 and 49 from then on; it never comes near
    100. *)
Theorem efficiency_is_between_4_and_49 (cfg : config) (qs : list question) :
  repetitionPenalty cfg <= 0 → 0 <= creativityBonus cfg →
  let s := play cfg qs in
  if questionCount s =? 0 then calculateEfficiency s = 0%Q
  else (4 <= calculateEfficiency s <= 49)%Q.
Proof.
  intros Hpen Hbon s. unfold calculateEfficiency.
  destruct (play_counters cfg qs) as ([Hq _] & _ & _ & Hp & _).
  pose proof (play_total cfg Hpen Hbon qs) as Ht. fold s in Hq, Hp, Ht.
  destruct (Z.eqb_spec (questionCount s) 0) as [|Hne]; [done|].
  destruct (ratio_range (progress s) (questionCount s) 0 15) as [Hp1 Hp2]; [lia..|].
  destruct (ratio_range (totalScore s) (questionCount s) 1 10) as [Ht1 Ht2]; [lia..|].
  set (p := (inject_Z (progress s) / inject_Z (questionCount s))%Q) in *.
  set (t := (inject_Z (totalScore s) / inject_Z (questionCount s))%Q) in *.
  change (inject_Z 0) with 0%Q in Hp1. change (inject_Z 15) with 15%Q in Hp2.
  change (inject_Z 1) with 1%Q in Ht1. change (inject_Z 10) with 10%Q in Ht2.
  assert (40 <= Math_round ((p * (6 # 10) + t * 4) * 10) <= 490) as [Hlo Hhi].
  { apply Math_round_range. unfold in_range. apply andb_true_intro.
    split; apply Qle_bool_iff.
    - change (inject_Z 40) with 40%Q. lra.
    - change (inject_Z 490) with 490%Q. lra. }
  split.
  - apply Qle_shift_div_l; [done|]. change (4 * 10)%Q with (inject_Z 40).
    by rewrite <- Zle_Qle.
  - apply Qle_shift_div_r; [done|]. change (49 * 10)%Q with (inject_Z 490).
    by rewrite <- Zle_Qle.
Qed.

Lemma efficiency_is_between_4_and_49_witness :
  (4 <= calculateEfficiency (play DEFAULT_AI_CONFIG [eager_reply]) <= 49)%Q.
Proof.
  apply (efficiency_is_between_4_and_49 DEFAULT_AI_CONFIG [eager_reply]);
    vm_compute; discriminate.
Defined.

(** The auto hint in a game of the AI host, after any questions: there is
    one (never [undefined]); it is the stock sentence when the puzzle has
    no hints, and otherwise the puzzle's hint at the position of the
    hints given so far, the last one once these are used up. *)
Theorem auto_hint_is_from_the_puzzle
    (cfg : config) (qs : list question) (hints : option (list string)) :
  let s := play cfg qs in
  match hints with
  | None | Some [] => generateAutoHint hints s = Some "注意观察细节，从不同角度思考"
  | Some hs =>
      ∃ h, generateAutoHint hints s = Some h ∧ h ∈ hs ∧
           (hintsGiven s < Z.of_nat (length hs) → hs !! Z.to_nat (hintsGiven s) = Some h) ∧
           (Z.of_nat (length hs) - 1 <= hintsGiven s → last hs = Some h)
  end.
Proof.
  intros s. destruct (play_counters cfg qs) as (_ & _ & [Hh _] & _).
  fold s in Hh. destruct hints as [[|h0 hs]|]; [done| |done].
  unfold generateAutoHint.
  set (l := h0 :: hs). set (i := Z.min (hintsGiven s) (Z.of_nat (length l) - 1)).
  assert (0 <= i < Z.of_nat (length l)) as Hi by (subst i l; simpl length; lia).
  rewrite (proj2 (Z.ltb_ge i 0)) by lia.
  destruct (lookup_lt_is_Some_2 l (Z.to_nat i)) as [h Hl]; [lia|].
  exists h. split_and!; [done|by eapply list_elem_of_lookup_2| |].
  - intros Hlt. rewrite <- Hl. f_equal. lia.
  - intros Hge. rewrite last_lookup, <- Hl. f_equal. subst i. lia.
Qed.

End AIHostSessionFacts.

(** ** The validated response *)

Module ResponseFacts.
Import Utils AIHost AIHostFacts AIHostSession AIHostSessionFacts PromptManager RoomFacts.
Local Open Scope Z_scope.






End ResponseFacts.

(** ** The client of the language model *)

Module LLMClientFacts.
Import AIHost LLMClient.
Local Open Scope Z_scope.

Lemma slept_app e1 e2 : slept (e1 ++ e2) = slept e1 + slept e2.
Proof.
  induction e1 as [|[a|ms] e1 IH]; simpl; [done| |]; fold (slept (e1 ++ e2));
    fold (slept e1); lia.
Qed.

Lemma back_off_cons retryDelay first count :
  0 < count →
  back_off retryDelay first count =
    Fetch first :: Sleep (retryDelay * 2 ^ (first - 1))
      :: back_off retryDelay (first + 1) (count - 1).
Proof. intros H. unfold back_off. by rewrite seqZ_cons. Qed.

Lemma slept_back_off retryDelay (n : nat) first :
  1 <= first →
  slept (back_off retryDelay first (Z.of_nat n)) =
    retryDelay * 2 ^ (first - 1) * (2 ^ Z.of_nat n - 1).
Proof.
  revert first. induction n as [|n IH]; intros first Hf.
  - simpl. lia.
  - rewrite back_off_cons by lia.
    replace (Z.of_nat (S n) - 1) with (Z.of_nat n) by lia.
    cbn [slept foldr]. fold (slept (back_off retryDelay (first + 1) (Z.of_nat n))).
    rewrite IH by lia. replace (first + 1 - 1) with (Z.succ (first - 1)) by lia.
    rewrite Nat2Z.inj_succ, !Z.pow_succ_r by lia. lia.
Qed.

Section RetryFacts.
Context {A : Type}.
Variable server : Z → reply A.
Variables maxRetries retryDelay : Z.

Lemma attempts_outcome (remaining : nat) (attempt : Z) lastError :
  (0 < remaining)%nat → attempt + Z.of_nat remaining - 1 = maxRetries →
  ∃ k, attempt <= k <= maxRetries ∧
    (∀ j, attempt <= j < k → ∃ e, server j = Fails e ∧ isClientError e = false) ∧
    (k < maxRetries →
       match server k with Data _ => True | Fails e => isClientError e = true end) ∧
    attempts server maxRetries retryDelay remaining attempt lastError =
      (match server k with Data data => Returns data | Fails e => Throws (Some e) end,
       back_off retryDelay attempt (k - attempt) ++ [Fetch k]).
Proof.
  revert attempt lastError. induction remaining as [|n IH]; intros a last Hn Ha; [lia|].
  cbn [attempts]. destruct (server a) as [data|e] eqn:Es.
  - exists a. rewrite Es, Z.sub_diag. split_and!; [lia..| |done|done]. intros; lia.
  - destruct (isClientError e) eqn:Ec.
    + exists a. rewrite Es, Z.sub_diag. split_and!; [lia..| |done|done]. intros; lia.
    + destruct (Z.eqb_spec a maxRetries) as [Hlast|Hmore].
      * exists a. rewrite Es, Z.sub_diag. split_and!; [lia..| |lia|done]. intros; lia.
      * destruct (IH (a + 1) (Some e)) as (k & Hk & Hbefore & Hstop & ->); [lia..|].
        exists k. split_and!; [lia..| |done|].
        -- intros j Hj. destruct (decide (j = a)) as [->|]; [by exists e|].
           apply Hbefore. lia.
        -- rewrite (back_off_cons retryDelay a) by lia.
           by replace (k - a - 1) with (k - (a + 1)) by lia.
Qed.

End RetryFacts.

(** makeRequestWithRetry with at least one attempt allowed: it sends the
    requests of the attempts 1 to k, for some k up to maxRetries, and
    between two of them sleeps retryDelay times 2 to the number of
    failures before the last; k is the first attempt that returns data or
    fails with a status from 400 to 499, or else the last one allowed;
    the data or the error of that attempt is what it returns or throws;
    and it has then slept retryDelay * (2^(k-1) - 1) in all. *)
Theorem retries_back_off_exponentially
    {A : Type} (server : Z → reply A) (maxRetries retryDelay : Z) :
  1 <= maxRetries →
  ∃ k, 1 <= k <= maxRetries ∧
    (∀ j, 1 <= j < k → ∃ e, server j = Fails e ∧ isClientError e = false) ∧
    (k < maxRetries →
       match server k with Data _ => True | Fails e => isClientError e = true end) ∧
    fst (makeRequestWithRetry server maxRetries retryDelay) =
      match server k with Data data => Returns data | Fails e => Throws (Some e) end ∧
    snd (makeRequestWithRetry server maxRetries retryDelay) =
      flat_map (λ j, [Fetch j; Sleep (retryDelay * 2 ^ (j - 1))]) (seqZ 1 (k - 1))
        ++ [Fetch k] ∧
    slept (snd (makeRequestWithRetry server maxRetries retryDelay)) =
      retryDelay * (2 ^ (k - 1) - 1).
Proof.
  intros Hmax. unfold makeRequestWithRetry.
  destruct (attempts_outcome server maxRetries retryDelay (Z.to_nat maxRetries) 1 None)
    as (k & Hk & Hbefore & Hstop & ->); [lia..|].
  exists k. split_and!; [lia..|done|done|done|done|]. cbn [snd].
  rewrite slept_app. replace (k - 1) with (Z.of_nat (Z.to_nat (k - 1))) by lia.
  rewrite slept_back_off by lia. simpl. lia.
Qed.

Lemma retries_back_off_exponentially_witness :
  ∃ k, 1 <= k <= 3 ∧
    (∀ j, 1 <= j < k →
       ∃ e, (λ j, if j <? 3 then Fails (HttpStatus 503) else Data "ok") j = Fails e ∧
            isClientError e = false) ∧
    (k < 3 →
       match (λ j, if j <? 3 then Fails (HttpStatus 503) else Data "ok") k with
       | Data _ => True
       | Fails e => isClientError e = true
       end) ∧
    fst (makeRequestWithRetry
           (λ j, if j <? 3 then Fails (HttpStatus 503) else Data "ok") 3 1000) =
      match (λ j, if j <? 3 then Fails (HttpStatus 503) else Data "ok") k with
      | Data data => Returns data
      | Fails e => Throws (Some e)
      end ∧
    snd (makeRequestWithRetry
           (λ j, if j <? 3 then Fails (HttpStatus 503) else Data "ok") 3 1000) =
      flat_map (λ j, [Fetch j; Sleep (1000 * 2 ^ (j - 1))]) (seqZ 1 (k - 1))
        ++ [Fetch k] ∧
    slept (snd (makeRequestWithRetry
                  (λ j, if j <? 3 then Fails (HttpStatus 503) else Data "ok") 3 1000)) =
      1000 * (2 ^ (k - 1) - 1).
Proof.
  apply (retries_back_off_exponentially
           (λ j, if j <? 3 then Fails (HttpStatus 503) else Data "ok") 3 1000).
  lia.
Defined.

Lemma Math_round_inject z : Math_round (inject_Z z) = z.
Proof.
  unfold Math_round. apply Z.le_antisymm.
  - apply Z.lt_succ_r. rewrite Zlt_Qlt. eapply Qle_lt_trans; [apply Qfloor_le|].
    unfold Z.succ. rewrite inject_Z_plus. by apply Qplus_lt_r.
  - rewrite <- (Qfloor_Z z) at 1. apply Qfloor_resp_le.
    rewrite <- (Qplus_0_r (inject_Z z)) at 1. by apply Qplus_le_r.
Qed.

Lemma in_range_inject_Z lo hi z : lo <= z <= hi → in_range lo hi (inject_Z z) = true.
Proof.
  intros [Hlo Hhi]. unfold in_range. apply andb_true_intro.
  split; apply Qle_bool_iff; by rewrite <- Zle_Qle.
Qed.

Lemma floor_of_draw (x : Q) (n : Z) :
  (0 <= x)%Q → (x < 1)%Q → 0 < n → 0 <= Qfloor (x * inject_Z n) < n.
Proof.
  intros H0 H1 Hn. set (N := inject_Z n).
  assert (0 < N)%Q as HN by (unfold N; by rewrite <- (Zlt_Qlt 0)).
  split.
  - change 0 with (Qfloor 0). apply Qfloor_resp_le. by apply Qmult_le_0_compat, Qlt_le_weak.
  - rewrite Zlt_Qlt. fold N. eapply Qle_lt_trans; [apply Qfloor_le|].
    rewrite <- (Qmult_1_l N) at 2. by apply Qmult_lt_compat_r.
Qed.

(** The mock mode, whatever numbers below 1 Math.random gives and whatever
    the question is: the response has one of the three answers, a score
    from 2 to 9, a progress from 10 to 54 and never a hint, and
    validateResponse takes it over as it is. *)
Theorem mock_response_is_valid_and_has_no_hint
    (toLowerCase : string → string) (d : draws) (question : string) :
  (0 <= answer_draw d)%Q → (answer_draw d < 1)%Q →
  (0 <= progress_draw d)%Q → (progress_draw d < 1)%Q →
  (0 <= score_draw d)%Q → (score_draw d < 1)%Q →
  ∃ answer score feedback progress,
    generateIntelligentResponse toLowerCase d question =
      {| p_answer := Some answer; p_score := Some (inject_Z score);
         p_feedback := Some feedback; p_progress := Some (inject_Z progress);
         p_hint := None |} ∧
    2 <= score <= 9 ∧ 10 <= progress <= 54 ∧
    validateResponse (generateIntelligentResponse toLowerCase d question) =
      {| r_answer := answer; r_score := score; r_feedback := feedback;
         r_progress := progress; r_hint := None |}.
Proof.
  intros Ha0 Ha1 Hp0 Hp1 Hs0 Hs1.
  pose proof (floor_of_draw (answer_draw d) 3 Ha0 Ha1 eq_refl) as Ha.
  pose proof (floor_of_draw (progress_draw d) 30 Hp0 Hp1 eq_refl) as Hp.
  pose proof (floor_of_draw (score_draw d) 2 Hs0 Hs1 eq_refl) as Hs.
  change (inject_Z 3) with 3%Q in Ha. change (inject_Z 30) with 30%Q in Hp.
  change (inject_Z 2) with 2%Q in Hs.
  unfold generateIntelligentResponse.
  set (a := Qfloor (answer_draw d * 3)) in *.
  set (p := Qfloor (progress_draw d * 30)) in *.
  set (s := Qfloor (score_draw d * 2)) in *.
  assert (∃ answer, at_floor [Yes; No; Unrelated] (answer_draw d * 3) = Some answer)
    as [answer ->].
  { unfold at_floor. fold a. rewrite (proj2 (Z.ltb_ge a 0)) by lia.
    apply lookup_lt_is_Some_2. simpl. lia. }
  exists answer.
  assert (∀ score feedback progress,
            2 <= score <= 9 → 10 <= progress <= 54 →
            feedback ≠ "" → Utils.slice0 feedback 100 = feedback →
            ∃ score' feedback' progress',
              {| p_answer := Some answer; p_score := Some (inject_Z score);
                 p_feedback := Some feedback;
                 p_progress := Some (inject_Z (Z.min 85 (Z.max 5 progress)));
                 p_hint :=
                   if (60 <? Z.min 85 (Z.max 5 progress))
                      && negb (Qle_bool (3 # 10) (hint_draw d))
                   then at_floor ["注意关键人物的职业"; "思考物品的特殊用途";
                                  "考虑时间和地点的关系"; "关注细节中的矛盾";
                                  "从心理角度分析动机"] (hint_index_draw d * 5)
                   else None |} =
              {| p_answer := Some answer; p_score := Some (inject_Z score');
                 p_feedback := Some feedback'; p_progress := Some (inject_Z progress');
                 p_hint := None |} ∧
              2 <= score' <= 9 ∧ 10 <= progress' <= 54 ∧
              validateResponse
                {| p_answer := Some answer; p_score := Some (inject_Z score);
                   p_feedback := Some feedback;
                   p_progress := Some (inject_Z (Z.min 85 (Z.max 5 progress)));
                   p_hint :=
                     if (60 <? Z.min 85 (Z.max 5 progress))
                        && negb (Qle_bool (3 # 10) (hint_draw d))
                     then at_floor ["注意关键人物的职业"; "思考物品的特殊用途";
                                    "考虑时间和地点的关系"; "关注细节中的矛盾";
                                    "从心理角度分析动机"] (hint_index_draw d * 5)
                     else None |} =
              {| r_answer := answer; r_score := score'; r_feedback := feedback';
                 r_progress := progress'; r_hint := None |}) as Hcase.
  { intros score feedback progress Hscore Hprogress Hf Hslice.
    replace (Z.min 85 (Z.max 5 progress)) with progress by lia.
    rewrite (proj2 (Z.ltb_ge 60 progress)) by lia. cbn [andb].
    exists score, feedback, progress. split_and!; [done|lia..|].
    unfold validateResponse. cbn [p_answer p_score p_feedback p_progress p_hint].
    rewrite !in_range_inject_Z, !Math_round_inject by lia.
    rewrite decide_False by done. by rewrite Hslice. }
  destruct (includes _ "为什么" || includes _ "怎么" || includes _ "如何");
    [apply Hcase; [lia|lia|done|done]|].
  destruct (includes _ "是否" || includes _ "是不是" || endsWith _ "吗？" || endsWith _ "吗");
    [apply Hcase; [lia|lia|done|done]|].
  destruct (String.length question <? 5)%nat; [apply Hcase; [lia|lia|done|done]|].
  destruct (includes _ "死" || includes _ "杀" || includes _ "凶手");
    apply Hcase; (lia || done).
Qed.

Lemma mock_response_is_valid_and_has_no_hint_witness :
  ∃ answer score feedback progress,
    generateIntelligentResponse (λ s, s)
      {| answer_draw := 0; progress_draw := 99 # 100; score_draw := 1 # 2;
         hint_draw := 0; hint_index_draw := 0 |} "为什么" =
      {| p_answer := Some answer; p_score := Some (inject_Z score);
         p_feedback := Some feedback; p_progress := Some (inject_Z progress);
         p_hint := None |} ∧
    2 <= score <= 9 ∧ 10 <= progress <= 54 ∧
    validateResponse
      (generateIntelligentResponse (λ s, s)
         {| answer_draw := 0; progress_draw := 99 # 100; score_draw := 1 # 2;
            hint_draw := 0; hint_index_draw := 0 |} "为什么") =
      {| r_answer := answer; r_score := score; r_feedback := feedback;
         r_progress := progress; r_hint := None |}.
Proof.
  apply (mock_response_is_valid_and_has_no_hint (λ s, s)
           {| answer_draw := 0; progress_draw := 99 # 100; score_draw := 1 # 2;
              hint_draw := 0; hint_index_draw := 0 |} "为什么");
    vm_compute; first [discriminate | reflexivity].
Defined.

End LLMClientFacts.

(** ** The puzzles *)

Module PuzzleManagerFacts.
Import PuzzleManager.

Lemma getPuzzleById_Some i puzzles p :
  getPuzzleById i puzzles = Some p → p ∈ puzzles ∧ id p = i.
Proof.
  unfold getPuzzleById. intros H. apply find_some in H as [Hin Heq].
  apply String.eqb_eq in Heq. split; [by apply list_elem_of_In|done].
Qed.

Lemma getPuzzleById_None i puzzles :
  getPuzzleById i puzzles = None ↔ i ∉ id <$> puzzles.
Proof.
  unfold getPuzzleById. induction puzzles as [|q l IH]; cbn [find].
  - split; [intros _; apply not_elem_of_nil|done].
  - rewrite fmap_cons, not_elem_of_cons. destruct (String.eqb_spec (id q) i) as [->|Hne].
    + split; [done|]. by intros [? _].
    + rewrite IH. split; [by split|]. by intros [_ ?].
Qed.

Lemma getPuzzleById_found puzzles p :
  NoDup (id <$> puzzles) → p ∈ puzzles → getPuzzleById (id p) puzzles = Some p.
Proof.
  unfold getPuzzleById. induction puzzles as [|q l IH]; cbn [find].
  - by intros _ ?%elem_of_nil.
  - rewrite fmap_cons, NoDup_cons. intros [Hq Hl] [->|Hin]%elem_of_cons.
    + by rewrite String.eqb_refl.
    + destruct (String.eqb_spec (id q) (id p)) as [Heq|_]; [|by apply IH].
      exfalso. apply Hq. rewrite Heq. by apply list_elem_of_fmap_2.
Qed.

Lemma addPuzzle_outcome p puzzles :
  addPuzzle p puzzles =
    if bool_decide (validatePuzzle p = [] ∧ id p ∉ id <$> puzzles)
    then (true, puzzles ++ [p]) else (false, puzzles).
Proof.
  unfold addPuzzle. fold (getPuzzleById (id p) puzzles).
  destruct (decide (validatePuzzle p = [])) as [Hv|Hv].
  - rewrite (bool_decide_eq_true_2 _ Hv); simpl.
    destruct (getPuzzleById (id p) puzzles) as [q|] eqn:E.
    + rewrite bool_decide_eq_false_2; [done|]. intros [_ Hn].
      apply getPuzzleById_None in Hn. congruence.
    + rewrite bool_decide_eq_true_2; [done|]. split; [done|].
      by apply getPuzzleById_None.
  - rewrite (bool_decide_eq_false_2 _ Hv); simpl.
    rewrite bool_decide_eq_false_2; [done|]. by intros [? _].
Qed.

Lemma validatePuzzle_host p :
  validatePuzzle p = [] → AIHostPuzzle.validatePuzzle p = [] ∧ id p ≠ "".
Proof.
  unfold validatePuzzle, AIHostPuzzle.validatePuzzle. simpl.
  destruct (decide (id p = "")); [done|].
  destruct (decide (title p = "")); [done|].
  destruct (decide (surface p = "")); [done|].
  destruct (decide (truth p = "")); [done|].
  destruct (decide (difficulty p = "")); [done|].
  destruct (decide (category p = "")); [done|]. simpl.
  destruct (keywords p); simpl; try done; destruct (tags p); simpl; try done;
    destruct (hints p); simpl; done.
Qed.

Lemma added_ok ps :
  NoDup (id <$> added ps) ∧ Forall (λ p, validatePuzzle p = []) (added ps).
Proof.
  unfold added. rewrite <- fold_left_rev_right.
  induction (rev ps) as [|p l [IHn IHv]]; simpl.
  - split; [|by repeat constructor].
    apply (bool_decide_unpack _). vm_compute. exact I.
  - rewrite addPuzzle_outcome. case_bool_decide as Hp; simpl; [|done].
    destruct Hp as [Hv Hid]. split.
    + rewrite fmap_app. apply NoDup_app. split; [done|]. split.
      * intros i Hi [->|[]%elem_of_nil]%elem_of_cons. done.
      * apply NoDup_singleton.
    + apply Forall_app. split; [done|]. by constructor.
Qed.

(** Starting from the built-in puzzles, after any calls of addPuzzle: no
    two puzzles of the manager have the same id; getPuzzleById finds each
    of them by its id and finds nothing for an id that none has; each one
    passes the manager's validation and the AI host's; and a further
    puzzle is added, at the end, exactly when it is valid and its id is
    new, the puzzles staying as they are otherwise. *)
Theorem puzzle_ids_stay_unique (ps : list puzzle) (new : puzzle) :
  let puzzles := added ps in
  NoDup (id <$> puzzles) ∧
  (∀ p, p ∈ puzzles →
        getPuzzleById (id p) puzzles = Some p ∧
        validatePuzzle p = [] ∧ AIHostPuzzle.validatePuzzle p = []) ∧
  (∀ i, getPuzzleById i puzzles = None ↔ i ∉ id <$> puzzles) ∧
  addPuzzle new puzzles =
    if bool_decide (validatePuzzle new = [] ∧ id new ∉ id <$> puzzles)
    then (true, puzzles ++ [new]) else (false, puzzles).
Proof.
  intros puzzles. destruct (added_ok ps) as [Hn Hv]. fold puzzles in Hn, Hv.
  split; [done|]. split; [|split].
  - intros p Hp. rewrite Forall_forall in Hv. specialize (Hv p Hp).
    split; [by apply getPuzzleById_found|]. split; [done|].
    by apply validatePuzzle_host.
  - intros i. apply getPuzzleById_None.
  - apply addPuzzle_outcome.
Qed.

Lemma filter_with_spec {A} (f : A → option bool) l :
  match filter_with f l with
  | Some l' => (∀ x, x ∈ l → is_Some (f x)) ∧ ∀ x, x ∈ l' ↔ x ∈ l ∧ f x = Some true
  | None => ∃ x, x ∈ l ∧ f x = None
  end.
Proof.
  induction l as [|a l IH]; cbn [filter_with].
  - split; [by intros ? ?%elem_of_nil|]. intros x. split; [by intros ?%elem_of_nil|].
    by intros [?%elem_of_nil _].
  - destruct (f a) as [b|] eqn:Ea; [|exists a; split; [left|done]].
    destruct (filter_with f l) as [l'|].
    + destruct IH as [IH1 IH2]. split.
      * intros x [->|Hx]%elem_of_cons; [by rewrite Ea|by apply IH1].
      * intros x. destruct b.
        -- rewrite !elem_of_cons, IH2. split.
           ++ intros [->|[? ?]]; [by split; [left|]|by split; [right|]].
           ++ intros [[->|?] ?]; [by left|by right].
        -- rewrite elem_of_cons, IH2. split.
           ++ intros [? ?]. by split; [right|].
           ++ intros [[->|?] ?]; [congruence|done].
    + destruct IH as (x & Hx & Hf). exists x. by split; [right|].
Qed.

Lemma some_with_includes t ftags :
  ftags ≠ [] →
  match some_with (includes t) ftags with
  | Some b => ∃ l, t = Items l ∧ (b = true ↔ ∃ tag, tag ∈ ftags ∧ tag ∈ l)
  | None => ∀ l, t ≠ Items l
  end.
Proof.
  destruct t as [|l|]; try (destruct ftags; by simpl). intros _.
  induction ftags as [|tag ftags IH]; cbn [some_with includes].
  - exists l. split; [done|]. split; [done|]. by intros (? & ?%elem_of_nil & _).
  - case_bool_decide as Htag.
    + exists l. split; [done|]. split; [|done]. intros _. exists tag. by split; [left|].
    + destruct (some_with (includes (Items l)) ftags) as [b|]; [|by destruct (IH l)].
      destruct IH as (l' & [= <-] & IH). exists l. split; [done|]. rewrite IH.
      split; intros (t & Ht & Hl).
      * exists t. by split; [right|].
      * apply elem_of_cons in Ht as [->|Ht]; [done|]. by exists t.
Qed.

Lemma elem_of_List_filter {A} (f : A → bool) l x :
  x ∈ List.filter f l ↔ x ∈ l ∧ f x = true.
Proof. by rewrite !list_elem_of_In, filter_In. Qed.

Lemma randomIndex_range (random : Q) (n : nat) :
  (0 <= random)%Q → (random < 1)%Q → (0 < n)%nat →
  0 <= Qfloor (random * inject_Z (Z.of_nat n)) < Z.of_nat n.
Proof.
  intros H0 H1 Hn. set (N := inject_Z (Z.of_nat n)).
  assert (0 < N)%Q as HN by (unfold N; rewrite <- (Zlt_Qlt 0); lia).
  split.
  - change 0 with (Qfloor 0). apply Qfloor_resp_le. by apply Qmult_le_0_compat, Qlt_le_weak.
  - rewrite Zlt_Qlt. fold N. eapply Qle_lt_trans; [apply Qfloor_le|].
    rewrite <- (Qmult_1_l N) at 2. by apply Qmult_lt_compat_r.
Qed.

(** getRandomPuzzle, whatever number below 1 Math.random gives: the
    puzzle it returns is one of the manager's and passes every filter that
    is set; when it returns null, no puzzle passes them; and it throws
    exactly when a tag filter meets a puzzle without array of tags among
    those of the wanted difficulty and category. *)
Theorem random_puzzle_passes_the_filters
    (fs : filters) (random : Q) (puzzles : list puzzle) :
  (0 <= random)%Q → (random < 1)%Q →
  match getRandomPuzzle fs random puzzles with
  | Returns (Some p) => p ∈ puzzles ∧ passes fs p
  | Returns None => ∀ p, p ∈ puzzles → ¬ passes fs p
  | TypeError => True
  end ∧
  (getRandomPuzzle fs random puzzles = TypeError ↔
     f_tags fs ≠ [] ∧
     ∃ p, p ∈ puzzles ∧
          (f_difficulty fs = "" ∨ difficulty p = f_difficulty fs) ∧
          (f_category fs = "" ∨ category p = f_category fs) ∧
          ∀ l, tags p ≠ Items l).
Proof.
  intros H0 H1. unfold getRandomPuzzle.
  set (D := if decide (f_difficulty fs = "") then puzzles else _).
  set (C := if decide (f_category fs = "") then D else _).
  assert (∀ p, p ∈ C ↔ p ∈ puzzles ∧
            (f_difficulty fs = "" ∨ difficulty p = f_difficulty fs) ∧
            (f_category fs = "" ∨ category p = f_category fs)) as HC.
  { intros p. subst C D.
    destruct (decide (f_category fs = "")), (decide (f_difficulty fs = ""));
      rewrite ?elem_of_List_filter, ?String.eqb_eq; tauto. }
  clearbody C. clear D.
  set (T := if (0 <? length (f_tags fs))%nat then _ else Some C).
  assert (match T with
          | Some T =>
              (∀ p, p ∈ T ↔ p ∈ C ∧
                 (f_tags fs = [] ∨
                  ∃ l tag, tags p = Items l ∧ tag ∈ f_tags fs ∧ tag ∈ l)) ∧
              (f_tags fs ≠ [] → ∀ p, p ∈ C → ∃ l, tags p = Items l)
          | None => f_tags fs ≠ [] ∧ ∃ p, p ∈ C ∧ ∀ l, tags p ≠ Items l
          end) as HT.
  { subst T. destruct (f_tags fs) as [|t0 ts] eqn:Ets; simpl length.
    - simpl. split; [|done]. intros p. tauto.
    - change (0 <? S (length ts))%nat with true. cbv iota.
      pose proof (filter_with_spec (λ p, some_with (includes (tags p)) (t0 :: ts)) C) as Hf.
      destruct (filter_with _ C) as [l'|].
      + destruct Hf as [Hall Hf]. split.
        * intros p. rewrite Hf. split.
          -- intros [Hp Hs]. split; [done|right].
             pose proof (some_with_includes (tags p) (t0 :: ts)) as Hi. rewrite Hs in Hi.
             destruct Hi as (l & Hl & Hb); [done|].
             destruct (proj1 Hb eq_refl) as (tag & ? & ?). by exists l, tag.
          -- intros [Hp [?|(l & tag & Hl & Ht & Hin)]]; [done|]. split; [done|].
             pose proof (some_with_includes (tags p) (t0 :: ts)) as Hi.
             destruct (some_with _ _) as [b|]; [|by destruct (Hi ltac:(done) l)].
             destruct Hi as (l2 & Hl2 & Hb); [done|]. f_equal. apply Hb.
             exists tag. split; [done|]. congruence.
        * intros _ p Hp. destruct (Hall p Hp) as [b Hb].
          pose proof (some_with_includes (tags p) (t0 :: ts)) as Hi. rewrite Hb in Hi.
          destruct Hi as (l & Hl & _); [done|]. by exists l.
      + destruct Hf as (p & Hp & Hs). split; [done|]. exists p. split; [done|].
        pose proof (some_with_includes (tags p) (t0 :: ts)) as Hi. rewrite Hs in Hi.
        by apply Hi. }
  destruct T as [T|].
  2:{ split; [done|]. split; [intros _|done].
      destruct HT as (? & p & Hp & ?). split; [done|].
      exists p. apply HC in Hp. tauto. }
  destruct HT as [HT Harrays].
  assert (¬ (f_tags fs ≠ [] ∧
             ∃ p, p ∈ puzzles ∧
                  (f_difficulty fs = "" ∨ difficulty p = f_difficulty fs) ∧
                  (f_category fs = "" ∨ category p = f_category fs) ∧
                  ∀ l, tags p ≠ Items l)) as Hgood.
  { intros (Hne & p & Hp & Hd & Hc & Hbad).
    destruct (Harrays Hne p) as [l Hl]; [apply HC; tauto|]. by apply (Hbad l). }
  set (E := if (0 <? length (f_excludeIds fs))%nat then _ else T).
  assert (∀ p, p ∈ E ↔ p ∈ puzzles ∧ passes fs p) as HE.
  { intros p. subst E. unfold passes. destruct (f_excludeIds fs) as [|e0 es] eqn:Ees.
    - simpl. rewrite HT, HC. pose proof (not_elem_of_nil (id p)). tauto.
    - change (0 <? length (e0 :: es))%nat with true. cbv iota.
      rewrite elem_of_List_filter, HT, HC, negb_true_iff, bool_decide_eq_false.
      tauto. }
  clearbody E. clear T HT Harrays C HC.
  destruct (Nat.eqb_spec (length E) 0) as [Hlen|Hlen].
  - split; [|by split].
    intros p Hp Hpass. apply length_zero_iff_nil in Hlen. subst E.
    by apply (not_elem_of_nil p), HE.
  - destruct (randomIndex_range random (length E) H0 H1) as [Hi0 Hi1]; [lia|].
    rewrite (proj2 (Z.ltb_ge _ 0)) by done.
    destruct (lookup_lt_is_Some_2 E (Z.to_nat (Qfloor (random * inject_Z (Z.of_nat (length E))))))
      as [p Hp]; [lia|].
    rewrite Hp. split; [|by split]. apply HE. by eapply list_elem_of_lookup_2.
Qed.

Lemma random_puzzle_passes_the_filters_witness :
  let fs := {| f_difficulty := "中等"; f_category := ""; f_tags := ["恐惧"];
               f_excludeIds := ["classic_004"] |} in
  ∃ p, getRandomPuzzle fs (1 # 2) puzzlesData = Returns (Some p) ∧
       id p = "modern_001" ∧ p ∈ puzzlesData ∧ passes fs p.
Proof.
  intros fs. eexists. split; [vm_compute; reflexivity|]. split; [reflexivity|].
  refine (proj1 (random_puzzle_passes_the_filters fs (1 # 2) puzzlesData _ _));
    vm_compute; [discriminate|reflexivity].
Defined.

End PuzzleManagerFacts.

(** ** The configuration *)

Module AIConfigFacts.
Import Utils AIConfig.

Lemma get_setNestedProperty obj p v q :
  get (setNestedProperty obj p v) q = if decide (p = q) then Some v else get obj q.
Proof.
  unfold get, setNestedProperty. destruct p as [a b], q as [c d]; simpl.
  destruct (decide (a = c)) as [->|Hac].
  - rewrite lookup_insert_eq; simpl. destruct (decide (b = d)) as [->|Hbd].
    + rewrite lookup_insert_eq. by rewrite decide_True.
    + rewrite lookup_insert_ne by done. rewrite decide_False by congruence.
      by destruct (obj !! c).
  - rewrite lookup_insert_ne by done. by rewrite decide_False by congruence.
Qed.

Section BuildFacts.
Variable Number : string → number.
Variable toLowerCase : string → string.
Variable env : gmap string string.

Lemma fold_get (l : list (string * path)) (cfg : gmap string (gmap string value)) :
  NoDup l.*2 →
  (∀ k p, (k, p) ∈ l →
     get (fold_left (apply_entry Number toLowerCase env) l cfg) p =
       match from_env Number toLowerCase env k p with
       | Some v => Some v
       | None => get cfg p
       end) ∧
  (∀ p, p ∉ l.*2 → get (fold_left (apply_entry Number toLowerCase env) l cfg) p = get cfg p).
Proof.
  induction l as [|[k p] l IH] using rev_ind; intros Hnd.
  - split; [by intros ? ? ?%elem_of_nil|done].
  - rewrite fmap_app in Hnd. apply NoDup_app in Hnd as (Hl & Hp & _).
    destruct (IH Hl) as [IH1 IH2]. rewrite fold_left_app. cbn [fold_left].
    unfold apply_entry at 1 3.
    assert (p ∉ l.*2) as Hpl.
    { intros Hin. apply (Hp p Hin). simpl. by left. }
    split.
    + intros k' p' [Hin|[= -> ->]%list_elem_of_singleton]%elem_of_app.
      * assert (p ≠ p') as Hne.
        { intros ->. apply Hpl. by apply (list_elem_of_fmap_2 snd _ (k', p')). }
        rewrite <- (IH1 k' p' Hin).
        destruct (env !! k) as [ev|]; [|done].
        destruct (parseConfigValue _ _ ev _); [|done].
        by rewrite get_setNestedProperty, decide_False.
      * unfold from_env. destruct (env !! k) as [ev|]; simpl; [|by apply IH2].
        destruct (parseConfigValue _ _ ev _); [|by apply IH2].
        by rewrite get_setNestedProperty, decide_True.
    + intros p' Hp'. rewrite fmap_app, elem_of_app in Hp'.
      assert (p ≠ p') as Hne by (intros ->; apply Hp'; right; simpl; by left).
      rewrite <- (IH2 p') by tauto.
      destruct (env !! k) as [ev|]; [|done].
      destruct (parseConfigValue _ _ ev _); [|done].
      by rewrite get_setNestedProperty, decide_False.
Qed.

Lemma ENV_CONFIG_MAP_NoDup : NoDup ENV_CONFIG_MAP.*2.
Proof. apply (bool_decide_unpack _). vm_compute. exact I. Qed.

Lemma buildAIConfig_get k p :
  (k, p) ∈ ENV_CONFIG_MAP →
  get (buildAIConfig Number toLowerCase env) p =
    match from_env Number toLowerCase env k p with
    | Some v => Some v
    | None => get DEFAULT_AI_CONFIG p
    end.
Proof.
  intros Hin. unfold buildAIConfig.
  destruct (fold_get ENV_CONFIG_MAP DEFAULT_AI_CONFIG ENV_CONFIG_MAP_NoDup) as [Hget _].
  specialize (Hget k p Hin).
  destruct (env !! "LLM_API_KEY") as [key|] eqn:Ekey; [|done].
  destruct (decide (key = "")) as [->|Hkey]; [done|].
  rewrite get_setNestedProperty. case_decide as Hp; [|done]. subst p.
  assert (k = "LLM_API_KEY") as ->.
  { revert Hin. unfold ENV_CONFIG_MAP. rewrite !elem_of_cons, elem_of_nil.
    intros H. repeat (destruct H as [H|H]; [by simplify_eq|]). done. }
  unfold from_env. rewrite Ekey. simpl. unfold parseConfigValue.
  by rewrite decide_False.
Qed.

End BuildFacts.

Lemma not_among_the_other_warnings (b1 b2 b3 b4 : bool) :
  "LLM API key is not set" ∉
    (if b1 then ["LLM max tokens should be between 100 and 4000"] else [])
    ++ (if b2 then ["LLM temperature should be between 0 and 2"] else [])
    ++ (if b3 then ["Max questions per round seems too low"] else [])
    ++ (if b4 then ["Max score is recommended to be 10"] else []).
Proof.
  apply (bool_decide_unpack _). by destruct b1, b2, b3, b4.
Qed.

(** buildAIConfig, for every environment: each setting that has a
    variable is the parsed value of that variable, and the default when
    the variable is not set, is empty or, for a number, does not parse;
    validateAIConfig finds the configuration valid exactly when
    LLM_API_URL is set and not empty, its only error being the missing
    URL; and it warns of a missing API key exactly when LLM_API_KEY is not
    set or empty. *)
Theorem configuration_needs_only_the_api_url
    (Number : string → number) (toLowerCase : string → string)
    (env : gmap string string) :
  let config := buildAIConfig Number toLowerCase env in
  let result := validateAIConfig Number config in
  (∀ envKey p, (envKey, p) ∈ ENV_CONFIG_MAP →
     get config p =
       match from_env Number toLowerCase env envKey p with
       | Some v => Some v
       | None => get DEFAULT_AI_CONFIG p
       end) ∧
  errors result =
    match env !! "LLM_API_URL" with
    | Some url => if decide (url = "") then ["LLM API URL is required"] else []
    | None => ["LLM API URL is required"]
    end ∧
  ("LLM API key is not set" ∈ warnings result ↔
     env !! "LLM_API_KEY" = None ∨ env !! "LLM_API_KEY" = Some "").
Proof.
  intros config result.
  pose proof (buildAIConfig_get Number toLowerCase env) as Hget. fold config in Hget.
  split; [done|].
  assert (∀ k p, bool_decide ((k, p) ∈ ENV_CONFIG_MAP) = true → (k, p) ∈ ENV_CONFIG_MAP)
    as Hin by (intros k p; apply bool_decide_eq_true_1).
  pose proof (Hget _ _ (Hin "LLM_API_URL" ("llm", "apiUrl") eq_refl)) as Hurl.
  pose proof (Hget _ _ (Hin "LLM_MODEL" ("llm", "model") eq_refl)) as Hmodel.
  pose proof (Hget _ _ (Hin "LLM_API_KEY" ("llm", "apiKey") eq_refl)) as Hkey.
  unfold from_env in Hurl, Hmodel, Hkey.
  change (getConfigType ("llm", "apiUrl")) with string_type in Hurl.
  change (getConfigType ("llm", "model")) with string_type in Hmodel.
  change (getConfigType ("llm", "apiKey")) with string_type in Hkey.
  change (get DEFAULT_AI_CONFIG ("llm", "apiUrl")) with (Some (VString "")) in Hurl.
  change (get DEFAULT_AI_CONFIG ("llm", "model")) with (Some (VString "gpt-4")) in Hmodel.
  change (get DEFAULT_AI_CONFIG ("llm", "apiKey")) with (@None value) in Hkey.
  unfold parseConfigValue in Hurl, Hmodel, Hkey.
  assert (∀ s, s ≠ "" → String.eqb s "" = false) as Hne.
  { intros s Hs. by apply String.eqb_neq. }
  split.
  - subst result. unfold validateAIConfig. cbn [errors]. rewrite Hurl, Hmodel.
    assert (truthy match env !! "LLM_MODEL" ≫= (λ envValue,
                     if decide (envValue = "") then None else Some (VString envValue))
                   with Some v => Some v | None => Some (VString "gpt-4") end = true) as ->.
    { destruct (env !! "LLM_MODEL") as [m|]; simpl; [|done].
      destruct (decide (m = "")); simpl; [done|]. by rewrite Hne. }
    destruct (env !! "LLM_API_URL") as [url|]; simpl; [|done].
    destruct (decide (url = "")); simpl; [done|]. by rewrite Hne.
  - subst result. unfold validateAIConfig. cbn [warnings]. rewrite Hkey.
    rewrite elem_of_app.
    split.
    + intros [Hw|Hw].
      * destruct (env !! "LLM_API_KEY") as [key|]; simpl in Hw; [|by left].
        destruct (decide (key = "")) as [->|]; [by right|].
        simpl in Hw. rewrite Hne in Hw by done. by apply elem_of_nil in Hw.
      * exfalso. by apply not_among_the_other_warnings in Hw.
    + intros [-> | ->]; left; simpl; by left.
Qed.

End AIConfigFacts.

(** ** The routes *)

Module WorkerFacts.
Import Worker.
Local Open Scope nat_scope.

Lemma split_cons s : ∃ piece pieces, split s = piece :: pieces.
Proof.
  induction s as [|c s (p & ps & IH)]; simpl; [by eexists _, _|].
  destruct (Ascii.eqb c "/"%char); [by eexists _, _|]. rewrite IH. by eexists _, _.
Qed.

Lemma join_split s : join (split s) = s.
Proof.
  induction s as [|c s IH]; [done|]. cbn [split].
  destruct (split_cons s) as (p & ps & E).
  destruct (Ascii.eqb_spec c "/"%char) as [->|Hc].
  - rewrite E. change (join (EmptyString :: p :: ps)) with (String "/"%char (join (p :: ps))).
    by rewrite <- E, IH.
  - rewrite E in *. rewrite <- IH. by destruct ps.
Qed.

Lemma split_no_slash s : Forall (λ piece, no_slash piece = true) (split s).
Proof.
  induction s as [|c s IH]; cbn [split]; [by repeat constructor|].
  destruct (Ascii.eqb c "/"%char) eqn:Ec; [by constructor|].
  destruct (split_cons s) as (p & ps & E). rewrite E in *.
  apply Forall_cons in IH as [Hp Hps]. constructor; [|done]. simpl. by rewrite Ec.
Qed.

Lemma split_piece piece rest :
  no_slash piece = true →
  split (piece +:+ String "/"%char rest) = piece :: split rest.
Proof.
  induction piece as [|c piece IH]; simpl; [done|].
  destruct (Ascii.eqb c "/"%char); simpl; [done|]. intros H. by rewrite IH.
Qed.

Lemma split_last piece : no_slash piece = true → split piece = [piece].
Proof.
  induction piece as [|c piece IH]; simpl; [done|].
  destruct (Ascii.eqb c "/"%char); simpl; [done|]. intros H. by rewrite IH.
Qed.

(** A request gets a session of a room in one way only: it asks for the
    path /api/room/NAME/websocket with the header Upgrade: websocket,
    where NAME is not empty, has no slash and is 64 hexadecimal digits
    that the namespace takes as an id, or else at most 32 characters long;
    the room is then the one with this id or the one of this name. *)
Theorem session_only_by_the_websocket_route
    (valid_id : string → bool) (r : request) (rest : string)
    (id : room_id) (ip : option string) :
  pathname r = String "/"%char rest →
  fetch valid_id r = Session id ip ↔
    ∃ name,
      rest = ("api/room/" +:+ name +:+ "/websocket") ∧
      name ≠ "" ∧ no_slash name = true ∧
      Upgrade r = Some "websocket" ∧ ip = CF_Connecting_IP r ∧
      (if is_id name then valid_id name = true ∧ id = idFromString name
       else String.length name ≤ 32 ∧ id = idFromName name).
Proof.
  intros Hpath. unfold fetch. rewrite Hpath. cbn [slice1]. split.
  - pose proof (join_split rest) as Hjoin. pose proof (split_no_slash rest) as Hno.
    destruct (split rest) as [|p0 path]; [done|].
    destruct (String.eqb_spec p0 "api") as [->|Hne].
    2:{ destruct p0 as [|c0 p0]; [done|]. intros H. exfalso. revert H.
        repeat (first [ destruct c0 as [[] [] [] [] [] [] [] []]; try done
                      | destruct p0 as [|c0 p0]; try done ]). }
    cbn -[handleApiRequest join]. unfold handleApiRequest.
    destruct path as [|p1 path]; [done|].
    destruct (String.eqb_spec p1 "room") as [->|Hne].
    2:{ destruct p1 as [|c1 p1]; [done|]. intros H. exfalso. revert H.
        repeat (first [ destruct c1 as [[] [] [] [] [] [] [] []]; try done
                      | destruct p1 as [|c1 p1]; try done ]). }
    destruct path as [|name path2]; [by destruct (String.eqb _ _)|].
    destruct name as [|c name]; [by destruct (String.eqb _ _)|].
    set (n := String c name) in *.
    intros H. exists n.
    assert (ChatRoom_fetch id (String "/"%char (join path2)) r = Session id ip →
            join path2 = "websocket" ∧ Upgrade r = Some "websocket" ∧
            ip = CF_Connecting_IP r) as Hroom.
    { unfold ChatRoom_fetch. destruct (String.eqb_spec (String "/"%char (join path2)) "/websocket")
        as [[= ->]|]; [|done].
      case_bool_decide; simpl; [|done]. by intros [= <-]. }
    apply Forall_cons in Hno as [_ Hno]. apply Forall_cons in Hno as [_ Hno].
    apply Forall_cons in Hno as [Hn _].
    assert (rest = ("api/room/" +:+ n +:+ "/" +:+ join path2)) as Hrest.
    { rewrite <- Hjoin. cbn [join]. destruct path2; [|done].
      (* the path ends with the name: no session *)
      exfalso. revert H. destruct (is_id n); [destruct (valid_id n)|]; simpl.
      - unfold ChatRoom_fetch. simpl. done.
      - done.
      - destruct (_ <=? _)%nat; [|done]. unfold ChatRoom_fetch. simpl. done. }
    revert H. destruct (is_id n) eqn:Eid.
    + destruct (valid_id n); simpl; [|done]. intros H.
      assert (ChatRoom_fetch (idFromString n) (String "/"%char (join path2)) r = Session id ip)
        as H' by done.
      assert (id = idFromString n) as ->.
      { revert H'. unfold ChatRoom_fetch. repeat case_match; congruence. }
      destruct (Hroom H') as (Hj & Hu & Hi). rewrite Hj in Hrest. by split_and!.
    + destruct (String.length n <=? 32) eqn:Elen; [|done]. simpl. intros H'.
      assert (id = idFromName n) as ->.
      { revert H'. unfold ChatRoom_fetch. repeat case_match; congruence. }
      destruct (Hroom H') as (Hj & Hu & Hi). rewrite Hj in Hrest.
      apply Nat.leb_le in Elen. by split_and!.
  - intros (name & -> & Hname & Hslash & Hu & -> & Hid).
    change ("api/room/" +:+ name +:+ "/websocket")
      with ("api" +:+ String "/"%char ("room" +:+ String "/"%char (name +:+ String "/"%char "websocket"))).
    rewrite !split_piece, split_last by done.
    destruct name as [|c name]; [done|]. set (n := String c name) in *.
    cbn -[is_id String.length Nat.leb]. unfold ChatRoom_fetch. simpl String.eqb.
    rewrite (bool_decide_eq_true_2 _ Hu). simpl negb.
    destruct (is_id n).
    + destruct Hid as [-> ->]. done.
    + destruct Hid as [Hlen ->]. apply Nat.leb_le in Hlen. by rewrite Hlen.
Qed.

Lemma session_only_by_the_websocket_route_witness :
  fetch (λ _, true)
    {| method := "GET"; pathname := "/api/room/lobby/websocket";
       Upgrade := Some "websocket"; CF_Connecting_IP := Some "192.0.2.1" |} =
  Session (idFromName "lobby") (Some "192.0.2.1").
Proof.
  refine (proj2 (session_only_by_the_websocket_route (λ _, true)
            {| method := "GET"; pathname := "/api/room/lobby/websocket";
               Upgrade := Some "websocket"; CF_Connecting_IP := Some "192.0.2.1" |}
            "api/room/lobby/websocket" (idFromName "lobby") (Some "192.0.2.1")
            eq_refl) _).
  exists "lobby". vm_compute. split_and!; try done. lia.
Defined.

End WorkerFacts.
